(** * threadcopy: a shallow embedding of [threadcopy.c]

    The program copies a list of input files to a list of output files,
    one POSIX thread per pair, optionally verifying every copy, and
    returns one aggregated exit code.

    The development follows the source file top-down:
    - the constants of the [#define] block;
    - the C library calls the program relies on ([strlen], [strstr],
      [strncpy], [strtok_r], [fread], [fwrite], [feof]);
    - [get_filenames], the tokenizer of the [-i] and [-o] arguments;
    - [copyFile], the body of one worker thread;
    - [main]: option handling, sanity checks, validation of the input
      files, the descriptor limit, the dispatch loop and the polling
      loop that collects the workers' results.

    Integers of the program are modelled in [Z]; none of the modelled
    computations can leave the range of its C type (counts are bounded
    by [FILES_MAX], block lengths by [BLOCKSIZE]).  The two [double]
    fields of a task hold a difference of clock readings; they are
    modelled as rationals in [Q], which leaves the rounding of the
    division by 1000000 out. *)

From Stdlib.Strings Require Import Byte.
From Stdlib Require Import String Ascii Bool Arith ZArith QArith Lia List.
Import ListNotations.

Local Open Scope string_scope.
Local Open Scope list_scope.
Local Open Scope Z_scope.

#[local] Set Warnings "-abstract-large-number".

(** ** Constants *)

(** Command exit codes. *)
Definition EXIT_OK : Z := 0.
Definition READ_ERROR : Z := 1.
Definition WRITE_ERROR : Z := 2.
Definition VERIFY_ERROR : Z := 3.
Definition ARG_ERROR : Z := 4.

(** Thread status. *)
Definition TS_INIT : Z := 0.
Definition TS_RUNNING : Z := 1.
Definition TS_DONE : Z := 2.
Definition TS_CHECKED : Z := 3.

(** File related. *)
Definition BLOCKSIZE : nat := 4096.
Definition PATH_MAX : nat := 1024.
Definition FILES_MAX : nat := 10000.

Definition DELIMITER : string := "|".

(** ** The string functions of the C library

    A C string is modelled by the [string] of its characters before the
    terminating NUL. *)

Definition strlen (s : string) : nat := String.length s.

(** [strstr hay needle]: the suffix of [hay] that starts at the first
    occurrence of [needle], [None] for the NULL pointer. *)
Fixpoint strstr (hay needle : string) : option string :=
  if String.prefix needle hay then Some hay
  else match hay with
       | EmptyString => None
       | String _ rest => strstr rest needle
       end.

(** [strncpy (dst, src, n)] copies at most [n] characters of [src]; the
    value is what [dst] holds afterwards.  A source of [n] characters or
    more leaves [dst] without terminator; the model keeps the [n]
    characters that were copied. *)
Definition strncpy (src : string) (n : nat) : string := String.substring 0 n src.

Definition is_delim (delim : string) (c : ascii) : bool :=
  existsb (Ascii.eqb c) (list_ascii_of_string delim).

(** [strspn]: skip the leading delimiters. *)
Fixpoint skip_delims (delim s : string) : string :=
  match s with
  | EmptyString => EmptyString
  | String c rest => if is_delim delim c then skip_delims delim rest else s
  end.

(** [strcspn] and the split that [strtok_r] makes there: the token up to
    the first delimiter, and the text after that delimiter (empty when
    the end of the string was reached). *)
Fixpoint split_token (delim s : string) : string * string :=
  match s with
  | EmptyString => (EmptyString, EmptyString)
  | String c rest =>
      if is_delim delim c then (EmptyString, rest)
      else let (tok, save) := split_token delim rest in (String c tok, save)
  end.

(** [strtok_r s delim &saveptr]: [None] is the NULL token; otherwise the
    token and the new value of [saveptr]. *)
Definition strtok_r (s delim : string) : option (string * string) :=
  match skip_delims delim s with
  | EmptyString => None
  | s' => Some (split_token delim s')
  end.

(** ** Filename tables

    [ifiles] and [ofiles] are arrays of [FILES_MAX] rows that [main]
    clears before use.  A table is modelled by the list of its leading
    rows; every row past the end of the list is a cleared row, that is
    the empty string. *)

Definition table := list string.

Definition row (fn : table) (i : nat) : string := nth i fn EmptyString.

(** Assignment to entry [i] of an array whose entries past the end of
    the list have the value [d]. *)
Fixpoint store {A : Type} (d : A) (l : list A) (i : nat) (x : A) : list A :=
  match i, l with
  | O, [] => [x]
  | O, _ :: rest => x :: rest
  | S j, [] => d :: store d [] j x
  | S j, y :: rest => y :: store d rest j x
  end.

Definition store_row (fn : table) (i : nat) (s : string) : table :=
  store EmptyString fn i s.

(** ** [get_filenames] *)

(** The [for] loop of [get_filenames]; [n] counts the iterations that are
    left before [i] reaches [FILES_MAX].  The result is the value of
    [numf] after the loop and the table. *)
Fixpoint token_loop (n i : nat) (saveptr : string) (fn : table) : Z * table :=
  match n with
  | O => (0, fn)
  | S n' =>
      match strtok_r saveptr DELIMITER with
      | None => (Z.of_nat i, fn)
      | Some (token, saveptr') =>
          token_loop n' (S i) saveptr' (store_row fn i (strncpy token PATH_MAX))
      end
  end.

Definition get_filenames (farg : string) (fn : table) : Z * table :=
  if (0 <? strlen farg)%nat then
    match strstr farg DELIMITER with
    | None => (1, store_row fn 0 (strncpy farg PATH_MAX))
    | Some _ =>
        let (numf, fn') := token_loop FILES_MAX 0 farg fn in
        ((if 0 <? numf then numf - 1 else numf), fn')
    end
  else (0, fn).

(** The tokens of an argument, as successive calls of [strtok_r] hand
    them out; [tokens] are those the loop of [get_filenames] can reach. *)
Fixpoint tokens_upto (n : nat) (s : string) : list string :=
  match n with
  | O => []
  | S n' =>
      match strtok_r s DELIMITER with
      | None => []
      | Some (token, saveptr) => token :: tokens_upto n' saveptr
      end
  end.

Definition tokens (s : string) : list string := tokens_upto FILES_MAX s.

(** ** Buffered streams

    A stream opened for reading delivers the bytes of [r_data]; what a
    read finds once they are used up is fixed by [r_end]: the end of the
    file, or a failure of the device.  [r_eof] and [r_err] are the two
    indicators of the [FILE] object. *)

Inductive stream_end := AtEOF | AtFault.

Record rfile := {
  r_data : list byte;
  r_end : stream_end;
  r_eof : bool;
  r_err : bool
}.

(** What [fopen (name, "r")] finds: the content and how it ends. *)
Record source := { src_data : list byte; src_end : stream_end }.

Definition fopen_r (s : source) : rfile :=
  {| r_data := src_data s; r_end := src_end s; r_eof := false; r_err := false |}.

Definition feof (f : rfile) : bool := r_eof f.

(** [fread (buf, 1, n, f)]: the bytes delivered (their number is the
    value returned) and the stream afterwards.  A short count sets the
    indicator that [r_end] names. *)
Definition fread (n : nat) (f : rfile) : list byte * rfile :=
  if (n <=? length (r_data f))%nat then
    (firstn n (r_data f),
     {| r_data := skipn n (r_data f); r_end := r_end f;
        r_eof := r_eof f; r_err := r_err f |})
  else
    (r_data f,
     {| r_data := []; r_end := r_end f;
        r_eof := match r_end f with AtEOF => true | AtFault => r_eof f end;
        r_err := match r_end f with AtFault => true | AtEOF => r_err f end |}).

(** A stream opened for writing, as its calls of [fwrite] report it:
    the bytes the calls accepted so far, and the number of bytes further
    calls accept before one of them returns a short count ([None]: no
    call ever does).  The stream is buffered and [copyFile] drops the
    value of [fclose]: what the device refuses when the buffer is
    written out at [fclose] is reported to nobody, and a stream that
    fails only then is one with [None]. *)
Record wfile := { w_data : list byte; w_room : option nat }.

(** What [fopen (name, "w")] finds: the room of the stream in the sense
    above.  The stream starts empty, the file being created or
    truncated. *)
Record sink := { snk_room : option nat }.

Definition fopen_w (s : sink) : wfile := {| w_data := []; w_room := snk_room s |}.

(** [fwrite (buf, 1, n, f)] with [n] the length of [buf]: the count
    returned and the stream afterwards. *)
Definition fwrite (buf : list byte) (f : wfile) : nat * wfile :=
  match w_room f with
  | None => (length buf, {| w_data := w_data f ++ buf; w_room := None |})
  | Some k =>
      if (length buf <=? k)%nat then
        (length buf, {| w_data := w_data f ++ buf; w_room := Some (k - length buf)%nat |})
      else
        (k, {| w_data := w_data f ++ firstn k buf; w_room := Some O |})
  end.

(** ** Task records *)

Record timeval := { tv_sec : Z; tv_usec : Z }.

Record filedata := {
  input_name : string;
  output_name : string;
  size : Z;
  time_usec : Q;
  time_sec : Q;
  result : Z;
  status : Z;
  verify : bool
}.

(** [memset (fdata, 0, sizeof fdata)]. *)
Definition filedata_zero : filedata :=
  {| input_name := EmptyString; output_name := EmptyString; size := 0;
     time_usec := 0%Q; time_sec := 0%Q; result := 0; status := 0;
     verify := false |}.

(** The assignments a worker makes to its record, in program order.
    They are kept as a list because the polling loop of [main] reads the
    record while the worker is still running. *)
Inductive write :=
| WTimeUsec (q : Q)
| WTimeSec (q : Q)
| WStatus (s : Z)
| WResult (r : Z).

Definition apply_write (fd : filedata) (w : write) : filedata :=
  match w with
  | WTimeUsec q =>
      {| input_name := input_name fd; output_name := output_name fd;
         size := size fd; time_usec := q; time_sec := time_sec fd;
         result := result fd; status := status fd; verify := verify fd |}
  | WTimeSec q =>
      {| input_name := input_name fd; output_name := output_name fd;
         size := size fd; time_usec := time_usec fd; time_sec := q;
         result := result fd; status := status fd; verify := verify fd |}
  | WStatus s =>
      {| input_name := input_name fd; output_name := output_name fd;
         size := size fd; time_usec := time_usec fd; time_sec := time_sec fd;
         result := result fd; status := s; verify := verify fd |}
  | WResult r =>
      {| input_name := input_name fd; output_name := output_name fd;
         size := size fd; time_usec := time_usec fd; time_sec := time_sec fd;
         result := r; status := status fd; verify := verify fd |}
  end.

Definition apply_writes (fd : filedata) (ws : list write) : filedata :=
  fold_left apply_write ws fd.

(** ** [copyFile] *)

(** What the calls of one worker meet: the four [fopen]s in program
    order (two for the copy, two for the verification) and the clock.
    The streams of the verification are independent of what the copy
    wrote: other tasks and other processes use the same file system.
    [clock_t1] is the reading at the start of the worker; [clock_t2] is
    the time at which the worker exits, read by the worker on the path
    that calls [gettimeofday] a second time. *)
Record worker_env := {
  open_in : option source;
  open_out : option sink;
  reopen_in : option source;
  reopen_out : option source;
  clock_t1 : timeval;
  clock_t2 : timeval
}.

Inductive loop_exit :=
| LoopEnd                (* the [while] condition failed, or [break] *)
| LoopFail (code : Z)    (* one of the [pthread_exit] branches *)
| LoopFuel.              (* the bound on the iterations was reached *)

(** The copy loop, lines 396 to 419.  [calls] counts the calls of
    [fwrite]. *)
Fixpoint copy_loop (fuel : nat) (infile : rfile) (outfile : wfile) (calls : nat)
  : loop_exit * wfile * nat :=
  match fuel with
  | O => (LoopFuel, outfile, calls)
  | S fuel' =>
      if feof infile then (LoopEnd, outfile, calls)
      else
        let (ibuffer, infile') := fread BLOCKSIZE infile in
        let bytes_read := Z.of_nat (length ibuffer) in
        if bytes_read <=? 0 then
          if feof infile' then (LoopEnd, outfile, calls)
          else (LoopFail READ_ERROR, outfile, calls)
        else
          let bytes_write := bytes_read in
          let (written, outfile') := fwrite ibuffer outfile in
          if negb (Z.of_nat written =? bytes_write) then
            (LoopFail WRITE_ERROR, outfile', S calls)
          else copy_loop fuel' infile' outfile' (S calls)
  end.

(** The comparison of the two buffers, lines 467 to 479: [true] when
    some position below [bytes_read] differs. *)
Fixpoint buffers_differ (ibuffer obuffer : list byte) : bool :=
  match ibuffer, obuffer with
  | i :: ibuffer', o :: obuffer' =>
      if Byte.eqb i o then buffers_differ ibuffer' obuffer' else true
  | _, _ => false
  end.

(** The verification loop, lines 444 to 480. *)
Fixpoint verify_loop (fuel : nat) (infile outfile : rfile) : loop_exit :=
  match fuel with
  | O => LoopFuel
  | S fuel' =>
      if feof infile then LoopEnd
      else
        let (ibuffer, infile') := fread BLOCKSIZE infile in
        let bytes_read := length ibuffer in
        if Z.of_nat bytes_read <=? 0 then
          if feof infile' then LoopEnd else LoopFail READ_ERROR
        else
          let (obuffer, outfile') := fread bytes_read outfile in
          if negb (length obuffer =? bytes_read)%nat then LoopFail READ_ERROR
          else if buffers_differ ibuffer obuffer then LoopFail VERIFY_ERROR
          else verify_loop fuel' infile' outfile'
  end.

(** A bound on the iterations of either loop over a stream: every
    iteration but the last two consumes a block. *)
Definition loop_bound (s : source) : nat := S (S (length (src_data s))).

Record worker_run := {
  writes : list write;     (* the assignments to the record, in order *)
  fwrite_calls : nat;      (* how often [fwrite] was called *)
  written : list byte      (* what the output stream accepted *)
}.

(** "Reset time." *)
Definition reset_time : list write := [WTimeUsec 0%Q; WTimeSec 0%Q].

(** The two assignments before every [pthread_exit] of an error path. *)
Definition exit_with (r : Z) : list write := [WStatus TS_DONE; WResult r].

(** The end of the function, lines 485 to 493. *)
Definition exit_ok (t1 t2 : timeval) : list write :=
  [WStatus TS_DONE; WResult EXIT_OK;
   WTimeUsec ((tv_usec t2 - tv_usec t1) # 1000000);
   WTimeSec (inject_Z (tv_sec t2 - tv_sec t1))].

(** The body of the worker.  The two [LoopFuel] branches stand for a
    worker that never leaves a loop; [copy_loop_ends] and
    [verify_loop_ends] below show that they are never taken. *)
Definition copyFile (e : worker_env) (fdata : filedata) : worker_run :=
  let done ws calls out :=
    {| writes := reset_time ++ ws; fwrite_calls := calls; written := out |} in
  match open_in e with
  | None => done (exit_with READ_ERROR) O []
  | Some isrc =>
  match open_out e with
  | None => done (exit_with WRITE_ERROR) O []
  | Some osnk =>
  match copy_loop (loop_bound isrc) (fopen_r isrc) (fopen_w osnk) O with
  | (LoopFuel, outfile', calls) => done [] calls (w_data outfile')
  | (LoopFail r, outfile', calls) => done (exit_with r) calls (w_data outfile')
  | (LoopEnd, outfile', calls) =>
      if verify fdata then
        match reopen_in e with
        | None => done (exit_with READ_ERROR) calls (w_data outfile')
        | Some vsrc =>
        match reopen_out e with
        | None => done (exit_with READ_ERROR) calls (w_data outfile')
        | Some vout =>
        match verify_loop (loop_bound vsrc) (fopen_r vsrc) (fopen_r vout) with
        | LoopFuel => done [] calls (w_data outfile')
        | LoopFail r => done (exit_with r) calls (w_data outfile')
        | LoopEnd => done (exit_ok (clock_t1 e) (clock_t2 e)) calls (w_data outfile')
        end end end
      else done (exit_ok (clock_t1 e) (clock_t2 e)) calls (w_data outfile')
  end end end.

(** The record as the worker leaves it. *)
Definition worker_final (e : worker_env) (fdata : filedata) : filedata :=
  apply_writes fdata (writes (copyFile e fdata)).

(** The duration the two fields of a record stand for, as [main] prints
    it, and the duration between two clock readings. *)
Definition elapsed (fd : filedata) : Q := (time_sec fd + time_usec fd)%Q.

Definition duration (t1 t2 : timeval) : Q :=
  (inject_Z (tv_sec t2 - tv_sec t1) + ((tv_usec t2 - tv_usec t1) # 1000000))%Q.

(** ** [main]: options and sanity checks *)

(** The successive results of [getopt (argc, argv, "dhi:o:qv")], up to
    the final -1. *)
Inductive opt :=
| Opt_d
| Opt_h
| Opt_i (optarg : string)
| Opt_o (optarg : string)
| Opt_q
| Opt_v
| Opt_unknown.

Record invocation := { argc : Z; options : list opt }.

Record flags := {
  dflag : bool;
  hflag : bool;
  iflag : bool;
  oflag : bool;
  qflag : bool;
  vflag : bool;
  ivalue : string;
  ovalue : string
}.

Definition flags_init : flags :=
  {| dflag := false; hflag := false; iflag := false; oflag := false;
     qflag := false; vflag := false; ivalue := "i"; ovalue := "o" |}.

Definition set_opt (fl : flags) (o : opt) : option flags :=
  match o with
  | Opt_d => Some {| dflag := true; hflag := hflag fl; iflag := iflag fl;
                     oflag := oflag fl; qflag := qflag fl; vflag := vflag fl;
                     ivalue := ivalue fl; ovalue := ovalue fl |}
  | Opt_h => Some {| dflag := dflag fl; hflag := true; iflag := iflag fl;
                     oflag := oflag fl; qflag := qflag fl; vflag := vflag fl;
                     ivalue := ivalue fl; ovalue := ovalue fl |}
  | Opt_i a => Some {| dflag := dflag fl; hflag := hflag fl; iflag := true;
                       oflag := oflag fl; qflag := qflag fl; vflag := vflag fl;
                       ivalue := a; ovalue := ovalue fl |}
  | Opt_o a => Some {| dflag := dflag fl; hflag := hflag fl; iflag := iflag fl;
                       oflag := true; qflag := qflag fl; vflag := vflag fl;
                       ivalue := ivalue fl; ovalue := a |}
  | Opt_q => Some {| dflag := dflag fl; hflag := hflag fl; iflag := iflag fl;
                     oflag := oflag fl; qflag := true; vflag := vflag fl;
                     ivalue := ivalue fl; ovalue := ovalue fl |}
  | Opt_v => Some {| dflag := dflag fl; hflag := hflag fl; iflag := iflag fl;
                     oflag := oflag fl; qflag := qflag fl; vflag := true;
                     ivalue := ivalue fl; ovalue := ovalue fl |}
  | Opt_unknown => None
  end.

(** The [while] loop over [getopt]; [None] is the [exit (ARG_ERROR)] of
    the [default:] case. *)
Fixpoint getopt_loop (os : list opt) (fl : flags) : option flags :=
  match os with
  | [] => Some fl
  | o :: os' =>
      match set_opt fl o with
      | None => None
      | Some fl' => getopt_loop os' fl'
      end
  end.

Definition strcmp (a b : string) : Z :=
  match String.compare a b with
  | Eq => 0
  | Lt => -1
  | Gt => 1
  end.

(** The command line seen from outside: whether [-h] is among the
    options, and the arguments of the last [-i] and of the last [-o],
    with the initial values of [ivalue] and [ovalue] when there is none. *)
Definition is_help (o : opt) : bool :=
  match o with
  | Opt_h => true
  | _ => false
  end.

Definition help_requested (inv : invocation) : bool := existsb is_help (options inv).

Fixpoint last_i (os : list opt) (d : string) : string :=
  match os with
  | [] => d
  | Opt_i a :: os' => last_i os' a
  | _ :: os' => last_i os' d
  end.

Fixpoint last_o (os : list opt) (d : string) : string :=
  match os with
  | [] => d
  | Opt_o a :: os' => last_o os' a
  | _ :: os' => last_o os' d
  end.

Definition i_argument (inv : invocation) : string := last_i (options inv) "i".

Definition o_argument (inv : invocation) : string := last_o (options inv) "o".

(** What the process does that the properties below speak about. *)
Inductive event :=
| Tokenized (numf : Z)                 (* a call of [get_filenames] *)
| Probed (i : nat) (found : bool)      (* the [fopen] of the validation *)
| Setrlimit (cur : Z)
| Created (i : nat) (t_result : Z)     (* [fdata[i]] filled in, [pthread_create] called *)
| Reaped (i : nat) (r : Z) (cmd_result : Z).
                                       (* task [i] found done with result [r];
                                          [cmd_result] after the branch *)

(** The first part of [main], up to the comparison of the two counts:
    either the process exits there, or the rest of [main] runs with the
    flags, the count and the two tables. *)
Inductive startup_result :=
| Stop (code : Z) (tr : list event)
| Proceed (fl : flags) (numf : Z) (ifiles ofiles : table) (tr : list event).

Definition startup (inv : invocation) : startup_result :=
  match getopt_loop (options inv) flags_init with
  | None => Stop ARG_ERROR []
  | Some fl =>
      if argc inv =? 1 then Stop ARG_ERROR []
      else if hflag fl then Stop EXIT_OK []
      else if strcmp (ivalue fl) (ovalue fl) =? 0 then Stop ARG_ERROR []
      else
        let (inumf, ifiles) := get_filenames (ivalue fl) [] in
        let (onumf, ofiles) := get_filenames (ovalue fl) [] in
        let tr := [Tokenized inumf; Tokenized onumf] in
        if negb (inumf =? onumf) then Stop ARG_ERROR tr
        else Proceed fl inumf ifiles ofiles tr
  end.

(** ** [main]: validation, descriptor limit, dispatch, polling *)

(** The surroundings of a run.
    - [probe name] is the [fopen (name, "r")] of the validation loop:
      [None] when the file cannot be opened.
    - [rlim_cur] and [rlim_max] are the limits [getrlimit] reports.
    - [create i] is the value of [pthread_create] for task [i].
    - [worker i] is what the worker of task [i] meets.
    - [early] and [polls] are the schedule.  Worker [i] completes
      [early i] of its assignments before [main] stores [TS_RUNNING]
      into its record.  Every element of [polls] describes one pass of
      the polling loop: for task [i] the number of assignments its
      worker completes before the pass reads [fdata[i].status], and the
      number it completes between that read and the read of
      [fdata[i].result].  After the passes of [polls] every worker runs
      to its end. *)
Record environment := {
  probe : string -> option source;
  rlim_cur : Z;
  rlim_max : Z;
  create : nat -> Z;
  worker : nat -> worker_env;
  early : nat -> nat;
  polls : list (nat -> nat * nat)
}.

(** [fseek] to the end, [ftell], [fseek] back, for a stream that can be
    sought: the length of the file.  The function checks neither call;
    on a stream that cannot be sought (a pipe) [ftell] fails and the
    value is not a length.  The value goes to [sfiles] and from there
    to the [size] field of the record; no branch depends on it. *)
Definition check_file_size (fp : rfile) : Z := Z.of_nat (length (r_data fp)).

(** The loop "Mark missing files and store size". *)
Fixpoint validate (n i : nat) (probe : string -> option source)
    (ifiles ofiles : table) (sfiles : list Z)
  : table * table * list Z * list event :=
  match n with
  | O => (ifiles, ofiles, sfiles, [])
  | S n' =>
      match probe (row ifiles i) with
      | None =>
          let '(ifiles', ofiles', sfiles', tr) :=
            validate n' (S i) probe
              (store_row ifiles i EmptyString) (store_row ofiles i EmptyString)
              (store 0 sfiles i 0) in
          (ifiles', ofiles', sfiles', Probed i false :: tr)
      | Some infile =>
          let '(ifiles', ofiles', sfiles', tr) :=
            validate n' (S i) probe ifiles ofiles
              (store 0 sfiles i (check_file_size (fopen_r infile))) in
          (ifiles', ofiles', sfiles', Probed i true :: tr)
      end
  end.

(** One entry of [fdata] together with the assignments its worker has
    not made yet. *)
Record cell := { fd : filedata; pend : list write }.

Definition set_status (c : cell) (s : Z) : cell :=
  {| fd := apply_write (fd c) (WStatus s); pend := pend c |}.

(** The worker of the cell makes its next [n] assignments. *)
Definition advance (n : nat) (c : cell) : cell :=
  {| fd := apply_writes (fd c) (firstn n (pend c)); pend := skipn n (pend c) |}.

(** The worker of the cell runs to its end. *)
Definition finish (c : cell) : cell :=
  {| fd := apply_writes (fd c) (pend c); pend := [] |}.

(** The fields [main] fills in before it creates the worker. *)
Definition task_record (ifiles ofiles : table) (sfiles : list Z) (vflag : bool)
    (i : nat) : filedata :=
  {| input_name := strncpy (row ifiles i) PATH_MAX;
     output_name := strncpy (row ofiles i) PATH_MAX;
     size := nth i sfiles 0;
     time_usec := 0%Q; time_sec := 0%Q; result := 0; status := 0;
     verify := vflag |}.

Definition is_empty (s : string) : bool :=
  match s with
  | EmptyString => true
  | String _ _ => false
  end.

(** The loop "Start processing file copy threads": the entries of
    [fdata] from index [i] on, [bnumf] and the events. *)
Fixpoint dispatch (n i : nat) (env : environment) (ifiles ofiles : table)
    (sfiles : list Z) (vflag : bool) (bnumf : Z)
  : list cell * Z * list event :=
  match n with
  | O => ([], bnumf, [])
  | S n' =>
      if is_empty (row ifiles i) then
        let '(rest, b, tr) :=
          dispatch n' (S i) env ifiles ofiles sfiles vflag (bnumf + 1) in
        ({| fd := filedata_zero; pend := [] |} :: rest, b, tr)
      else
        let fdata_i := task_record ifiles ofiles sfiles vflag i in
        let t_result := create env i in
        if negb (t_result =? 0) then
          let '(rest, b, tr) :=
            dispatch n' (S i) env ifiles ofiles sfiles vflag (bnumf + 1) in
          ({| fd := fdata_i; pend := [] |} :: rest, b, Created i t_result :: tr)
        else
          let started :=
            advance (early env i)
              {| fd := fdata_i;
                 pend := writes (copyFile (worker env i) fdata_i) |} in
          let '(rest, b, tr) :=
            dispatch n' (S i) env ifiles ofiles sfiles vflag bnumf in
          (set_status started TS_RUNNING :: rest, b, Created i t_result :: tr)
  end.

(** One pass of the [for] loop inside the polling loop, from index [i]
    on: the entries afterwards, [t_run], [cmd_result] and the events. *)
Fixpoint scan (d : nat -> nat * nat) (ifiles : table) (i : nat)
    (fdata : list cell) (t_run cmd_result : Z)
  : list cell * Z * Z * list event :=
  match fdata with
  | [] => ([], t_run, cmd_result, [])
  | c :: rest =>
      let c1 := advance (fst (d i)) c in
      if status (fd c1) =? TS_RUNNING then
        let '(rest', t, cmd, tr) := scan d ifiles (S i) rest (t_run + 1) cmd_result in
        (c1 :: rest', t, cmd, tr)
      else if is_empty (row ifiles i) then
        let '(rest', t, cmd, tr) := scan d ifiles (S i) rest t_run cmd_result in
        (c1 :: rest', t, cmd, tr)
      else if status (fd c1) =? TS_DONE then
        let c2 := advance (snd (d i)) c1 in
        let r := result (fd c2) in
        let cmd_result' := if r =? EXIT_OK then cmd_result else r in
        let '(rest', t, cmd, tr) := scan d ifiles (S i) rest t_run cmd_result' in
        (set_status c2 TS_CHECKED :: rest', t, cmd, Reaped i r cmd_result' :: tr)
      else
        let '(rest', t, cmd, tr) := scan d ifiles (S i) rest t_run cmd_result in
        (c1 :: rest', t, cmd, tr)
  end.

Inductive outcome :=
| Exit (code : Z)   (* the process ends with this code *)
| Hang.             (* the polling loop never ends *)

(** The polling loop.  When the schedule is used up the workers have
    run to their ends; a record that is still [TS_RUNNING] then stays so
    for ever, and so does the loop. *)
Fixpoint poll (ps : list (nat -> nat * nat)) (ifiles : table)
    (fdata : list cell) (cmd_result : Z)
  : outcome * list cell * list event :=
  match ps with
  | d :: ps' =>
      let '(fdata', t_run, cmd, tr) := scan d ifiles O fdata 0 cmd_result in
      if t_run =? 0 then (Exit cmd, fdata', tr)
      else
        let '(o, fdata'', tr') := poll ps' ifiles fdata' cmd in
        (o, fdata'', tr ++ tr')
  | [] =>
      let '(fdata', t_run, cmd, tr) :=
        scan (fun _ => (O, O)) ifiles O (map finish fdata) 0 cmd_result in
      if t_run =? 0 then (Exit cmd, fdata', tr) else (Hang, fdata', tr)
  end.

Record run := {
  outcome_of : outcome;
  trace : list event;
  ifiles_of : table;
  ofiles_of : table;
  fdata_of : list cell
}.

(** The rest of [main] after the two counts were found equal. *)
Definition process (fl : flags) (inumf : Z) (ifiles ofiles : table)
    (env : environment) : run :=
  let onumf := inumf in
  let '(ifiles1, ofiles1, sfiles, tr1) :=
    validate (Z.to_nat inumf) O (probe env) ifiles ofiles [] in
  let of_max := inumf + onumf in
  let limit_low := rlim_cur env <? of_max in
  if limit_low && (of_max >? rlim_max env) then
    {| outcome_of := Exit READ_ERROR; trace := tr1;
       ifiles_of := ifiles1; ofiles_of := ofiles1; fdata_of := [] |}
  else
    let tr2 := if limit_low then [Setrlimit of_max] else [] in
    let '(fdata, bnumf, tr3) :=
      dispatch (Z.to_nat inumf) O env ifiles1 ofiles1 sfiles (vflag fl) 0 in
    let '(o, fdata', tr4) := poll (polls env) ifiles1 fdata 0 in
    {| outcome_of := o; trace := tr1 ++ tr2 ++ tr3 ++ tr4;
       ifiles_of := ifiles1; ofiles_of := ofiles1; fdata_of := fdata' |}.

Definition main (inv : invocation) (env : environment) : run :=
  match startup inv with
  | Stop code tr =>
      {| outcome_of := Exit code; trace := tr;
         ifiles_of := []; ofiles_of := []; fdata_of := [] |}
  | Proceed fl inumf ifiles ofiles tr =>
      let r := process fl inumf ifiles ofiles env in
      {| outcome_of := outcome_of r; trace := tr ++ trace r;
         ifiles_of := ifiles_of r; ofiles_of := ofiles_of r;
         fdata_of := fdata_of r |}
  end.

(** ** Notions used by the statements *)

(** The results the polling loop read from finished tasks, in the order
    in which it read them. *)
Fixpoint reaped (tr : list event) : list Z :=
  match tr with
  | [] => []
  | Reaped _ r _ :: tr' => r :: reaped tr'
  | _ :: tr' => reaped tr'
  end.




(** Worker [i] stores [TS_DONE] before [main] has stored [TS_RUNNING]
    into the same field. *)
Definition publishes_early (env : environment) (i : nat) (fdata : filedata) : Prop :=
  In (WStatus TS_DONE) (firstn (early env i) (writes (copyFile (worker env i) fdata))).

(** The descriptor limit does not stop the run. *)
Definition limit_reachable (env : environment) (inumf : Z) : bool :=
  negb ((rlim_cur env <? inumf + inumf) && (inumf + inumf >? rlim_max env)).


(** Three conditions on an entry of [fdata]: its status is not
    [TS_RUNNING] once the worker is through; the worker is through and
    the status is not [TS_RUNNING]; no failure is stored or on its way. *)
Definition settles (c : cell) : Prop :=
  status (apply_writes (fd c) (pend c)) <> TS_RUNNING.

Definition idle (c : cell) : Prop :=
  pend c = [] /\ status (fd c) <> TS_RUNNING.

Definition clean (c : cell) : Prop :=
  result (fd c) = EXIT_OK /\ forall r, In (WResult r) (pend c) -> r = EXIT_OK.

(** ** Files and runs used as examples *)

Definition empty_file : source := {| src_data := []; src_end := AtEOF |}.

Definition file_of (data : list byte) : source :=
  {| src_data := data; src_end := AtEOF |}.

Definition no_limit : sink := {| snk_room := None |}.

(** A record as [main] fills it in, for a pair of one-letter names. *)
Definition fdata_ab (vflag : bool) : filedata :=
  task_record ["a"] ["b"] [1] vflag O.

(** A worker whose input does not open; it exits three seconds after
    its start. *)
Definition env_no_input : worker_env :=
  {| open_in := None; open_out := Some no_limit;
     reopen_in := None; reopen_out := None;
     clock_t1 := {| tv_sec := 100; tv_usec := 0 |};
     clock_t2 := {| tv_sec := 103; tv_usec := 0 |} |}.

(** A worker that copies an empty file. *)
Definition env_empty : worker_env :=
  {| open_in := Some empty_file; open_out := Some no_limit;
     reopen_in := Some empty_file; reopen_out := Some empty_file;
     clock_t1 := {| tv_sec := 100; tv_usec := 0 |};
     clock_t2 := {| tv_sec := 100; tv_usec := 250 |} |}.

(** A worker that copies the one byte "a" and, when it verifies, finds
    the two bytes "ab" in the output file: something else wrote to the
    file after the worker closed it. *)
Definition env_longer_output : worker_env :=
  {| open_in := Some (file_of [x61]); open_out := Some no_limit;
     reopen_in := Some (file_of [x61]);
     reopen_out := Some (file_of [x61; x62]);
     clock_t1 := {| tv_sec := 100; tv_usec := 0 |};
     clock_t2 := {| tv_sec := 100; tv_usec := 250 |} |}.

(** A worker that copies the one byte "a". *)
Definition env_copy : worker_env :=
  {| open_in := Some (file_of [x61]); open_out := Some no_limit;
     reopen_in := Some (file_of [x61]); reopen_out := Some (file_of [x61]);
     clock_t1 := {| tv_sec := 100; tv_usec := 0 |};
     clock_t2 := {| tv_sec := 100; tv_usec := 250 |} |}.

(** [threadcopy -i "a|b|c" -o "x|y|z"], for which [get_filenames]
    returns 2, and the same with two equal arguments, and with lists of
    different lengths. *)
Definition inv_three : invocation :=
  {| argc := 5; options := [Opt_i "a|b|c"; Opt_o "x|y|z"] |}.

Definition inv_same : invocation :=
  {| argc := 5; options := [Opt_i "a|b"; Opt_o "a|b"] |}.

Definition inv_uneven : invocation :=
  {| argc := 5; options := [Opt_i "a|b|c|d"; Opt_o "x|y|z"] |}.

(** [threadcopy -h -i a -o a]. *)
Definition inv_help : invocation :=
  {| argc := 6; options := [Opt_h; Opt_i "a"; Opt_o "a"] |}.

(** Surroundings in which the file "b" is missing and every other file
    opens, every thread starts, every copy succeeds, and every worker
    makes all its assignments only after the passes of the schedule. *)
Definition env_b_missing : environment :=
  {| probe := fun name => if String.eqb name "b" then None else Some (file_of [x61]);
     rlim_cur := 1024; rlim_max := 4096;
     create := fun _ => 0;
     worker := fun _ => env_copy;
     early := fun _ => O;
     polls := [fun _ => (O, O)] |}.

(** The same with a hard limit of three descriptors. *)
Definition env_low_limit : environment :=
  {| probe := fun _ => Some (file_of [x61]);
     rlim_cur := 3; rlim_max := 3;
     create := fun _ => 0;
     worker := fun _ => env_copy;
     early := fun _ => O;
     polls := [] |}.

(** Surroundings in which the worker of the single task "a" cannot open
    its input any more, and in which the first pass of the polling loop
    reads the status right after the worker has stored [TS_DONE] (its
    third assignment) and before it stores the result. *)
Definition env_stale_result : environment :=
  {| probe := fun _ => Some (file_of [x61]);
     rlim_cur := 1024; rlim_max := 4096;
     create := fun _ => 0;
     worker := fun _ => env_no_input;
     early := fun _ => O;
     polls := [fun _ => (3%nat, O)] |}.

Definition inv_single : invocation :=
  {| argc := 5; options := [Opt_i "a"; Opt_o "x"] |}.

(** The flags after [-i i -o o]. *)
Definition copy_flags (i o : string) : flags :=
  {| dflag := false; hflag := false; iflag := true; oflag := true;
     qflag := false; vflag := false; ivalue := i; ovalue := o |}.

(** A worker whose output file cannot be created. *)
Definition env_no_output : worker_env :=
  {| open_in := Some (file_of [x61]); open_out := None;
     reopen_in := None; reopen_out := None;
     clock_t1 := {| tv_sec := 100; tv_usec := 0 |};
     clock_t2 := {| tv_sec := 100; tv_usec := 250 |} |}.

(** Surroundings in which task 0 succeeds and task 1 cannot create its
    output file. *)
Definition env_second_fails : environment :=
  {| probe := fun _ => Some (file_of [x61]);
     rlim_cur := 1024; rlim_max := 4096;
     create := fun _ => 0;
     worker := fun j => match j with 1%nat => env_no_output | _ => env_copy end;
     early := fun _ => O;
     polls := [fun _ => (O, O)] |}.

(** Surroundings in which the worker of the single task is through
    before [main] stores [TS_RUNNING] into its record. *)
Definition env_early_done : environment :=
  {| probe := fun _ => Some (file_of [x61]);
     rlim_cur := 1024; rlim_max := 4096;
     create := fun _ => 0;
     worker := fun _ => env_copy;
     early := fun _ => 6%nat;
     polls := [fun _ => (O, O); fun _ => (O, O)] |}.

(** [threadcopy -i "a|b" -o "x|y"], two names on either side, and
    [threadcopy -i "a|b" -o "x"], two names against one. *)
Definition inv_pair : invocation :=
  {| argc := 5; options := [Opt_i "a|b"; Opt_o "x|y"] |}.

Definition inv_two_one : invocation :=
  {| argc := 5; options := [Opt_i "a|b"; Opt_o "x"] |}.

(** Surroundings in which every file opens, every thread starts and
    every copy succeeds, the workers making their assignments after the
    pass of the schedule. *)
Definition env_all_open : environment :=
  {| probe := fun _ => Some (file_of [x61]);
     rlim_cur := 1024; rlim_max := 4096;
     create := fun _ => 0;
     worker := fun _ => env_copy;
     early := fun _ => O;
     polls := [fun _ => (O, O)] |}.

(** Surroundings in which task 0 succeeds and task 1 cannot create its
    output file.  When the one pass of the schedule comes to task 0 its
    worker is through; when it comes to task 1 the worker has made three
    assignments, the last of them [status = TS_DONE], and makes no other
    before the pass has read the result. *)
Definition env_result_unseen : environment :=
  {| probe := fun _ => Some (file_of [x61]);
     rlim_cur := 1024; rlim_max := 4096;
     create := fun _ => 0;
     worker := fun j => match j with 1%nat => env_no_output | _ => env_copy end;
     early := fun _ => O;
     polls := [fun j => match j with 1%nat => (3%nat, O) | _ => (6%nat, O) end] |}.

(** Surroundings in which every copy succeeds and the worker of task 0
    is through before [main] stores [TS_RUNNING] into its record. *)
Definition env_first_early : environment :=
  {| probe := fun _ => Some (file_of [x61]);
     rlim_cur := 1024; rlim_max := 4096;
     create := fun _ => 0;
     worker := fun _ => env_copy;
     early := fun j => match j with O => 6%nat | _ => O end;
     polls := [fun _ => (6%nat, O); fun _ => (O, O)] |}.

(** The same with the file "b" missing. *)
Definition env_b_missing_early : environment :=
  {| probe := fun name => if String.eqb name "b" then None else Some (file_of [x61]);
     rlim_cur := 1024; rlim_max := 4096;
     create := fun _ => 0;
     worker := fun _ => env_copy;
     early := fun j => match j with O => 6%nat | _ => O end;
     polls := [fun _ => (6%nat, O); fun _ => (O, O)] |}.

(** ** Notions used by the further properties *)

(** A file name that can be an entry of a list: not empty, and without
    the delimiter. *)
Definition valid_name (s : string) : bool :=
  negb (is_empty s) &&
  forallb (fun c => negb (is_delim DELIMITER c)) (list_ascii_of_string s).

(** The argument that lists the names of [l]. *)
Fixpoint join (l : list string) : string :=
  match l with
  | [] => EmptyString
  | a :: l' =>
      match l' with
      | [] => a
      | _ :: _ => String.append a (String.append DELIMITER (join l'))
      end
  end.

(** The argument ["a|a|...a|"] with [n] entries. *)
Fixpoint many (n : nat) : string :=
  match n with
  | O => EmptyString
  | S n' => String "a" (String "|" (many n'))
  end.

(** A file whose reads fail after its content. *)
Definition faulty_file (data : list byte) : source :=
  {| src_data := data; src_end := AtFault |}.

(** Workers for the further properties: one whose input fails after
    "ab"; one that verifies "ab" against "ax"; one that verifies "ab"
    against "a"; one that copies "ab" and reads back what it wrote. *)
Definition env_read_fault : worker_env :=
  {| open_in := Some (faulty_file [x61; x62]); open_out := Some no_limit;
     reopen_in := None; reopen_out := None;
     clock_t1 := {| tv_sec := 100; tv_usec := 0 |};
     clock_t2 := {| tv_sec := 100; tv_usec := 250 |} |}.

Definition env_differs : worker_env :=
  {| open_in := Some (file_of [x61; x62]); open_out := Some no_limit;
     reopen_in := Some (file_of [x61; x62]);
     reopen_out := Some (file_of [x61; x78]);
     clock_t1 := {| tv_sec := 100; tv_usec := 0 |};
     clock_t2 := {| tv_sec := 100; tv_usec := 250 |} |}.

Definition env_shorter_output : worker_env :=
  {| open_in := Some (file_of [x61; x62]); open_out := Some no_limit;
     reopen_in := Some (file_of [x61; x62]);
     reopen_out := Some (file_of [x61]);
     clock_t1 := {| tv_sec := 100; tv_usec := 0 |};
     clock_t2 := {| tv_sec := 100; tv_usec := 250 |} |}.

Definition env_quiet : worker_env :=
  {| open_in := Some (file_of [x61; x62]); open_out := Some no_limit;
     reopen_in := Some (file_of [x61; x62]);
     reopen_out := Some (file_of [x61; x62]);
     clock_t1 := {| tv_sec := 100; tv_usec := 0 |};
     clock_t2 := {| tv_sec := 100; tv_usec := 250 |} |}.

(** An empty command line, a command line with an option that [getopt]
    does not know, and surroundings with a soft limit of three
    descriptors below a hard limit of 4096. *)
Definition inv_empty : invocation := {| argc := 1; options := [] |}.

Definition inv_unknown : invocation :=
  {| argc := 4; options := [Opt_i "a"; Opt_unknown; Opt_o "b"] |}.

Definition env_raise : environment :=
  {| probe := fun _ => Some (file_of [x61]);
     rlim_cur := 3; rlim_max := 4096;
     create := fun _ => 0;
     worker := fun _ => env_copy;
     early := fun _ => O;
     polls := [] |}.

(** Every result stored in an entry of [fdata] or on its way there
    satisfies [P]. *)
Definition results_in (P : Z -> Prop) (c : cell) : Prop :=
  P (result (fd c)) /\ forall r, In (WResult r) (pend c) -> P r.

(** The values [main] and the workers use as exit codes and results. *)
Definition is_exit_code (c : Z) : Prop :=
  c = EXIT_OK \/ c = READ_ERROR \/ c = WRITE_ERROR \/ c = VERIFY_ERROR \/ c = ARG_ERROR.

(** ** Notions for the bookkeeping of the polling loop *)

(** How often the polling loop went through its [TS_DONE] branch for
    task [j]. *)
Fixpoint count_reaped (j : nat) (tr : list event) : nat :=
  match tr with
  | [] => O
  | Reaped i _ _ :: tr' => ((if Nat.eqb i j then 1 else 0) + count_reaped j tr')%nat
  | _ :: tr' => count_reaped j tr'
  end.

Definition stores_status (w : write) : bool :=
  match w with
  | WStatus _ => true
  | _ => false
  end.

(** The number of assignments to the status among [ws]. *)
Definition status_stores (ws : list write) : nat := length (filter stores_status ws).

(** An entry whose worker was created: the worker stores nothing but
    [TS_DONE] into the status, at most once while the entry is
    [TS_RUNNING] and never again once it is [TS_DONE] or [TS_CHECKED]. *)
Definition live (c : cell) : Prop :=
  (forall s, In (WStatus s) (pend c) -> s = TS_DONE) /\
  ((status (fd c) = TS_RUNNING /\ (status_stores (pend c) <= 1)%nat) \/
   ((status (fd c) = TS_DONE \/ status (fd c) = TS_CHECKED) /\
    status_stores (pend c) = O)).

(** An entry without a worker, as the [memset] left its status. *)
Definition inert (c : cell) : Prop := status (fd c) = TS_INIT /\ pend c = [].

Definition checked (c : cell) : bool := status (fd c) =? TS_CHECKED.

Definition no_cell : cell := {| fd := filedata_zero; pend := [] |}.

(** [fdata[j]]. *)
Definition entry (fdata : list cell) (j : nat) : cell := nth j fdata no_cell.

(** Task [j] gets a worker: its row is not cleared and
    [pthread_create] returns 0. *)
Definition started (env : environment) (ifiles : table) (j : nat) : bool :=
  negb (is_empty (row ifiles j)) && (create env j =? 0).

(** One pass of the polling loop at entry [j], whose status the loop
    reads as that of [c1]: whether the [TS_DONE] branch is taken, and the
    entry after the pass. *)
Definition reaps (ifiles : table) (j : nat) (c1 : cell) : bool :=
  negb (is_empty (row ifiles j)) && (status (fd c1) =? TS_DONE).

Definition pass_cell (d : nat -> nat * nat) (ifiles : table) (j : nat) (c : cell) : cell :=
  let c1 := advance (fst (d j)) c in
  if reaps ifiles j c1 then set_status (advance (snd (d j)) c1) TS_CHECKED else c1.

(** Surroundings in which the thread of task 0 cannot be created. *)
Definition env_no_thread : environment :=
  {| probe := fun _ => Some (file_of [x61]);
     rlim_cur := 1024; rlim_max := 4096;
     create := fun j => match j with O => 11 | _ => 0 end;
     worker := fun _ => env_copy;
     early := fun _ => O;
     polls := [fun _ => (O, O)] |}.

(** The two names and the verify flag of a record: [main] fills them
    in, and neither the worker nor the polling loop assigns them. *)
Definition task_fields (f : filedata) : string * string * bool :=
  (input_name f, output_name f, verify f).

(** [threadcopy -v]. *)
Definition inv_only_v : invocation := {| argc := 2; options := [Opt_v] |}.

(** [threadcopy -i a -o x -v -i "b|c" -o "y|z"]. *)
Definition inv_twice : invocation :=
  {| argc := 10;
     options := [Opt_i "a"; Opt_o "x"; Opt_v; Opt_i "b|c"; Opt_o "y|z"] |}.

(** * Properties *)

(** ** Arrays *)

Lemma nth_store_same {A : Type} (d : A) (l : list A) (i : nat) (x : A) :
  nth i (store d l i x) d = x.
Proof.
  revert l; induction i as [|i IH]; intros [|y l]; simpl; auto.
Qed.

Lemma nth_store_other {A : Type} (d : A) (l : list A) (i j : nat) (x : A) :
  i <> j -> nth j (store d l i x) d = nth j l d.
Proof.
  revert l j; induction i as [|i IH]; intros [|y l] [|j] Hne; simpl; auto;
    try congruence.
  - destruct j; reflexivity.
  - rewrite IH by congruence. destruct j; reflexivity.
Qed.

Lemma store_at_end {A : Type} (d : A) (l : list A) (x : A) :
  store d l (length l) x = l ++ [x].
Proof.
  induction l as [|y l IH]; simpl; [reflexivity | now rewrite IH].
Qed.

(** ** The tokenizer *)

Example get_filenames_two :
  get_filenames "a|b" [] = (1, ["a"; "b"]).
Proof. vm_compute. reflexivity. Qed.

Example get_filenames_trailing_delimiter :
  get_filenames "a|" [] = (0, ["a"]).
Proof. vm_compute. reflexivity. Qed.

Example tokens_two : tokens "a|b|cc||d" = ["a"; "b"; "cc"; "d"].
Proof. vm_compute. reflexivity. Qed.

(** The loop stores the tokens one after the other and leaves their
    number in [numf], provided they run out before [FILES_MAX]. *)
Lemma token_loop_spec (n : nat) :
  forall (s : string) (fn : table),
    (length (tokens_upto n s) < n)%nat ->
    token_loop n (length fn) s fn =
      (Z.of_nat (length fn + length (tokens_upto n s)),
       fn ++ map (fun t => strncpy t PATH_MAX) (tokens_upto n s)).
Proof.
  induction n as [|n IH]; intros s fn Hlt; simpl in *.
  - lia.
  - destruct (strtok_r s DELIMITER) as [[token saveptr]|]; simpl in *.
    + unfold store_row. rewrite store_at_end.
      replace (S (length fn)) with (length (fn ++ [strncpy token PATH_MAX]))
        by (rewrite length_app; simpl; lia).
      rewrite IH by lia.
      rewrite length_app, <- app_assoc; simpl.
      f_equal. lia.
    + now rewrite Nat.add_0_r, app_nil_r.
Qed.

(** For every argument that contains the delimiter and has between 1 and
    [FILES_MAX - 1] tokens, [get_filenames] stores all of them and
    returns their number less one. *)
Lemma get_filenames_undercounts (farg : string) :
  strstr farg DELIMITER <> None ->
  (1 <= length (tokens farg) < FILES_MAX)%nat ->
  get_filenames farg [] =
    (Z.of_nat (length (tokens farg)) - 1,
     map (fun t => strncpy t PATH_MAX) (tokens farg)).
Proof.
  unfold get_filenames, tokens. generalize FILES_MAX as N.
  intros N Hdelim [Hone Hmax].
  destruct (0 <? strlen farg)%nat eqn:Hlen.
  - destruct (strstr farg DELIMITER); [|congruence].
    pose proof (token_loop_spec N farg [] Hmax) as Hloop.
    simpl in Hloop. rewrite Hloop.
    destruct (0 <? Z.of_nat (length (tokens_upto N farg))) eqn:Hpos.
    + reflexivity.
    + apply Z.ltb_ge in Hpos. lia.
  - apply Nat.ltb_ge in Hlen. unfold strlen in Hlen.
    destruct farg; simpl in Hlen; [|lia].
    simpl in Hdelim. congruence.
Qed.

(** An argument without delimiter is one file. *)
Lemma get_filenames_single (farg : string) :
  farg <> EmptyString ->
  strstr farg DELIMITER = None ->
  get_filenames farg [] = (1, [strncpy farg PATH_MAX]).
Proof.
  intros Hne Hnone. unfold get_filenames. rewrite Hnone.
  destruct farg; [congruence | reflexivity].
Qed.

(** C9. There is a delimiter-separated argument with [k >= 2] tokens,
    [k] below [FILES_MAX], for which [get_filenames] stores the [k]
    tokens in the table and returns [k - 1]. *)
Theorem get_filenames_returns_one_less :
  exists (farg : string) (k : nat),
    (2 <= k < FILES_MAX)%nat /\
    length (tokens farg) = k /\
    snd (get_filenames farg []) = tokens farg /\
    fst (get_filenames farg []) = Z.of_nat k - 1.
Proof.
  exists "a|b", 2%nat.
  split; [split; [lia | apply Nat.ltb_lt; vm_compute; reflexivity] |].
  split; [vm_compute; reflexivity |].
  split; vm_compute; reflexivity.
Qed.

(** ** Options and sanity checks *)

Lemma strcmp_same (a : string) : strcmp a a = 0.
Proof.
  unfold strcmp.
  pose proof (String.compare_antisym a a) as Hanti.
  destruct (String.compare a a); simpl in Hanti; try discriminate; reflexivity.
Qed.

Lemma strcmp_zero (a b : string) : strcmp a b = 0 -> a = b.
Proof.
  unfold strcmp. destruct (String.compare a b) eqn:Hc; try discriminate.
  intros _. now apply String.compare_eq_iff.
Qed.

(** A run that gets past the sanity checks has parsed both lists. *)
Lemma startup_trace (inv : invocation) (fl : flags) (n : Z)
    (ifiles ofiles : table) (tr : list event) :
  startup inv = Proceed fl n ifiles ofiles tr -> tr = [Tokenized n; Tokenized n].
Proof.
  unfold startup.
  destruct (getopt_loop (options inv) flags_init) as [fl'|]; [|discriminate].
  destruct (argc inv =? 1); [discriminate|].
  destruct (hflag fl'); [discriminate|].
  destruct (strcmp (ivalue fl') (ovalue fl') =? 0); [discriminate|].
  destruct (get_filenames (ivalue fl') []) as [inumf ifiles'].
  destruct (get_filenames (ovalue fl') []) as [onumf ofiles'].
  destruct (Z.eqb_spec inumf onumf) as [Heq | Hne]; simpl; [|discriminate].
  intros H; inversion H; subst. reflexivity.
Qed.

(** The flags after the option loop, in terms of the command line. *)
Lemma getopt_loop_flags (os : list opt) :
  forall fl fl',
    getopt_loop os fl = Some fl' ->
    hflag fl' = hflag fl || existsb is_help os /\
    ivalue fl' = last_i os (ivalue fl) /\
    ovalue fl' = last_o os (ovalue fl).
Proof.
  induction os as [|o os IH]; intros fl fl' H; simpl in H.
  - inversion H; subst. rewrite orb_false_r. repeat split.
  - destruct o; simpl in H; try discriminate;
      destruct (IH _ _ H) as [Hh [Hi Ho]]; simpl in *;
      rewrite Hh, Hi, Ho; repeat split;
      try reflexivity; now rewrite ?orb_true_r, ?orb_false_l.
Qed.

(** C10, as the code has it.  When the [-i] argument equals the [-o]
    argument and the help text is not asked for, the run exits with
    [ARG_ERROR] and has done nothing before: no list was tokenized, no
    file probed, no worker created. *)
Theorem same_arguments_rejected (inv : invocation) (env : environment) :
  help_requested inv = false ->
  i_argument inv = o_argument inv ->
  outcome_of (main inv env) = Exit ARG_ERROR /\ trace (main inv env) = [].
Proof.
  unfold help_requested, i_argument, o_argument. intros Hhelp Hsame.
  unfold main, startup.
  destruct (getopt_loop (options inv) flags_init) as [fl|] eqn:Hopt;
    [|split; reflexivity].
  destruct (getopt_loop_flags _ _ _ Hopt) as [Hh [Hi Ho]].
  rewrite Hhelp in Hh. simpl in Hh, Hi, Ho.
  rewrite Hh, Hi, Ho, Hsame, strcmp_same.
  destruct (argc inv =? 1); split; reflexivity.
Qed.

(** C10 does not hold when the help text is asked for: with
    [-h -i a -o a] the two arguments are equal and the run prints the
    help text and exits with 0. *)
Lemma same_arguments_with_help :
  i_argument inv_help = o_argument inv_help /\
  outcome_of (main inv_help env_b_missing) = Exit EXIT_OK /\
  outcome_of (main inv_help env_b_missing) <> Exit ARG_ERROR.
Proof.
  split; [reflexivity|]. split; [reflexivity | discriminate].
Qed.

(** X28. When the two lists were parsed and [get_filenames] reported
    different counts for them, the run exits with [ARG_ERROR] and
    nothing follows the parsing: no input file is probed, no entry of
    [fdata] filled in, no worker created. *)
Theorem different_counts_rejected (inv : invocation) (env : environment)
    (inumf onumf : Z) (rest : list event) :
  trace (main inv env) = Tokenized inumf :: Tokenized onumf :: rest ->
  inumf <> onumf ->
  outcome_of (main inv env) = Exit ARG_ERROR /\ rest = [].
Proof.
  unfold main. destruct (startup inv) as [code tr | fl n ifiles ofiles tr] eqn:Hstart.
  - cbn [trace outcome_of]. intros Htr Hne. subst tr.
    unfold startup in Hstart.
    destruct (getopt_loop (options inv) flags_init) as [fl|]; [|discriminate].
    destruct (argc inv =? 1); [discriminate|].
    destruct (hflag fl); [discriminate|].
    destruct (strcmp (ivalue fl) (ovalue fl) =? 0); [discriminate|].
    destruct (get_filenames (ivalue fl) []) as [i1 t1].
    destruct (get_filenames (ovalue fl) []) as [o1 t2].
    destruct (negb (i1 =? o1)); [|discriminate].
    inversion Hstart; subst. split; reflexivity.
  - pose proof (startup_trace _ _ _ _ _ _ Hstart) as ->.
    cbn [trace app]. intros Htr Hne. inversion Htr; subst. congruence.
Qed.

(** ** The worker *)

Lemma BLOCKSIZE_pos : (0 < BLOCKSIZE)%nat.
Proof. apply Nat.ltb_lt. vm_compute. reflexivity. Qed.

(** [fread] hands out a prefix of the data and keeps the rest. *)
Lemma fread_split (n : nat) (f f' : rfile) (buf : list byte) :
  fread n f = (buf, f') -> r_data f = buf ++ r_data f'.
Proof.
  unfold fread. destruct (n <=? length (r_data f))%nat; intros H;
    inversion H; subst; simpl.
  - symmetry. apply firstn_skipn.
  - now rewrite app_nil_r.
Qed.

(** A read at the end of a file delivers nothing and sets the
    end-of-file indicator. *)
Lemma fread_at_eof (n : nat) (f : rfile) :
  (0 < n)%nat -> r_data f = [] -> r_end f = AtEOF ->
  exists f', fread n f = ([], f') /\ feof f' = true.
Proof.
  intros Hn Hd He. unfold fread. rewrite Hd, He. simpl.
  destruct (Nat.leb_spec n 0); [lia|].
  eexists; split; reflexivity.
Qed.

(** A read delivers all that was asked for, or empties the file and
    sets an indicator: the end-of-file one exactly when the file ends
    regularly and not in a fault. *)
Lemma fread_short (n : nat) (f f' : rfile) (buf : list byte) :
  fread n f = (buf, f') ->
  length buf = n \/
  ((length buf < n)%nat /\ r_data f' = [] /\
   (r_end f = AtEOF -> feof f' = true) /\ r_end f' = r_end f).
Proof.
  unfold fread. destruct (Nat.leb_spec n (length (r_data f))); intros Hrd;
    inversion Hrd; subst; simpl.
  - left. rewrite length_firstn. lia.
  - right. repeat split; auto. intros ->. reflexivity.
Qed.

Lemma fread_keeps_end (n : nat) (f f' : rfile) (buf : list byte) :
  fread n f = (buf, f') -> r_end f' = r_end f.
Proof.
  unfold fread. destruct (n <=? length (r_data f))%nat; intros H;
    inversion H; reflexivity.
Qed.

(** Neither loop runs into its bound. *)
Lemma copy_loop_ends (fuel : nat) :
  forall (infile : rfile) (outfile : wfile) (calls : nat),
    (length (r_data infile) + 2 <= fuel)%nat ->
    fst (fst (copy_loop fuel infile outfile calls)) <> LoopFuel.
Proof.
  induction fuel as [|fuel IH]; intros infile outfile calls Hlen; [lia|].
  cbn [copy_loop].
  destruct (feof infile); [simpl; discriminate|].
  destruct (fread BLOCKSIZE infile) as [ibuffer infile'] eqn:Hrd.
  pose proof (fread_split _ _ _ _ Hrd) as Hsplit.
  destruct (Z.leb_spec (Z.of_nat (length ibuffer)) 0).
  - destruct (feof infile'); simpl; discriminate.
  - destruct (fwrite ibuffer outfile) as [written outfile'].
    destruct (negb (Z.of_nat written =? Z.of_nat (length ibuffer)));
      [simpl; discriminate|].
    apply IH. rewrite Hsplit, length_app in Hlen. lia.
Qed.

Lemma verify_loop_ends (fuel : nat) :
  forall (infile outfile : rfile),
    (length (r_data infile) + 2 <= fuel)%nat ->
    verify_loop fuel infile outfile <> LoopFuel.
Proof.
  induction fuel as [|fuel IH]; intros infile outfile Hlen; [lia|].
  cbn [verify_loop].
  destruct (feof infile); [discriminate|].
  destruct (fread BLOCKSIZE infile) as [ibuffer infile'] eqn:Hrd.
  pose proof (fread_split _ _ _ _ Hrd) as Hsplit.
  destruct (Z.leb_spec (Z.of_nat (length ibuffer)) 0).
  - destruct (feof infile'); discriminate.
  - destruct (fread (length ibuffer) outfile) as [obuffer outfile'].
    destruct (negb (length obuffer =? length ibuffer)%nat); [discriminate|].
    destruct (buffers_differ ibuffer obuffer); [discriminate|].
    apply IH. rewrite Hsplit, length_app in Hlen. lia.
Qed.

(** The codes with which the loops fail. *)
Lemma copy_loop_fails (fuel : nat) :
  forall (infile : rfile) (outfile : wfile) (calls : nat) (r : Z),
    fst (fst (copy_loop fuel infile outfile calls)) = LoopFail r ->
    r = READ_ERROR \/ r = WRITE_ERROR.
Proof.
  induction fuel as [|fuel IH]; intros infile outfile calls r; cbn [copy_loop].
  - simpl; discriminate.
  - destruct (feof infile); [simpl; discriminate|].
    destruct (fread BLOCKSIZE infile) as [ibuffer infile'].
    destruct (Z.of_nat (length ibuffer) <=? 0).
    + destruct (feof infile'); simpl; intros H; inversion H; auto.
    + destruct (fwrite ibuffer outfile) as [written outfile'].
      destruct (negb (Z.of_nat written =? Z.of_nat (length ibuffer))).
      * simpl; intros H; inversion H; auto.
      * apply IH.
Qed.

Lemma verify_loop_fails (fuel : nat) :
  forall (infile outfile : rfile) (r : Z),
    verify_loop fuel infile outfile = LoopFail r ->
    r = READ_ERROR \/ r = VERIFY_ERROR.
Proof.
  induction fuel as [|fuel IH]; intros infile outfile r; cbn [verify_loop].
  - discriminate.
  - destruct (feof infile); [discriminate|].
    destruct (fread BLOCKSIZE infile) as [ibuffer infile'].
    destruct (Z.of_nat (length ibuffer) <=? 0).
    + destruct (feof infile'); intros H; inversion H; auto.
    + destruct (fread (length ibuffer) outfile) as [obuffer outfile'].
      destruct (negb (length obuffer =? length ibuffer)%nat);
        [intros H; inversion H; auto|].
      destruct (buffers_differ ibuffer obuffer);
        [intros H; inversion H; auto|].
      apply IH.
Qed.

(** The assignments of a worker: the two resets, then the status, then
    the result, and on the successful path the two time fields. *)
Lemma copyFile_writes (e : worker_env) (fdata : filedata) :
  (exists r, r <> EXIT_OK /\
             writes (copyFile e fdata) = reset_time ++ exit_with r) \/
  writes (copyFile e fdata) = reset_time ++ exit_ok (clock_t1 e) (clock_t2 e).
Proof.
  assert (Hr : READ_ERROR <> EXIT_OK) by discriminate.
  assert (Hw : WRITE_ERROR <> EXIT_OK) by discriminate.
  assert (Hv : VERIFY_ERROR <> EXIT_OK) by discriminate.
  unfold copyFile.
  destruct (open_in e) as [isrc|]; [|left; eexists; split; [exact Hr | reflexivity]].
  destruct (open_out e) as [osnk|]; [|left; eexists; split; [exact Hw | reflexivity]].
  pose proof (copy_loop_ends (loop_bound isrc) (fopen_r isrc) (fopen_w osnk) O) as Hends.
  pose proof (copy_loop_fails (loop_bound isrc) (fopen_r isrc) (fopen_w osnk) O) as Hfails.
  destruct (copy_loop (loop_bound isrc) (fopen_r isrc) (fopen_w osnk) O)
    as [[[| r |] outfile'] calls]; simpl in Hends, Hfails.
  - destruct (verify fdata); [|right; reflexivity].
    destruct (reopen_in e) as [vsrc|]; [|left; eexists; split; [exact Hr | reflexivity]].
    destruct (reopen_out e) as [vout|]; [|left; eexists; split; [exact Hr | reflexivity]].
    pose proof (verify_loop_ends (loop_bound vsrc) (fopen_r vsrc) (fopen_r vout)) as Hvends.
    pose proof (verify_loop_fails (loop_bound vsrc) (fopen_r vsrc) (fopen_r vout)) as Hvfails.
    destruct (verify_loop (loop_bound vsrc) (fopen_r vsrc) (fopen_r vout)) as [| r |].
    + right; reflexivity.
    + left; exists r; split; [|reflexivity].
      destruct (Hvfails r eq_refl); subst; assumption.
    + exfalso. apply Hvends; [|reflexivity]. unfold loop_bound, fopen_r; simpl; lia.
  - left; exists r; split; [|reflexivity].
    destruct (Hfails r eq_refl); subst; assumption.
  - exfalso. apply Hends; [|reflexivity]. unfold loop_bound, fopen_r; simpl; lia.
Qed.

(** The assignments of a worker in the form the schedule needs. *)
Lemma copyFile_order (e : worker_env) (fdata : filedata) :
  exists (pre post : list write) (r : Z),
    writes (copyFile e fdata) = pre ++ WStatus TS_DONE :: WResult r :: post /\
    (forall s, ~ In (WStatus s) pre) /\
    (forall s, ~ In (WStatus s) post).
Proof.
  destruct (copyFile_writes e fdata) as [[r [_ Hw]] | Hw]; rewrite Hw.
  - exists reset_time, [], r. split; [reflexivity|].
    split; intros s; simpl; intuition discriminate.
  - exists reset_time, [WTimeUsec ((tv_usec (clock_t2 e) - tv_usec (clock_t1 e)) # 1000000);
                        WTimeSec (inject_Z (tv_sec (clock_t2 e) - tv_sec (clock_t1 e)))],
      EXIT_OK.
    split; [reflexivity|].
    split; intros s; simpl; intuition discriminate.
Qed.

(** C4: the order of the assignments.  Every worker stores [TS_DONE]
    into the status once, and the next assignment, made after that
    store, is the one to the result. *)
Theorem result_written_after_done (e : worker_env) (fdata : filedata) :
  exists (pre post : list write) (r : Z),
    writes (copyFile e fdata) = pre ++ WStatus TS_DONE :: WResult r :: post /\
    (forall s, ~ In (WStatus s) pre) /\
    (forall s, ~ In (WStatus s) post).
Proof. exact (copyFile_order e fdata). Qed.

Lemma copy_loop_empty (fuel : nat) (outfile : wfile) (calls : nat) :
  copy_loop (S fuel) (fopen_r empty_file) outfile calls = (LoopEnd, outfile, calls).
Proof.
  cbn [copy_loop]. change (feof (fopen_r empty_file)) with false. cbv iota.
  destruct (fread_at_eof BLOCKSIZE (fopen_r empty_file) BLOCKSIZE_pos eq_refl eq_refl)
    as [f' [Hrd Heof]].
  rewrite Hrd. simpl. now rewrite Heof.
Qed.

Lemma verify_loop_empty (fuel : nat) (outfile : rfile) :
  verify_loop (S fuel) (fopen_r empty_file) outfile = LoopEnd.
Proof.
  cbn [verify_loop]. change (feof (fopen_r empty_file)) with false. cbv iota.
  destruct (fread_at_eof BLOCKSIZE (fopen_r empty_file) BLOCKSIZE_pos eq_refl eq_refl)
    as [f' [Hrd Heof]].
  rewrite Hrd. simpl. now rewrite Heof.
Qed.

(** C7. A task whose input file is empty, once both files are open:
    [fwrite] is never called, nothing is written, and the worker ends
    with [EXIT_OK]; with verification on, the two empty streams of the
    second pass give the same. *)
Theorem zero_length_input (e : worker_env) (fdata : filedata) (osnk : sink) :
  open_in e = Some empty_file ->
  open_out e = Some osnk ->
  (verify fdata = true ->
   reopen_in e = Some empty_file /\ reopen_out e = Some empty_file) ->
  fwrite_calls (copyFile e fdata) = O /\
  written (copyFile e fdata) = [] /\
  status (worker_final e fdata) = TS_DONE /\
  result (worker_final e fdata) = EXIT_OK.
Proof.
  intros Hin Hout Hver. unfold worker_final, copyFile.
  rewrite Hin, Hout. change (loop_bound empty_file) with 2%nat.
  rewrite copy_loop_empty.
  destruct (verify fdata).
  - destruct (Hver eq_refl) as [Hvin Hvout]. rewrite Hvin, Hvout.
    change (loop_bound empty_file) with 2%nat. rewrite verify_loop_empty.
    repeat split.
  - repeat split.
Qed.

(** The copy of an empty file with verification on. *)
Lemma zero_length_input_witness :
  fwrite_calls (copyFile env_empty (fdata_ab true)) = O /\
  written (copyFile env_empty (fdata_ab true)) = [] /\
  status (worker_final env_empty (fdata_ab true)) = TS_DONE /\
  result (worker_final env_empty (fdata_ab true)) = EXIT_OK.
Proof.
  apply (zero_length_input env_empty (fdata_ab true) no_limit).
  - reflexivity.
  - reflexivity.
  - intros _. split; reflexivity.
Defined.

(** C8, as the code has it.  Every worker ends with the status
    [TS_DONE].  On the successful exit the two time fields hold the time
    between the start of the worker and that exit; on every exit with an
    error they keep the value 0 of the reset. *)
Theorem elapsed_only_on_success (e : worker_env) (fdata : filedata) :
  status (worker_final e fdata) = TS_DONE /\
  (elapsed (worker_final e fdata) ==
     if result (worker_final e fdata) =? EXIT_OK
     then duration (clock_t1 e) (clock_t2 e) else 0)%Q.
Proof.
  unfold worker_final.
  destruct (copyFile_writes e fdata) as [[r [Hr Hw]] | Hw]; rewrite Hw; simpl.
  - apply Z.eqb_neq in Hr. rewrite Hr. split; reflexivity.
  - split; reflexivity.
Qed.

(** C8 does not hold on the exits with an error: the worker that cannot
    open its input ends three seconds after its start with both time
    fields 0. *)
Lemma elapsed_unset_on_error :
  result (worker_final env_no_input (fdata_ab false)) = READ_ERROR /\
  (duration (clock_t1 env_no_input) (clock_t2 env_no_input) == 3)%Q /\
  ~ (elapsed (worker_final env_no_input (fdata_ab false)) ==
       duration (clock_t1 env_no_input) (clock_t2 env_no_input))%Q.
Proof.
  split; [reflexivity|]. split; [reflexivity|].
  vm_compute. discriminate.
Qed.

(** ** Verification and the lengths of the two files *)

Lemma buffers_same (buf : list byte) : buffers_differ buf buf = false.
Proof.
  induction buf as [|b buf IH]; simpl; [reflexivity|].
  now rewrite (Byte.byte_dec_lb (x:=b) (y:=b) eq_refl).
Qed.

Lemma firstn_prefix {A : Type} (l1 l2 : list A) : firstn (length l1) (l1 ++ l2) = l1.
Proof.
  rewrite firstn_app, Nat.sub_diag, firstn_all. simpl. apply app_nil_r.
Qed.

Lemma skipn_prefix {A : Type} (l1 l2 : list A) : skipn (length l1) (l1 ++ l2) = l2.
Proof.
  rewrite skipn_app, Nat.sub_diag, skipn_all. reflexivity.
Qed.

(** A copy from a file that ends regularly to a device without limit
    leaves the loop through its end. *)
Lemma copy_loop_succeeds (fuel : nat) :
  forall (infile : rfile) (outfile : wfile) (calls : nat),
    r_end infile = AtEOF ->
    w_room outfile = None ->
    (length (r_data infile) + 2 <= fuel)%nat ->
    fst (fst (copy_loop fuel infile outfile calls)) = LoopEnd.
Proof.
  induction fuel as [|fuel IH]; intros infile outfile calls Hend Hroom Hlen; [lia|].
  cbn [copy_loop].
  destruct (feof infile); [reflexivity|].
  destruct (fread BLOCKSIZE infile) as [ibuffer infile'] eqn:Hrd.
  pose proof (fread_split _ _ _ _ Hrd) as Hsplit.
  pose proof (fread_keeps_end _ _ _ _ Hrd) as Hend'.
  destruct (Z.leb_spec (Z.of_nat (length ibuffer)) 0) as [Hzero | Hpos].
  - destruct (fread_short _ _ _ _ Hrd) as [Hfull | [_ [_ [Heof _]]]].
    + pose proof BLOCKSIZE_pos. lia.
    + now rewrite (Heof Hend).
  - unfold fwrite. rewrite Hroom. rewrite Z.eqb_refl. cbn [negb].
    apply IH; [congruence | reflexivity |].
    rewrite Hsplit, length_app in Hlen. lia.
Qed.

(** The verification accepts an output file that begins with the
    content of the input file, whatever follows in it. *)
Lemma verify_loop_ignores_tail (fuel : nat) :
  forall (infile outfile : rfile) (extra : list byte),
    r_end infile = AtEOF ->
    r_data outfile = r_data infile ++ extra ->
    (length (r_data infile) + 2 <= fuel)%nat ->
    verify_loop fuel infile outfile = LoopEnd.
Proof.
  induction fuel as [|fuel IH]; intros infile outfile extra Hend Hout Hlen; [lia|].
  cbn [verify_loop].
  destruct (feof infile); [reflexivity|].
  destruct (fread BLOCKSIZE infile) as [ibuffer infile'] eqn:Hrd.
  pose proof (fread_split _ _ _ _ Hrd) as Hsplit.
  pose proof (fread_keeps_end _ _ _ _ Hrd) as Hend'.
  destruct (Z.leb_spec (Z.of_nat (length ibuffer)) 0) as [Hzero | Hpos].
  - destruct (fread_short _ _ _ _ Hrd) as [Hfull | [_ [_ [Heof _]]]].
    + pose proof BLOCKSIZE_pos. lia.
    + now rewrite (Heof Hend).
  - rewrite Hsplit, <- app_assoc in Hout.
    unfold fread at 1. rewrite Hout.
    destruct (Nat.leb_spec (length ibuffer) (length (ibuffer ++ r_data infile' ++ extra)))
      as [_ | Hshort]; [|rewrite length_app in Hshort; lia].
    rewrite firstn_prefix, skipn_prefix, Nat.eqb_refl, buffers_same. cbn [negb].
    apply IH with (extra := extra); [congruence | reflexivity |].
    rewrite Hsplit, length_app in Hlen. lia.
Qed.

(** The other direction is noticed: an output file that is a proper
    prefix of the input file ends the verification with [READ_ERROR]. *)
Lemma verify_loop_short_output (fuel : nat) :
  forall (infile outfile : rfile) (missing : list byte),
    feof infile = false ->
    missing <> [] ->
    r_data infile = r_data outfile ++ missing ->
    (length (r_data infile) + 2 <= fuel)%nat ->
    verify_loop fuel infile outfile = LoopFail READ_ERROR.
Proof.
  induction fuel as [|fuel IH]; intros infile outfile missing Heof Hmiss Hin Hlen; [lia|].
  cbn [verify_loop]. rewrite Heof.
  unfold fread at 1.
  destruct (Nat.leb_spec BLOCKSIZE (length (r_data infile))) as [Hfull | Hlast].
  - rewrite length_firstn, Nat.min_l by exact Hfull.
    destruct (Z.leb_spec (Z.of_nat BLOCKSIZE) 0) as [Hzero | _];
      [pose proof BLOCKSIZE_pos; lia|].
    unfold fread.
    destruct (Nat.leb_spec BLOCKSIZE (length (r_data outfile))) as [Hofull | Holast].
    + rewrite length_firstn, Nat.min_l, Nat.eqb_refl by exact Hofull. cbn [negb].
      rewrite Hin, firstn_app.
      replace (BLOCKSIZE - length (r_data outfile))%nat with O by lia.
      rewrite firstn_O, app_nil_r, buffers_same.
      apply IH with (missing := missing); cbn [feof r_eof r_data].
      * exact Heof.
      * exact Hmiss.
      * rewrite skipn_app.
        replace (BLOCKSIZE - length (r_data outfile))%nat with O by lia.
        reflexivity.
      * rewrite length_skipn. rewrite Hin in Hlen, Hfull. pose proof BLOCKSIZE_pos. lia.
    + destruct (Nat.eqb_spec (length (r_data outfile)) BLOCKSIZE); [lia | reflexivity].
  - destruct (Z.leb_spec (Z.of_nat (length (r_data infile))) 0) as [Hzero | Hpos].
    + rewrite Hin, length_app in Hzero.
      destruct missing; [congruence | simpl in Hzero; lia].
    + unfold fread.
      assert (Hless : (length (r_data outfile) < length (r_data infile))%nat).
      { rewrite Hin, length_app. destruct missing; [congruence | simpl; lia]. }
      destruct (Nat.leb_spec (length (r_data infile)) (length (r_data outfile))); [lia|].
      destruct (Nat.eqb_spec (length (r_data outfile)) (length (r_data infile)));
        [lia | reflexivity].
Qed.

(** With verification on, a worker whose copy succeeded and which then
    finds an output file that starts with the content of the input file
    and goes on after it ends with [EXIT_OK]. *)
Lemma longer_output_passes (e : worker_env) (fdata : filedata)
    (data extra : list byte) :
  verify fdata = true ->
  open_in e = Some (file_of data) ->
  open_out e = Some no_limit ->
  reopen_in e = Some (file_of data) ->
  reopen_out e = Some (file_of (data ++ extra)) ->
  result (worker_final e fdata) = EXIT_OK.
Proof.
  intros Hv Hin Hout Hvin Hvout. unfold worker_final, copyFile.
  rewrite Hin, Hout, Hv, Hvin, Hvout.
  pose proof (copy_loop_succeeds (loop_bound (file_of data))
                (fopen_r (file_of data)) (fopen_w no_limit) O eq_refl eq_refl) as Hcopy.
  destruct (copy_loop (loop_bound (file_of data)) (fopen_r (file_of data))
              (fopen_w no_limit) O) as [[x outfile'] calls].
  simpl in Hcopy. rewrite Hcopy by (unfold loop_bound; simpl; lia).
  rewrite (verify_loop_ignores_tail (loop_bound (file_of data))
             (fopen_r (file_of data)) (fopen_r (file_of (data ++ extra))) extra);
    try reflexivity.
  unfold loop_bound; simpl; lia.
Qed.

(** C2 at the failing input: the copy of the file "a" succeeded, the
    verification finds "ab" in the output file, the input stream is
    used up first, and the worker ends with [EXIT_OK], not with
    [READ_ERROR]. *)
Theorem verify_accepts_longer_output :
  verify (fdata_ab true) = true /\
  reopen_in env_longer_output = Some (file_of [x61]) /\
  reopen_out env_longer_output = Some (file_of [x61; x62]) /\
  written (copyFile env_longer_output (fdata_ab true)) = [x61] /\
  status (worker_final env_longer_output (fdata_ab true)) = TS_DONE /\
  result (worker_final env_longer_output (fdata_ab true)) = EXIT_OK.
Proof.
  repeat split; vm_compute; reflexivity.
Qed.

(** ** The phases of [main] *)

Lemma main_proceeds (inv : invocation) (env : environment) (fl : flags) (n : Z)
    (ifiles ofiles : table) (tr : list event) :
  startup inv = Proceed fl n ifiles ofiles tr ->
  outcome_of (main inv env) = outcome_of (process fl n ifiles ofiles env) /\
  trace (main inv env) =
    [Tokenized n; Tokenized n] ++ trace (process fl n ifiles ofiles env) /\
  ifiles_of (main inv env) = ifiles_of (process fl n ifiles ofiles env) /\
  ofiles_of (main inv env) = ofiles_of (process fl n ifiles ofiles env).
Proof.
  intros Hstart. pose proof (startup_trace _ _ _ _ _ _ Hstart) as ->.
  unfold main. rewrite Hstart. repeat split.
Qed.

(** The two ways through [process]. *)
Lemma process_cases (fl : flags) (n : Z) (ifiles ofiles : table) (env : environment) :
  exists ifiles1 ofiles1 sfiles tr1,
    validate (Z.to_nat n) O (probe env) ifiles ofiles [] = (ifiles1, ofiles1, sfiles, tr1) /\
    ((limit_reachable env n = false /\
      process fl n ifiles ofiles env =
        {| outcome_of := Exit READ_ERROR; trace := tr1;
           ifiles_of := ifiles1; ofiles_of := ofiles1; fdata_of := [] |}) \/
     (limit_reachable env n = true /\
      exists fdata bnumf tr3 o fdata' tr4 tr2,
        dispatch (Z.to_nat n) O env ifiles1 ofiles1 sfiles (vflag fl) 0 = (fdata, bnumf, tr3) /\
        poll (polls env) ifiles1 fdata 0 = (o, fdata', tr4) /\
        reaped tr2 = [] /\
        (forall i t, ~ In (Created i t) tr2) /\
        process fl n ifiles ofiles env =
          {| outcome_of := o; trace := tr1 ++ tr2 ++ tr3 ++ tr4;
             ifiles_of := ifiles1; ofiles_of := ofiles1; fdata_of := fdata' |})).
Proof.
  unfold process, limit_reachable.
  destruct (validate (Z.to_nat n) O (probe env) ifiles ofiles [])
    as [[[ifiles1 ofiles1] sfiles] tr1].
  exists ifiles1, ofiles1, sfiles, tr1. split; [reflexivity|].
  destruct ((rlim_cur env <? n + n) && (n + n >? rlim_max env)) eqn:Hlim.
  - left. split; reflexivity.
  - right. split; [reflexivity|].
    destruct (dispatch (Z.to_nat n) O env ifiles1 ofiles1 sfiles (vflag fl) 0)
      as [[fdata bnumf] tr3] eqn:Hdispatch.
    destruct (poll (polls env) ifiles1 fdata 0) as [[o fdata'] tr4] eqn:Hpoll.
    exists fdata, bnumf, tr3, o, fdata', tr4.
    exists (if rlim_cur env <? n + n then [Setrlimit (n + n)] else []).
    split; [reflexivity|]. split; [exact Hpoll|].
    split; [destruct (rlim_cur env <? n + n); reflexivity|].
    split; [|reflexivity].
    intros i t. destruct (rlim_cur env <? n + n); simpl; [|tauto].
    intros [H | []]; discriminate.
Qed.

(** ** Last failure of a list of results *)








(** ** Assignments to a record *)

Lemma apply_writes_app (fdata : filedata) (ws1 ws2 : list write) :
  apply_writes fdata (ws1 ++ ws2) = apply_writes (apply_writes fdata ws1) ws2.
Proof. apply fold_left_app. Qed.

Lemma status_after_store (ws : list write) :
  forall (fdata : filedata) (s : Z),
    status (apply_writes (apply_write fdata (WStatus s)) ws) = s \/
    status (apply_writes (apply_write fdata (WStatus s)) ws) =
      status (apply_writes fdata ws).
Proof.
  induction ws as [|w ws IH]; intros fdata s; [left; reflexivity|].
  destruct w as [q | q | s' | r].
  - apply (IH (apply_write fdata (WTimeUsec q)) s).
  - apply (IH (apply_write fdata (WTimeSec q)) s).
  - right. reflexivity.
  - apply (IH (apply_write fdata (WResult r)) s).
Qed.

Lemma status_of_last_store (pre post : list write) (fdata : filedata) (s : Z) :
  (forall s', ~ In (WStatus s') post) ->
  status (apply_writes fdata (pre ++ WStatus s :: post)) = s.
Proof.
  intros Hpost. rewrite apply_writes_app. simpl apply_writes.
  generalize (apply_writes fdata pre) as fd0.
  induction post as [|w post IH]; intros fd0; [reflexivity|].
  destruct w as [q | q | s' | r].
  - apply (IH (fun s' H => Hpost s' (or_intror H)) (apply_write fd0 (WTimeUsec q))).
  - apply (IH (fun s' H => Hpost s' (or_intror H)) (apply_write fd0 (WTimeSec q))).
  - exfalso. apply (Hpost s'). left; reflexivity.
  - apply (IH (fun s' H => Hpost s' (or_intror H)) (apply_write fd0 (WResult r))).
Qed.

Lemma result_stays_ok (ws : list write) :
  forall fdata : filedata,
    result fdata = EXIT_OK ->
    (forall r, In (WResult r) ws -> r = EXIT_OK) ->
    result (apply_writes fdata ws) = EXIT_OK.
Proof.
  induction ws as [|w ws IH]; intros fdata Hres Hws; [exact Hres|].
  simpl. apply IH.
  - destruct w; simpl; try exact Hres. apply Hws. left; reflexivity.
  - intros r Hr. apply Hws. right; exact Hr.
Qed.

Lemma in_firstn {A : Type} (x : A) (k : nat) (l : list A) : In x (firstn k l) -> In x l.
Proof.
  intros H. rewrite <- (firstn_skipn k l). apply in_or_app. left; exact H.
Qed.

Lemma in_skipn {A : Type} (x : A) (k : nat) (l : list A) : In x (skipn k l) -> In x l.
Proof.
  intros H. rewrite <- (firstn_skipn k l). apply in_or_app. right; exact H.
Qed.

(** What is not among the first [k] elements is still to come. *)
Lemma skipn_keeps {A : Type} (x : A) (k : nat) (pre post : list A) :
  ~ In x (firstn k (pre ++ x :: post)) ->
  skipn k (pre ++ x :: post) = skipn k pre ++ x :: post.
Proof.
  intros Hnot.
  assert (Hk : (k <= length pre)%nat).
  { destruct (Nat.le_gt_cases k (length pre)) as [Hle | Hgt]; [exact Hle|].
    exfalso. apply Hnot. rewrite firstn_app. apply in_or_app. right.
    destruct (k - length pre)%nat eqn:Hd; [lia | left; reflexivity]. }
  rewrite skipn_app. replace (k - length pre)%nat with O by lia. reflexivity.
Qed.

(** ** Entries of [fdata] *)

Lemma settles_advance (k : nat) (c : cell) : settles c -> settles (advance k c).
Proof.
  unfold settles, advance. simpl.
  now rewrite <- apply_writes_app, firstn_skipn.
Qed.

Lemma settles_set_status (c : cell) (s : Z) :
  s <> TS_RUNNING -> settles c -> settles (set_status c s).
Proof.
  unfold settles, set_status. cbn [fd pend]. intros Hs Hc.
  destruct (status_after_store (pend c) (fd c) s) as [H | H]; rewrite H; assumption.
Qed.

Lemma clean_advance (k : nat) (c : cell) : clean c -> clean (advance k c).
Proof.
  intros [Hres Hpend]. split; simpl.
  - apply result_stays_ok; [exact Hres|].
    intros r Hr. apply Hpend. eapply in_firstn; exact Hr.
  - intros r Hr. apply Hpend. eapply in_skipn; exact Hr.
Qed.

Lemma clean_set_status (c : cell) (s : Z) : clean c -> clean (set_status c s).
Proof. intros [Hres Hpend]. split; assumption. Qed.

Lemma idle_finish (c : cell) : settles c -> idle (finish c).
Proof. intros H. split; [reflexivity | exact H]. Qed.

(** ** The validation loop *)

Lemma row_store_same (fn : table) (i : nat) (s : string) : row (store_row fn i s) i = s.
Proof. apply nth_store_same. Qed.

Lemma row_store_other (fn : table) (i j : nat) (s : string) :
  i <> j -> row (store_row fn i s) j = row fn j.
Proof. apply nth_store_other. Qed.

(** The loop leaves the rows outside its range alone and clears, in both
    tables, the rows of its range whose input file does not open. *)
Lemma validate_rows (n : nat) :
  forall (i : nat) (probe : string -> option source) (ifiles ofiles : table)
         (sfiles : list Z) ifiles' ofiles' sfiles' tr,
    validate n i probe ifiles ofiles sfiles = (ifiles', ofiles', sfiles', tr) ->
    (forall j, (j < i)%nat ->
               row ifiles' j = row ifiles j /\ row ofiles' j = row ofiles j) /\
    (forall j, (i <= j < i + n)%nat -> probe (row ifiles j) = None ->
               row ifiles' j = EmptyString /\ row ofiles' j = EmptyString).
Proof.
  induction n as [|n IH]; intros i probe ifiles ofiles sfiles ifiles' ofiles' sfiles' tr H.
  - simpl in H. inversion H; subst. split; [auto | intros; lia].
  - simpl in H. destruct (probe (row ifiles i)) as [infile|] eqn:Hprobe.
    + destruct (validate n (S i) probe ifiles ofiles
                  (store 0 sfiles i (check_file_size (fopen_r infile))))
        as [[[a b] c] d] eqn:Hrest.
      inversion H; subst. destruct (IH _ _ _ _ _ _ _ _ _ Hrest) as [Hold Hnew].
      split.
      * intros j Hj. apply Hold. lia.
      * intros j Hj Hnone. destruct (Nat.eq_dec j i) as [-> | Hne]; [congruence|].
        apply Hnew; [lia | exact Hnone].
    + destruct (validate n (S i) probe (store_row ifiles i EmptyString)
                  (store_row ofiles i EmptyString) (store 0 sfiles i 0))
        as [[[a b] c] d] eqn:Hrest.
      inversion H; subst. destruct (IH _ _ _ _ _ _ _ _ _ Hrest) as [Hold Hnew].
      split.
      * intros j Hj. destruct (Hold j) as [Hi Ho]; [lia|].
        rewrite Hi, Ho, !row_store_other by lia. split; reflexivity.
      * intros j Hj Hnone. destruct (Nat.eq_dec j i) as [-> | Hne].
        -- destruct (Hold i) as [Hi Ho]; [lia|].
           rewrite Hi, Ho, !row_store_same. split; reflexivity.
        -- apply Hnew; [lia|]. rewrite row_store_other by congruence. exact Hnone.
Qed.

Lemma validate_events (n : nat) :
  forall (i : nat) (probe : string -> option source) (ifiles ofiles : table)
         (sfiles : list Z) ifiles' ofiles' sfiles' tr,
    validate n i probe ifiles ofiles sfiles = (ifiles', ofiles', sfiles', tr) ->
    reaped tr = [] /\ (forall j t, ~ In (Created j t) tr).
Proof.
  induction n as [|n IH]; intros i probe ifiles ofiles sfiles ifiles' ofiles' sfiles' tr H.
  - simpl in H. inversion H; subst. split; [reflexivity | intros j t []].
  - simpl in H. destruct (probe (row ifiles i)) as [infile|].
    + destruct (validate n (S i) probe ifiles ofiles
                  (store 0 sfiles i (check_file_size (fopen_r infile))))
        as [[[a b] c] d] eqn:Hrest.
      inversion H; subst. destruct (IH _ _ _ _ _ _ _ _ _ Hrest) as [Hr Hc].
      split; [exact Hr|]. intros j t [Heq | Hin]; [discriminate | exact (Hc j t Hin)].
    + destruct (validate n (S i) probe (store_row ifiles i EmptyString)
                  (store_row ofiles i EmptyString) (store 0 sfiles i 0))
        as [[[a b] c] d] eqn:Hrest.
      inversion H; subst. destruct (IH _ _ _ _ _ _ _ _ _ Hrest) as [Hr Hc].
      split; [exact Hr|]. intros j t [Heq | Hin]; [discriminate | exact (Hc j t Hin)].
Qed.

(** ** The dispatch loop *)

Lemma is_empty_true (s : string) : is_empty s = true <-> s = EmptyString.
Proof. destruct s; simpl; split; congruence. Qed.

(** Workers are created for rows that are not cleared, and only there. *)
Lemma dispatch_events (n : nat) :
  forall (i : nat) env ifiles ofiles sfiles v bnumf cells bnumf' tr,
    dispatch n i env ifiles ofiles sfiles v bnumf = (cells, bnumf', tr) ->
    reaped tr = [] /\
    (forall j t, In (Created j t) tr -> is_empty (row ifiles j) = false).
Proof.
  induction n as [|n IH]; intros i env ifiles ofiles sfiles v bnumf cells bnumf' tr H.
  - simpl in H. inversion H; subst. split; [reflexivity | intros j t []].
  - simpl in H. destruct (is_empty (row ifiles i)) eqn:Hrow.
    + destruct (dispatch n (S i) env ifiles ofiles sfiles v (bnumf + 1))
        as [[rest b] tr'] eqn:Hrest.
      inversion H; subst. exact (IH _ _ _ _ _ _ _ _ _ _ Hrest).
    + destruct (negb (create env i =? 0)).
      * destruct (dispatch n (S i) env ifiles ofiles sfiles v (bnumf + 1))
          as [[rest b] tr'] eqn:Hrest.
        inversion H; subst. destruct (IH _ _ _ _ _ _ _ _ _ _ Hrest) as [Hr Hc].
        split; [exact Hr|].
        intros j t [Heq | Hin]; [inversion Heq; subst; exact Hrow | exact (Hc j t Hin)].
      * destruct (dispatch n (S i) env ifiles ofiles sfiles v bnumf)
          as [[rest b] tr'] eqn:Hrest.
        inversion H; subst. destruct (IH _ _ _ _ _ _ _ _ _ _ Hrest) as [Hr Hc].
        split; [exact Hr|].
        intros j t [Heq | Hin]; [inversion Heq; subst; exact Hrow | exact (Hc j t Hin)].
Qed.

(** A worker that has not stored [TS_DONE] when [main] stores
    [TS_RUNNING] will store it later. *)
Lemma started_settles (env : environment) (i : nat) (fdata : filedata) :
  ~ publishes_early env i fdata ->
  settles (set_status
             (advance (early env i)
                {| fd := fdata; pend := writes (copyFile (worker env i) fdata) |})
             TS_RUNNING).
Proof.
  unfold publishes_early, settles, set_status, advance. cbn [fd pend].
  destruct (copyFile_order (worker env i) fdata) as [pre [post [r [Hw [Hpre Hpost]]]]].
  rewrite Hw. intros Hnot. rewrite (skipn_keeps _ _ _ _ Hnot).
  rewrite status_of_last_store; [discriminate|].
  intros s [Heq | Hin]; [discriminate | exact (Hpost s Hin)].
Qed.

Lemma dispatch_settles (n : nat) :
  forall (i : nat) env ifiles ofiles sfiles v bnumf cells bnumf' tr,
    (forall j fdata, ~ publishes_early env j fdata) ->
    dispatch n i env ifiles ofiles sfiles v bnumf = (cells, bnumf', tr) ->
    Forall settles cells.
Proof.
  induction n as [|n IH];
    intros i env ifiles ofiles sfiles v bnumf cells bnumf' tr Hsafe H.
  - simpl in H. inversion H; subst. constructor.
  - simpl in H. destruct (is_empty (row ifiles i)).
    + destruct (dispatch n (S i) env ifiles ofiles sfiles v (bnumf + 1))
        as [[rest b] tr'] eqn:Hrest.
      inversion H; subst. constructor; [discriminate|].
      exact (IH _ _ _ _ _ _ _ _ _ _ Hsafe Hrest).
    + destruct (negb (create env i =? 0)).
      * destruct (dispatch n (S i) env ifiles ofiles sfiles v (bnumf + 1))
          as [[rest b] tr'] eqn:Hrest.
        inversion H; subst. constructor; [discriminate|].
        exact (IH _ _ _ _ _ _ _ _ _ _ Hsafe Hrest).
      * destruct (dispatch n (S i) env ifiles ofiles sfiles v bnumf)
          as [[rest b] tr'] eqn:Hrest.
        inversion H; subst. constructor; [apply started_settles, Hsafe|].
        exact (IH _ _ _ _ _ _ _ _ _ _ Hsafe Hrest).
Qed.

Lemma dispatch_clean (n : nat) :
  forall (i : nat) env ifiles ofiles sfiles v bnumf cells bnumf' tr,
    dispatch n i env ifiles ofiles sfiles v bnumf = (cells, bnumf', tr) ->
    (forall j r,
        In (Created j 0) tr ->
        In (WResult r)
           (writes (copyFile (worker env j) (task_record ifiles ofiles sfiles v j))) ->
        r = EXIT_OK) ->
    Forall clean cells.
Proof.
  induction n as [|n IH];
    intros i env ifiles ofiles sfiles v bnumf cells bnumf' tr H Hok.
  - simpl in H. inversion H; subst. constructor.
  - simpl in H. destruct (is_empty (row ifiles i)).
    + destruct (dispatch n (S i) env ifiles ofiles sfiles v (bnumf + 1))
        as [[rest b] tr'] eqn:Hrest.
      inversion H; subst. constructor.
      * split; [reflexivity | intros r []].
      * exact (IH _ _ _ _ _ _ _ _ _ _ Hrest Hok).
    + destruct (Z.eqb_spec (create env i) 0) as [Hzero | Hnz]; cbn [negb] in H.
      * destruct (dispatch n (S i) env ifiles ofiles sfiles v bnumf)
          as [[rest b] tr'] eqn:Hrest.
        inversion H; subst. rewrite Hzero in Hok. constructor.
        -- apply clean_set_status, clean_advance. split; [reflexivity|].
           intros r Hr. apply (Hok i r); [left; reflexivity | exact Hr].
        -- apply (IH _ _ _ _ _ _ _ _ _ _ Hrest).
           intros j r Hj. apply Hok. right; exact Hj.
      * destruct (dispatch n (S i) env ifiles ofiles sfiles v (bnumf + 1))
          as [[rest b] tr'] eqn:Hrest.
        inversion H; subst. constructor.
        -- split; [reflexivity | intros r []].
        -- apply (IH _ _ _ _ _ _ _ _ _ _ Hrest).
           intros j r Hj. apply Hok. right; exact Hj.
Qed.

(** ** One pass of the polling loop *)

(** The case analysis of one iteration of [scan], on a hypothesis [H]
    that names the result of the pass. *)
Ltac scan_step H Hrun Hrow Hdone Hrest :=
  cbn [scan] in H;
  match type of H with
  | context [status (fd (advance ?k ?c)) =? TS_RUNNING] =>
      destruct (status (fd (advance k c)) =? TS_RUNNING) eqn:Hrun;
      [ | match type of H with
          | context [is_empty ?s] =>
              destruct (is_empty s) eqn:Hrow;
              [ | destruct (status (fd (advance k c)) =? TS_DONE) eqn:Hdone ]
          end ]
  end;
  match type of H with
  | context [scan ?d ?fn ?i ?l ?t ?cmd] =>
      let rest' := fresh "rest'" in
      let t1 := fresh "t1" in
      let cmd1 := fresh "cmd1" in
      let tr1 := fresh "tr1" in
      destruct (scan d fn i l t cmd) as [[[rest' t1] cmd1] tr1] eqn:Hrest
  end;
  inversion H; subst; clear H.

Lemma scan_events (fdata : list cell) :
  forall d ifiles i t cmd fdata' t' cmd' tr,
    scan d ifiles i fdata t cmd = (fdata', t', cmd', tr) ->
    forall ev, In ev tr ->
               exists j r c, ev = Reaped j r c /\ is_empty (row ifiles j) = false.
Proof.
  induction fdata as [|c rest IH]; intros d ifiles i t cmd fdata' t' cmd' tr H.
  - simpl in H. inversion H; subst. intros ev [].
  - scan_step H Hrun Hrow Hdone Hrest;
      try exact (IH _ _ _ _ _ _ _ _ _ Hrest).
    intros ev [Heq | Hin].
    + subst ev. eexists _, _, _. split; [reflexivity | exact Hrow].
    + exact (IH _ _ _ _ _ _ _ _ _ Hrest ev Hin).
Qed.


Lemma scan_settles (fdata : list cell) :
  forall d ifiles i t cmd fdata' t' cmd' tr,
    scan d ifiles i fdata t cmd = (fdata', t', cmd', tr) ->
    Forall settles fdata -> Forall settles fdata'.
Proof.
  induction fdata as [|c rest IH]; intros d ifiles i t cmd fdata' t' cmd' tr H Hall.
  - simpl in H. inversion H; subst. constructor.
  - inversion Hall as [|c0 rest0 Hc Hrest0]; subst.
    scan_step H Hrun Hrow Hdone Hrest;
      (constructor; [|exact (IH _ _ _ _ _ _ _ _ _ Hrest Hrest0)]);
      try (apply settles_advance; exact Hc).
    apply settles_set_status; [discriminate|].
    apply settles_advance, settles_advance; exact Hc.
Qed.

Lemma scan_clean (fdata : list cell) :
  forall d ifiles i t cmd fdata' t' cmd' tr,
    scan d ifiles i fdata t cmd = (fdata', t', cmd', tr) ->
    Forall clean fdata -> Forall clean fdata' /\ cmd' = cmd.
Proof.
  induction fdata as [|c rest IH]; intros d ifiles i t cmd fdata' t' cmd' tr H Hall.
  - simpl in H. inversion H; subst. split; [constructor | reflexivity].
  - inversion Hall as [|c0 rest0 Hc Hrest0]; subst.
    scan_step H Hrun Hrow Hdone Hrest;
      destruct (IH _ _ _ _ _ _ _ _ _ Hrest Hrest0) as [Hcl Hcmd];
      try (split; [constructor; [apply clean_advance; exact Hc | exact Hcl] | exact Hcmd]).
    assert (Hc2 : clean (advance (snd (d i)) (advance (fst (d i)) c)))
      by (apply clean_advance, clean_advance; exact Hc).
    split.
    + constructor; [apply clean_set_status; exact Hc2 | exact Hcl].
    + destruct Hc2 as [Hres _]. rewrite Hres in Hcmd. exact Hcmd.
Qed.

(** A pass over entries whose workers are through, none of them
    [TS_RUNNING], counts no running task. *)
Lemma scan_idle (fdata : list cell) :
  forall d ifiles i t cmd fdata' t' cmd' tr,
    (forall j, d j = (O, O)) ->
    scan d ifiles i fdata t cmd = (fdata', t', cmd', tr) ->
    Forall idle fdata -> t' = t.
Proof.
  induction fdata as [|c rest IH]; intros d ifiles i t cmd fdata' t' cmd' tr Hd H Hall.
  - simpl in H. inversion H; subst. reflexivity.
  - inversion Hall as [|c0 rest0 Hc Hrest0]; subst.
    scan_step H Hrun Hrow Hdone Hrest;
      try exact (IH _ _ _ _ _ _ _ _ _ Hd Hrest Hrest0).
    exfalso. rewrite Hd in Hrun. apply Z.eqb_eq in Hrun.
    destruct Hc as [_ Hc]. apply Hc. exact Hrun.
Qed.

(** ** The polling loop *)

Lemma clean_finish (c : cell) : clean c -> clean (finish c).
Proof.
  intros [Hres Hpend]. split; simpl.
  - apply result_stays_ok; assumption.
  - intros r [].
Qed.

Lemma poll_events (ps : list (nat -> nat * nat)) :
  forall ifiles fdata cmd o fdata' tr,
    poll ps ifiles fdata cmd = (o, fdata', tr) ->
    forall ev, In ev tr ->
               exists j r c, ev = Reaped j r c /\ is_empty (row ifiles j) = false.
Proof.
  induction ps as [|d ps IH]; intros ifiles fdata cmd o fdata' tr H; cbn [poll] in H.
  - destruct (scan (fun _ => (O, O)) ifiles O (map finish fdata) 0 cmd)
      as [[[f1 t1] c1] tr1] eqn:Hscan.
    destruct (t1 =? 0); inversion H; subst; exact (scan_events _ _ _ _ _ _ _ _ _ _ Hscan).
  - destruct (scan d ifiles O fdata 0 cmd) as [[[f1 t1] c1] tr1] eqn:Hscan.
    destruct (t1 =? 0).
    + inversion H; subst. exact (scan_events _ _ _ _ _ _ _ _ _ _ Hscan).
    + destruct (poll ps ifiles f1 c1) as [[o2 f2] tr2] eqn:Hpoll.
      inversion H; subst. intros ev Hin. apply in_app_or in Hin as [Hin | Hin].
      * exact (scan_events _ _ _ _ _ _ _ _ _ _ Hscan ev Hin).
      * exact (IH _ _ _ _ _ _ Hpoll ev Hin).
Qed.


(** The loop ends when every started worker stores [TS_DONE] after
    [main] has stored [TS_RUNNING]. *)
Lemma poll_exits (ps : list (nat -> nat * nat)) :
  forall ifiles fdata cmd o fdata' tr,
    poll ps ifiles fdata cmd = (o, fdata', tr) ->
    Forall settles fdata ->
    exists c, o = Exit c.
Proof.
  induction ps as [|d ps IH]; intros ifiles fdata cmd o fdata' tr H Hall; cbn [poll] in H.
  - destruct (scan (fun _ => (O, O)) ifiles O (map finish fdata) 0 cmd)
      as [[[f1 t1] c1] tr1] eqn:Hscan.
    assert (Hidle : Forall idle (map finish fdata)).
    { apply Forall_map. eapply Forall_impl; [|exact Hall].
      intros c Hc. apply idle_finish; exact Hc. }
    rewrite (scan_idle _ _ _ _ _ _ _ _ _ _ (fun _ => eq_refl) Hscan Hidle) in H.
    simpl in H. inversion H; subst. eexists; reflexivity.
  - destruct (scan d ifiles O fdata 0 cmd) as [[[f1 t1] c1] tr1] eqn:Hscan.
    destruct (t1 =? 0).
    + inversion H; subst. eexists; reflexivity.
    + destruct (poll ps ifiles f1 c1) as [[o2 f2] tr2] eqn:Hpoll.
      inversion H; subst.
      exact (IH _ _ _ _ _ _ Hpoll (scan_settles _ _ _ _ _ _ _ _ _ _ Hscan Hall)).
Qed.

Lemma poll_clean (ps : list (nat -> nat * nat)) :
  forall ifiles fdata cmd o fdata' tr,
    poll ps ifiles fdata cmd = (o, fdata', tr) ->
    Forall clean fdata ->
    forall c, o = Exit c -> c = cmd.
Proof.
  induction ps as [|d ps IH]; intros ifiles fdata cmd o fdata' tr H Hall; cbn [poll] in H.
  - destruct (scan (fun _ => (O, O)) ifiles O (map finish fdata) 0 cmd)
      as [[[f1 t1] c1] tr1] eqn:Hscan.
    assert (Hfin : Forall clean (map finish fdata)).
    { apply Forall_map. eapply Forall_impl; [|exact Hall].
      intros c Hc. apply clean_finish; exact Hc. }
    destruct (scan_clean _ _ _ _ _ _ _ _ _ _ Hscan Hfin) as [_ Hcmd].
    destruct (t1 =? 0); inversion H; subst; intros c Hc; inversion Hc; reflexivity.
  - destruct (scan d ifiles O fdata 0 cmd) as [[[f1 t1] c1] tr1] eqn:Hscan.
    destruct (scan_clean _ _ _ _ _ _ _ _ _ _ Hscan Hall) as [Hcl Hcmd].
    destruct (t1 =? 0).
    + inversion H; subst. intros c Hc; inversion Hc; reflexivity.
    + destruct (poll ps ifiles f1 c1) as [[o2 f2] tr2] eqn:Hpoll.
      inversion H; subst. exact (IH _ _ _ _ _ _ Hpoll Hcl).
Qed.

(** ** Runs that reach the dispatch *)

Lemma reaped_silent (tr : list event) (i : nat) (r c : Z) :
  reaped tr = [] -> ~ In (Reaped i r c) tr.
Proof.
  induction tr as [|ev tr IH]; intros Hsilent Hin; [exact Hin|].
  destruct Hin as [Heq | Hin].
  - subst ev. discriminate.
  - destruct ev; simpl in Hsilent; try discriminate; exact (IH Hsilent Hin).
Qed.

Lemma worker_ok_writes (e : worker_env) (fdata : filedata) :
  result (worker_final e fdata) = EXIT_OK ->
  forall r, In (WResult r) (writes (copyFile e fdata)) -> r = EXIT_OK.
Proof.
  unfold worker_final.
  destruct (copyFile_writes e fdata) as [[r0 [Hr0 Hw]] | Hw]; rewrite Hw.
  - simpl. intros Hres. congruence.
  - intros _ r. simpl. intros [H | [H | [H | [H | [H | [H | []]]]]]];
      inversion H; reflexivity.
Qed.


(** The run ends when no worker stores [TS_DONE] before [main] has
    stored [TS_RUNNING]. *)
Lemma run_exits (inv : invocation) (env : environment) (fl : flags) (n : Z)
    (ifiles ofiles : table) (tr : list event) :
  startup inv = Proceed fl n ifiles ofiles tr ->
  limit_reachable env n = true ->
  (forall j fdata, ~ publishes_early env j fdata) ->
  exists c, outcome_of (main inv env) = Exit c.
Proof.
  intros Hstart Hlim Hsafe.
  destruct (main_proceeds inv env _ _ _ _ _ Hstart) as [Hout _]. rewrite Hout.
  destruct (process_cases fl n ifiles ofiles env)
    as [ifiles1 [ofiles1 [sfiles [tr1 [Hval [[Hno _] | [_ Hrun]]]]]]]; [congruence|].
  destruct Hrun as [fdata [bnumf [tr3 [o [fdata' [tr4 [tr2 Hrun]]]]]]].
  destruct Hrun as [Hdisp [Hpoll [_ [_ Hproc]]]].
  rewrite Hproc. cbn [outcome_of].
  exact (poll_exits _ _ _ _ _ _ _ Hpoll (dispatch_settles _ _ _ _ _ _ _ _ _ _ _ Hsafe Hdisp)).
Qed.

(** And it ends with [EXIT_OK] when, besides, every worker that was
    started ends with [EXIT_OK]. *)
Lemma run_succeeds (inv : invocation) (env : environment) (fl : flags) (n : Z)
    (ifiles ofiles : table) (tr : list event) :
  startup inv = Proceed fl n ifiles ofiles tr ->
  limit_reachable env n = true ->
  (forall j fdata, ~ publishes_early env j fdata) ->
  (forall j fdata,
      In (Created j 0) (trace (main inv env)) ->
      verify fdata = vflag fl ->
      result (worker_final (worker env j) fdata) = EXIT_OK) ->
  outcome_of (main inv env) = Exit EXIT_OK.
Proof.
  intros Hstart Hlim Hsafe Hok.
  destruct (run_exits inv env _ _ _ _ _ Hstart Hlim Hsafe) as [c Hc].
  rewrite Hc. f_equal.
  destruct (main_proceeds inv env _ _ _ _ _ Hstart) as [Hout [Htr _]].
  rewrite Hout in Hc. rewrite Htr in Hok. clear Hout Htr.
  destruct (process_cases fl n ifiles ofiles env)
    as [ifiles1 [ofiles1 [sfiles [tr1 [Hval [[Hno _] | [_ Hrun]]]]]]]; [congruence|].
  destruct Hrun as [fdata [bnumf [tr3 [o [fdata' [tr4 [tr2 Hrun]]]]]]].
  destruct Hrun as [Hdisp [Hpoll [_ [_ Hproc]]]].
  rewrite Hproc in Hc, Hok. cbn [outcome_of trace] in Hc, Hok.
  apply (poll_clean _ _ _ _ _ _ _ Hpoll); [|exact Hc].
  apply (dispatch_clean _ _ _ _ _ _ _ _ _ _ _ Hdisp).
  intros j r Hj. apply worker_ok_writes. apply Hok; [|reflexivity].
  apply in_or_app; right. apply in_or_app; right. apply in_or_app; right.
  apply in_or_app; left. exact Hj.
Qed.


(** C1, as the code has it.  When twice the number of files exceeds the
    hard limit (the soft limit not being above the hard one), the run
    exits with [READ_ERROR], which is 1, and no worker was created. *)
Theorem descriptor_limit_exit_code (inv : invocation) (env : environment)
    (fl : flags) (n : Z) (ifiles ofiles : table) (tr : list event) :
  startup inv = Proceed fl n ifiles ofiles tr ->
  rlim_cur env <= rlim_max env ->
  2 * n > rlim_max env ->
  outcome_of (main inv env) = Exit READ_ERROR /\
  (forall i t, ~ In (Created i t) (trace (main inv env))).
Proof.
  intros Hstart Hsoft Hhard.
  destruct (main_proceeds inv env _ _ _ _ _ Hstart) as [Hout [Htr _]].
  rewrite Hout, Htr.
  assert (Hlim : limit_reachable env n = false).
  { unfold limit_reachable.
    destruct (Z.ltb_spec (rlim_cur env) (n + n)); [|lia].
    destruct (Z.gtb_spec (n + n) (rlim_max env)); [reflexivity | lia]. }
  destruct (process_cases fl n ifiles ofiles env)
    as [ifiles1 [ofiles1 [sfiles [tr1 [Hval [[_ Hproc] | [Hyes _]]]]]]]; [|congruence].
  rewrite Hproc. cbn [outcome_of trace]. split; [reflexivity|].
  destruct (validate_events _ _ _ _ _ _ _ _ _ _ Hval) as [_ Hnone].
  intros i t [H | [H | H]]; try discriminate. exact (Hnone i t H).
Qed.

(** C1 does not hold with the code 4: for [-i "a|b|c" -o "x|y|z"] the
    count is 2, the budget 4 exceeds a hard limit of 3, and the run
    exits with 1. *)
Lemma descriptor_limit_not_arg_error :
  fst (get_filenames "a|b|c" []) = 2 /\
  2 * 2 > rlim_max env_low_limit /\
  outcome_of (main inv_three env_low_limit) = Exit 1 /\
  outcome_of (main inv_three env_low_limit) <> Exit ARG_ERROR.
Proof.
  split; [vm_compute; reflexivity|]. split; [reflexivity|].
  split; [vm_compute; reflexivity | vm_compute; discriminate].
Qed.

(** X30. In a run that reaches the validation, an index whose input
    file cannot be opened has both its rows cleared; no worker is
    created for it and the polling loop never reads a result for it; and
    the run ends with code 0 provided the descriptor limit can be
    reached, every worker that was started ends with [EXIT_OK], and no
    worker stores [TS_DONE] before [main] has stored [TS_RUNNING]. *)
Theorem missing_input_skipped (inv : invocation) (env : environment) (fl : flags)
    (n : Z) (ifiles ofiles : table) (tr : list event) (i : nat) :
  startup inv = Proceed fl n ifiles ofiles tr ->
  (i < Z.to_nat n)%nat ->
  probe env (row ifiles i) = None ->
  let r := main inv env in
  row (ifiles_of r) i = EmptyString /\
  row (ofiles_of r) i = EmptyString /\
  (forall t, ~ In (Created i t) (trace r)) /\
  (forall x c, ~ In (Reaped i x c) (trace r)) /\
  (limit_reachable env n = true ->
   (forall j fdata, ~ publishes_early env j fdata) ->
   (forall j fdata,
       In (Created j 0) (trace r) ->
       verify fdata = vflag fl ->
       result (worker_final (worker env j) fdata) = EXIT_OK) ->
   outcome_of r = Exit EXIT_OK).
Proof.
  intros Hstart Hi Hprobe r. subst r.
  assert (Hfour :
    row (ifiles_of (main inv env)) i = EmptyString /\
    row (ofiles_of (main inv env)) i = EmptyString /\
    (forall t, ~ In (Created i t) (trace (main inv env))) /\
    (forall x c, ~ In (Reaped i x c) (trace (main inv env)))).
  { destruct (main_proceeds inv env _ _ _ _ _ Hstart) as [_ [Htr [Hif Hof]]].
    rewrite Htr, Hif, Hof.
    destruct (process_cases fl n ifiles ofiles env)
      as [ifiles1 [ofiles1 [sfiles [tr1 [Hval Hcases]]]]].
    destruct (validate_rows _ _ _ _ _ _ _ _ _ _ Hval) as [_ Hcleared].
    destruct (Hcleared i) as [Hrowi Hrowo]; [lia | exact Hprobe |].
    destruct (validate_events _ _ _ _ _ _ _ _ _ _ Hval) as [Hsilent1 Hnone1].
    assert (Hempty : is_empty (row ifiles1 i) = true) by (now apply is_empty_true).
    destruct Hcases as [[_ Hproc] | [_ Hrun]].
    - rewrite Hproc. cbn [ifiles_of ofiles_of trace].
      split; [exact Hrowi|]. split; [exact Hrowo|]. split.
      + intros t [H | [H | H]]; try discriminate. exact (Hnone1 i t H).
      + intros x c [H | [H | H]]; try discriminate.
        exact (reaped_silent _ _ _ _ Hsilent1 H).
    - destruct Hrun as [fdata [bnumf [tr3 [o [fdata' [tr4 [tr2 Hrun]]]]]]].
      destruct Hrun as [Hdisp [Hpoll [Hsilent2 [Hnone2 Hproc]]]].
      rewrite Hproc. cbn [ifiles_of ofiles_of trace].
      destruct (dispatch_events _ _ _ _ _ _ _ _ _ _ _ Hdisp) as [Hsilent3 Hcreated].
      pose proof (poll_events _ _ _ _ _ _ _ Hpoll) as Hreaped.
      split; [exact Hrowi|]. split; [exact Hrowo|]. split.
      + intros t [H | [H | H]]; try discriminate. cbn [app] in H.
        apply in_app_or in H as [H | H]; [exact (Hnone1 i t H)|].
        apply in_app_or in H as [H | H]; [exact (Hnone2 i t H)|].
        apply in_app_or in H as [H | H].
        * rewrite (Hcreated i t H) in Hempty. discriminate.
        * destruct (Hreaped _ H) as [j [x [c [Heq _]]]]. discriminate.
      + intros x c [H | [H | H]]; try discriminate. cbn [app] in H.
        apply in_app_or in H as [H | H]; [exact (reaped_silent _ _ _ _ Hsilent1 H)|].
        apply in_app_or in H as [H | H]; [exact (reaped_silent _ _ _ _ Hsilent2 H)|].
        apply in_app_or in H as [H | H]; [exact (reaped_silent _ _ _ _ Hsilent3 H)|].
        destruct (Hreaped _ H) as [j [x' [c' [Heq Hrow]]]].
        inversion Heq; subst. rewrite Hrow in Hempty. discriminate. }
  destruct Hfour as [H1 [H2 [H3 H4]]].
  repeat (split; [assumption|]).
  exact (run_succeeds inv env _ _ _ _ _ Hstart).
Qed.

(** ** The statements at concrete runs *)

(** [-i "a|b" -o "a|b"]. *)
Lemma same_arguments_rejected_witness :
  i_argument inv_same = o_argument inv_same /\
  outcome_of (main inv_same env_b_missing) = Exit ARG_ERROR /\
  trace (main inv_same env_b_missing) = [].
Proof.
  split; [reflexivity|].
  apply (same_arguments_rejected inv_same env_b_missing).
  - reflexivity.
  - reflexivity.
Defined.

(** [-i "a|b|c|d" -o "x|y|z"]: the counts are 3 and 2. *)
Lemma different_counts_rejected_witness :
  trace (main inv_uneven env_b_missing) = [Tokenized 3; Tokenized 2] /\
  outcome_of (main inv_uneven env_b_missing) = Exit ARG_ERROR.
Proof.
  split; [vm_compute; reflexivity|].
  apply (different_counts_rejected inv_uneven env_b_missing 3 2 []).
  - vm_compute. reflexivity.
  - discriminate.
Defined.

(** Two tasks and a hard limit of three descriptors. *)
Lemma descriptor_limit_exit_code_witness :
  outcome_of (main inv_three env_low_limit) = Exit READ_ERROR /\
  (forall i t, ~ In (Created i t) (trace (main inv_three env_low_limit))).
Proof.
  apply (descriptor_limit_exit_code inv_three env_low_limit
           (copy_flags "a|b|c" "x|y|z") 2 ["a"; "b"; "c"] ["x"; "y"; "z"]
           [Tokenized 2; Tokenized 2]).
  - vm_compute. reflexivity.
  - discriminate.
  - reflexivity.
Defined.

(** Without verification the worker of [env_copy] ends with [EXIT_OK]. *)
Lemma env_copy_succeeds (fdata : filedata) :
  verify fdata = false -> result (worker_final env_copy fdata) = EXIT_OK.
Proof.
  intros Hv. unfold worker_final, copyFile.
  change (open_in env_copy) with (Some (file_of [x61])).
  change (open_out env_copy) with (Some no_limit).
  rewrite Hv.
  destruct (copy_loop (loop_bound (file_of [x61])) (fopen_r (file_of [x61]))
              (fopen_w no_limit) O) as [[x outfile'] calls] eqn:Hloop.
  vm_compute in Hloop. inversion Hloop; subst. reflexivity.
Qed.

(** Two tasks, the input file of the second one missing: its rows are
    cleared, it is neither started nor reaped, and the run ends with 0. *)
Lemma missing_input_skipped_witness :
  probe env_b_missing (row ["a"; "b"; "c"] 1) = None /\
  row (ifiles_of (main inv_three env_b_missing)) 1 = EmptyString /\
  row (ofiles_of (main inv_three env_b_missing)) 1 = EmptyString /\
  (forall t, ~ In (Created 1 t) (trace (main inv_three env_b_missing))) /\
  (forall x c, ~ In (Reaped 1 x c) (trace (main inv_three env_b_missing))) /\
  outcome_of (main inv_three env_b_missing) = Exit EXIT_OK.
Proof.
  split; [reflexivity|].
  destruct (missing_input_skipped inv_three env_b_missing
              (copy_flags "a|b|c" "x|y|z") 2 ["a"; "b"; "c"] ["x"; "y"; "z"]
              [Tokenized 2; Tokenized 2] 1%nat)
    as [H1 [H2 [H3 [H4 H5]]]].
  - vm_compute. reflexivity.
  - apply Nat.ltb_lt. reflexivity.
  - reflexivity.
  - repeat (split; [assumption|]).
    apply H5.
    + reflexivity.
    + intros j fdata H. exact H.
    + intros j fdata _ Hv. apply env_copy_succeeds. exact Hv.
Defined.


(** ** What the order of the assignments leads to *)

(** The worker of the single task ends with [READ_ERROR]; the polling
    loop reads its status after the store of [TS_DONE] and its result
    before the store of [READ_ERROR]; the run ends with code 0. *)
Lemma failure_lost_between_stores :
  result (worker_final (worker env_stale_result 0) (fdata_ab false)) = READ_ERROR /\
  trace (main inv_single env_stale_result) =
    [Tokenized 1; Tokenized 1; Probed 0 true; Created 0 0; Reaped 0 EXIT_OK EXIT_OK] /\
  outcome_of (main inv_single env_stale_result) = Exit EXIT_OK.
Proof.
  split; [reflexivity|]. split; vm_compute; reflexivity.
Qed.

(** A worker that is through before [main] stores [TS_RUNNING] leaves a
    record that is [TS_RUNNING] for ever: the polling loop does not end. *)
Lemma early_worker_hangs_the_run :
  publishes_early env_early_done 0 (fdata_ab false) /\
  outcome_of (main inv_single env_early_done) = Hang.
Proof.
  split; [vm_compute; tauto | vm_compute; reflexivity].
Qed.

(** ** Runs on which the code misses what it attempts *)

(** C6. [-i "a|b" -o "x"]: the input list has two entries and the
    output list one.  [get_filenames] counts one less than it stored for
    a list with a delimiter and counts the single name of a list without
    one, so both counts are 1: the comparison of line 195 finds nothing,
    the pair ("a", "x") is copied, and the run ends with code 0 instead
    of [ARG_ERROR]. *)
Theorem uneven_lists_accepted :
  get_filenames "a|b" [] = (1, ["a"; "b"]) /\
  get_filenames "x" [] = (1, ["x"]) /\
  trace (main inv_two_one env_all_open) =
    [Tokenized 1; Tokenized 1; Probed 0 true; Created 0 0;
     Reaped 0 EXIT_OK EXIT_OK] /\
  outcome_of (main inv_two_one env_all_open) = Exit EXIT_OK.
Proof.
  split; [vm_compute; reflexivity|]. split; [vm_compute; reflexivity|].
  split; vm_compute; reflexivity.
Qed.

(** C3. Two runs of [-i "a|b|c" -o "x|y|z"], that is of the tasks 0
    and 1, on which the aggregation does not give what it is meant to.
    - Task 1 cannot create its output file and its worker ends with
      [WRITE_ERROR].  The pass of the polling loop reads the status of
      task 1 after the worker stored [TS_DONE] and the result before the
      worker stored [WRITE_ERROR]: both tasks are read with [EXIT_OK],
      the run ends with code 0, and the failing result is still on its
      way.
    - Both copies succeed.  The worker of task 0 has stored [TS_DONE]
      before [main] stores [TS_RUNNING] into the same field (line 280):
      the record stays [TS_RUNNING] and the polling loop does not end. *)
Theorem aggregation_misses_failure :
  (result (worker_final (worker env_result_unseen 1)
             (task_record ["a"; "b"; "c"] ["x"; "y"; "z"] [1; 1] false 1))
   = WRITE_ERROR /\
   trace (main inv_three env_result_unseen) =
     [Tokenized 2; Tokenized 2; Probed 0 true; Probed 1 true;
      Created 0 0; Created 1 0;
      Reaped 0 EXIT_OK EXIT_OK; Reaped 1 EXIT_OK EXIT_OK] /\
   pend (entry (fdata_of (main inv_three env_result_unseen)) 1)
   = [WResult WRITE_ERROR] /\
   outcome_of (main inv_three env_result_unseen) = Exit EXIT_OK) /\
  (result (worker_final (worker env_first_early 0)
             (task_record ["a"; "b"; "c"] ["x"; "y"; "z"] [1; 1] false 0))
   = EXIT_OK /\
   result (worker_final (worker env_first_early 1)
             (task_record ["a"; "b"; "c"] ["x"; "y"; "z"] [1; 1] false 1))
   = EXIT_OK /\
   publishes_early env_first_early 0
     (task_record ["a"; "b"; "c"] ["x"; "y"; "z"] [1; 1] false 0) /\
   outcome_of (main inv_three env_first_early) = Hang).
Proof.
  split.
  - split; [reflexivity|]. split; [vm_compute; reflexivity|].
    split; vm_compute; reflexivity.
  - split; [reflexivity|]. split; [reflexivity|].
    split; [vm_compute; tauto | vm_compute; reflexivity].
Qed.

(** C5. Two runs with the input file "b" missing.
    - [-i "a|b" -o "x|y"]: the count is 1, the validation stops before
      index 1 and never tries "b"; the rows of index 1 keep their names
      instead of being cleared.
    - [-i "a|b|c" -o "x|y|z"]: the count is 2, index 1 is cleared and
      skipped, and the copy of the one valid task 0 succeeds; its worker
      has stored [TS_DONE] before [main] stores [TS_RUNNING] (line 280),
      and the run does not end instead of ending with code 0. *)
Theorem missing_input_not_marked :
  (get_filenames "a|b" [] = (1, ["a"; "b"]) /\
   probe env_b_missing "b" = None /\
   trace (main inv_pair env_b_missing) =
     [Tokenized 1; Tokenized 1; Probed 0 true; Created 0 0;
      Reaped 0 EXIT_OK EXIT_OK] /\
   row (ifiles_of (main inv_pair env_b_missing)) 1 = "b" /\
   row (ofiles_of (main inv_pair env_b_missing)) 1 = "y") /\
  (row (ifiles_of (main inv_three env_b_missing_early)) 1 = EmptyString /\
   row (ofiles_of (main inv_three env_b_missing_early)) 1 = EmptyString /\
   (forall j, In (Created j 0) (trace (main inv_three env_b_missing_early)) ->
              j = O) /\
   result (worker_final (worker env_b_missing_early 0)
             (task_record ["a"; ""; "c"] ["x"; ""; "z"] [1; 0] false 0))
   = EXIT_OK /\
   outcome_of (main inv_three env_b_missing_early) = Hang).
Proof.
  split.
  - split; [vm_compute; reflexivity|]. split; [reflexivity|].
    split; [vm_compute; reflexivity|]. split; vm_compute; reflexivity.
  - split; [vm_compute; reflexivity|]. split; [vm_compute; reflexivity|].
    split.
    + vm_compute. intros j H.
      repeat (destruct H as [H | H]; [try discriminate; inversion H; reflexivity|]).
      destruct H.
    + split; [reflexivity | vm_compute; reflexivity].
Qed.

(** * Further properties *)

(** ** [get_filenames] on every argument *)

(** The loop, whatever the number of tokens: the table receives the
    tokens the loop reaches, and [numf] is their number when they run
    out before the bound and stays 0 otherwise. *)
Lemma token_loop_full (n : nat) :
  forall (s : string) (fn : table),
    token_loop n (length fn) s fn =
      ((if (length (tokens_upto n s) <? n)%nat
        then Z.of_nat (length fn + length (tokens_upto n s)) else 0),
       fn ++ map (fun t => strncpy t PATH_MAX) (tokens_upto n s)).
Proof.
  induction n as [|n IH]; intros s fn; cbn [token_loop tokens_upto].
  - cbn [length map]. now rewrite app_nil_r.
  - destruct (strtok_r s DELIMITER) as [[token saveptr]|].
    + unfold store_row. rewrite store_at_end.
      replace (S (length fn)) with (length (fn ++ [strncpy token PATH_MAX]))
        by (rewrite length_app; simpl; lia).
      rewrite IH. cbn [length map].
      change (S (length (tokens_upto n saveptr)) <? S n)%nat
        with (length (tokens_upto n saveptr) <? n)%nat.
      rewrite length_app, <- app_assoc. cbn [length app].
      destruct (length (tokens_upto n saveptr) <? n)%nat; f_equal. f_equal. lia.
    + cbn [length map]. rewrite app_nil_r, Nat.add_0_r. reflexivity.
Qed.

Lemma tokens_upto_length (n : nat) :
  forall s, (length (tokens_upto n s) <= n)%nat.
Proof.
  induction n as [|n IH]; intros s; cbn [tokens_upto]; [simpl; lia|].
  destruct (strtok_r s DELIMITER) as [[token saveptr]|]; simpl; [|lia].
  specialize (IH saveptr). lia.
Qed.

(** X2. The count [get_filenames] returns is never negative and stays
    below [FILES_MAX]: it is a valid bound for the loops of [main] over
    the tables. *)
Theorem get_filenames_count_bounds (farg : string) (fn : table) :
  0 <= fst (get_filenames farg fn) < Z.of_nat FILES_MAX.
Proof.
  assert (Hmax : (2 <= FILES_MAX)%nat) by (apply Nat.leb_le; vm_compute; reflexivity).
  revert Hmax. unfold get_filenames. generalize FILES_MAX as N. intros N HN.
  destruct (0 <? strlen farg)%nat; [|simpl; lia].
  destruct (strstr farg DELIMITER) as [found|]; [|simpl; lia].
  assert (Hloop : forall n i s t, (1 <= n)%nat ->
            0 <= fst (token_loop n i s t) <= Z.of_nat (i + n) - 1).
  { induction n as [|n IHn]; intros i s t Hn; [lia|]. cbn [token_loop].
    destruct (strtok_r s DELIMITER) as [[token saveptr]|]; [|simpl; lia].
    destruct n as [|n]; [simpl; lia|].
    specialize (IHn (S i) saveptr (store_row t i (strncpy token PATH_MAX))).
    lia. }
  specialize (Hloop N O farg fn).
  destruct (token_loop N 0 farg fn) as [numf fn']. simpl in *.
  destruct (Z.ltb_spec 0 numf); lia.
Qed.

(** ** Tokens *)

Lemma is_delim_bar : is_delim DELIMITER "|" = true.
Proof. reflexivity. Qed.

Lemma skip_delims_no_delim (s : string) :
  match skip_delims DELIMITER s with
  | EmptyString => True
  | String c _ => is_delim DELIMITER c = false
  end.
Proof.
  induction s as [|c s IH]; simpl; [exact I|].
  destruct (is_delim DELIMITER c) eqn:Hc; [exact IH | exact Hc].
Qed.

Lemma split_token_clean (s : string) :
  forallb (fun c => negb (is_delim DELIMITER c))
          (list_ascii_of_string (fst (split_token DELIMITER s))) = true.
Proof.
  induction s as [|c s IH]; simpl; [reflexivity|].
  destruct (is_delim DELIMITER c) eqn:Hc; [reflexivity|].
  destruct (split_token DELIMITER s) as [tok save]. simpl in *.
  now rewrite Hc, IH.
Qed.

(** Every token [strtok_r] hands out is a valid name. *)
Lemma strtok_r_valid (s token saveptr : string) :
  strtok_r s DELIMITER = Some (token, saveptr) -> valid_name token = true.
Proof.
  unfold strtok_r. pose proof (skip_delims_no_delim s) as Hfirst.
  destruct (skip_delims DELIMITER s) as [|c s'] eqn:Hs; [discriminate|].
  cbn [split_token]. rewrite Hfirst.
  pose proof (split_token_clean s') as Hclean.
  destruct (split_token DELIMITER s') as [tok save].
  intros H. inversion H; subst. unfold valid_name. cbn [fst] in Hclean.
  cbn [is_empty negb andb list_ascii_of_string forallb]. now rewrite Hfirst, Hclean.
Qed.

Lemma tokens_upto_valid (n : nat) :
  forall s, Forall (fun t => valid_name t = true) (tokens_upto n s).
Proof.
  induction n as [|n IH]; intros s; cbn [tokens_upto]; [constructor|].
  destruct (strtok_r s DELIMITER) as [[token saveptr]|] eqn:Htok; [|constructor].
  constructor; [exact (strtok_r_valid _ _ _ Htok) | apply IH].
Qed.

Lemma strncpy_nonempty (s : string) (n : nat) :
  (0 < n)%nat -> is_empty s = false -> is_empty (strncpy s n) = false.
Proof.
  unfold strncpy. destruct n as [|n]; [lia|]. destruct s; simpl; auto.
Qed.

Lemma strncpy_chars (s : string) :
  forall n c, In c (list_ascii_of_string (strncpy s n)) -> In c (list_ascii_of_string s).
Proof.
  unfold strncpy. induction s as [|a s IH]; intros [|n] c; simpl; try tauto.
  intros [H | H]; [left; exact H | right; exact (IH n c H)].
Qed.

Lemma strncpy_valid (s : string) (n : nat) :
  (0 < n)%nat -> valid_name s = true -> valid_name (strncpy s n) = true.
Proof.
  unfold valid_name. intros Hn H. apply andb_true_iff in H as [Hne Hcl].
  apply andb_true_iff. split.
  - apply negb_true_iff in Hne. now rewrite strncpy_nonempty.
  - rewrite forallb_forall in *. intros c Hc. apply Hcl. eapply strncpy_chars; exact Hc.
Qed.

Lemma strncpy_short (s : string) :
  forall n, (String.length s <= n)%nat -> strncpy s n = s.
Proof.
  unfold strncpy. induction s as [|a s IH]; intros [|n] Hlen; simpl in *;
    try reflexivity; try lia.
  now rewrite IH by lia.
Qed.

Lemma PATH_MAX_pos : (0 < PATH_MAX)%nat.
Proof. apply Nat.ltb_lt. vm_compute. reflexivity. Qed.

(** An argument without the delimiter has none of its characters equal
    to it. *)
Lemma strstr_none_clean (s : string) :
  strstr s DELIMITER = None ->
  forallb (fun c => negb (is_delim DELIMITER c)) (list_ascii_of_string s) = true.
Proof.
  induction s as [|c s IH]; [reflexivity|].
  cbn [strstr]. unfold DELIMITER at 1. cbn [String.prefix].
  destruct (ascii_dec "|" c) as [Heq | Hne].
  - destruct s; discriminate.
  - intros H. simpl. rewrite (IH H), andb_true_r.
    unfold is_delim. simpl. rewrite orb_false_r.
    apply negb_true_iff. apply Ascii.eqb_neq. congruence.
Qed.

Lemma get_filenames_rows (farg : string) (i : nat) :
  Z.of_nat i < fst (get_filenames farg []) ->
  valid_name (row (snd (get_filenames farg [])) i) = true.
Proof.
  unfold get_filenames.
  destruct (0 <? strlen farg)%nat eqn:Hlen; [|simpl; lia].
  destruct (strstr farg DELIMITER) eqn:Hdelim.
  - pose proof (token_loop_full FILES_MAX farg []) as Hloop.
    cbn [length app] in Hloop. rewrite Hloop. clear Hloop.
    pose proof (tokens_upto_valid FILES_MAX farg) as Hvalid.
    revert Hvalid. generalize (tokens_upto FILES_MAX farg) as ts.
    generalize FILES_MAX as N. intros N ts Hvalid. cbn [fst snd].
    intros Hi.
    assert (Hlt : (i < length ts)%nat).
    { destruct (length ts <? N)%nat; [|simpl in Hi; lia].
      cbn [Nat.add] in Hi. destruct (Z.ltb_spec 0 (Z.of_nat (length ts))); lia. }
    unfold row.
    rewrite (nth_indep _ EmptyString (strncpy EmptyString PATH_MAX))
      by (rewrite length_map; exact Hlt).
    rewrite (map_nth (fun t => strncpy t PATH_MAX)).
    apply strncpy_valid; [exact PATH_MAX_pos|].
    rewrite Forall_forall in Hvalid. apply Hvalid. apply nth_In. exact Hlt.
  - cbn [fst snd]. intros Hi. assert (i = O) by lia. subst i.
    unfold row, store_row. rewrite nth_store_same.
    apply strncpy_valid; [exact PATH_MAX_pos|].
    unfold valid_name. rewrite (strstr_none_clean _ Hdelim), andb_true_r.
    apply Nat.ltb_lt in Hlen. unfold strlen in Hlen.
    destruct farg; [simpl in Hlen; lia | reflexivity].
Qed.

(** X3. Every row below the count [get_filenames] returns holds a valid
    name: it is not empty, so that it cannot be taken for a row that the
    validation cleared, and it does not contain the delimiter. *)
Theorem get_filenames_rows_valid (farg : string) (i : nat) :
  Z.of_nat i < fst (get_filenames farg []) ->
  valid_name (row (snd (get_filenames farg [])) i) = true.
Proof. exact (get_filenames_rows farg i). Qed.

(** [-i "a|b|c"]: the two rows below the count 2. *)
Lemma get_filenames_rows_valid_witness :
  fst (get_filenames "a|b|c" []) = 2 /\
  valid_name (row (snd (get_filenames "a|b|c" [])) 1) = true.
Proof.
  split; [vm_compute; reflexivity|].
  apply (get_filenames_rows_valid "a|b|c" 1).
  vm_compute. reflexivity.
Defined.

(** X1. For every argument that contains the delimiter and has between
    1 and [FILES_MAX - 1] tokens, [get_filenames] stores all the tokens
    and returns their number less one: the last entry of a list with
    several entries is dropped from the count. *)
Theorem get_filenames_drops_last (farg : string) :
  strstr farg DELIMITER <> None ->
  (1 <= length (tokens farg) < FILES_MAX)%nat ->
  get_filenames farg [] =
    (Z.of_nat (length (tokens farg)) - 1,
     map (fun t => strncpy t PATH_MAX) (tokens farg)).
Proof. exact (get_filenames_undercounts farg). Qed.

(** ["a|b|c"] has three tokens and the count 2. *)
Lemma get_filenames_drops_last_witness :
  get_filenames "a|b|c" [] = (2, ["a"; "b"; "c"]).
Proof.
  rewrite (get_filenames_drops_last "a|b|c").
  - vm_compute. reflexivity.
  - discriminate.
  - split; apply Nat.leb_le; vm_compute; reflexivity.
Defined.

(** ** Lists of names and their arguments *)

Lemma split_token_app (a rest : string) :
  forallb (fun c => negb (is_delim DELIMITER c)) (list_ascii_of_string a) = true ->
  split_token DELIMITER (String.append a (String "|" rest)) = (a, rest).
Proof.
  induction a as [|c a IH]; intros Hclean; simpl in *; [reflexivity|].
  apply andb_true_iff in Hclean as [Hc Ha]. apply negb_true_iff in Hc.
  fold (is_delim DELIMITER c). rewrite Hc, (IH Ha). reflexivity.
Qed.

Lemma split_token_whole (a : string) :
  forallb (fun c => negb (is_delim DELIMITER c)) (list_ascii_of_string a) = true ->
  split_token DELIMITER a = (a, EmptyString).
Proof.
  induction a as [|c a IH]; intros Hclean; simpl in *; [reflexivity|].
  apply andb_true_iff in Hclean as [Hc Ha]. apply negb_true_iff in Hc.
  fold (is_delim DELIMITER c). rewrite Hc, (IH Ha). reflexivity.
Qed.

Lemma valid_name_inv (a : string) :
  valid_name a = true ->
  exists c a', a = String c a' /\ is_delim DELIMITER c = false /\
    forallb (fun c => negb (is_delim DELIMITER c)) (list_ascii_of_string a) = true.
Proof.
  unfold valid_name. intros H. apply andb_true_iff in H as [Hne Hclean].
  destruct a as [|c a']; [discriminate|]. exists c, a'.
  split; [reflexivity|]. split; [|exact Hclean].
  simpl in Hclean. apply andb_true_iff in Hclean as [Hc _].
  now apply negb_true_iff in Hc.
Qed.

Lemma strtok_r_first (a rest : string) :
  valid_name a = true ->
  strtok_r (String.append a (String.append DELIMITER rest)) DELIMITER = Some (a, rest).
Proof.
  intros Hvalid. destruct (valid_name_inv a Hvalid) as [c [a' [-> [Hc Hclean]]]].
  unfold strtok_r. change (String.append DELIMITER rest) with (String "|" rest).
  cbn [String.append skip_delims]. rewrite Hc.
  change (String c (String.append a' (String "|" rest)))
    with (String.append (String c a') (String "|" rest)).
  now rewrite split_token_app.
Qed.

Lemma strtok_r_last (a : string) :
  valid_name a = true -> strtok_r a DELIMITER = Some (a, EmptyString).
Proof.
  intros Hvalid. destruct (valid_name_inv a Hvalid) as [c [a' [-> [Hc Hclean]]]].
  unfold strtok_r. cbn [skip_delims]. rewrite Hc. now rewrite split_token_whole.
Qed.

Lemma tokens_upto_empty (n : nat) : tokens_upto n EmptyString = [].
Proof. destruct n; reflexivity. Qed.

(** Splitting what [join] put together gives the names back. *)
Lemma tokens_upto_join (l : list string) :
  forall n, Forall (fun a => valid_name a = true) l -> (length l <= n)%nat ->
            tokens_upto n (join l) = l.
Proof.
  induction l as [|a l IH]; intros n Hvalid Hlen.
  - apply tokens_upto_empty.
  - inversion Hvalid as [|a0 l0 Ha Hl]; subst.
    destruct n as [|n]; [simpl in Hlen; lia|].
    cbn [tokens_upto join]. destruct l as [|b l].
    + rewrite (strtok_r_last a Ha). now rewrite tokens_upto_empty.
    + rewrite (strtok_r_first a _ Ha). f_equal.
      apply IH; [exact Hl | simpl in *; lia].
Qed.

Lemma strstr_append (a rest : string) :
  strstr (String.append a (String "|" rest)) DELIMITER <> None.
Proof.
  induction a as [|c a IH]; cbn [String.append strstr].
  - destruct rest; simpl; discriminate.
  - destruct (String.prefix DELIMITER (String c (String.append a (String "|" rest))));
      [discriminate | exact IH].
Qed.

Lemma strstr_clean (s : string) :
  forallb (fun c => negb (is_delim DELIMITER c)) (list_ascii_of_string s) = true ->
  strstr s DELIMITER = None.
Proof.
  induction s as [|c s IH]; intros Hclean; [reflexivity|].
  simpl in Hclean. apply andb_true_iff in Hclean as [Hc Hs].
  cbn [strstr]. unfold DELIMITER at 1. cbn [String.prefix].
  destruct (ascii_dec "|" c) as [Heq | Hne].
  - subst c. discriminate.
  - exact (IH Hs).
Qed.

(** X4. For a list of one to [FILES_MAX - 1] valid names, each shorter
    than [PATH_MAX], [get_filenames] on the names joined by the
    delimiter stores exactly these names, in order; it returns 1 for a
    single name and the number of names less one otherwise. *)
Theorem get_filenames_join (l : list string) :
  Forall (fun a => valid_name a = true) l ->
  Forall (fun a => (String.length a < PATH_MAX)%nat) l ->
  (1 <= length l < FILES_MAX)%nat ->
  get_filenames (join l) [] = (Z.max 1 (Z.of_nat (length l) - 1), l).
Proof.
  intros Hvalid Hshort [Hone Hmax].
  assert (Hmap : map (fun t => strncpy t PATH_MAX) l = l).
  { clear - Hshort. induction Hshort as [|a l Ha Hl IH]; [reflexivity|].
    simpl. rewrite IH, strncpy_short by lia. reflexivity. }
  destruct l as [|a [|b l]]; [simpl in Hone; lia | |].
  - inversion Hvalid as [|a0 l0 Ha _]; subst. cbn [join].
    destruct (valid_name_inv a Ha) as [c [a' [Heq [_ Hclean]]]].
    rewrite get_filenames_single.
    + inversion Hmap as [Hcopy]. rewrite !Hcopy. reflexivity.
    + rewrite Heq. discriminate.
    + exact (strstr_clean a Hclean).
  - assert (Htok : tokens (join (a :: b :: l)) = a :: b :: l).
    { unfold tokens. apply tokens_upto_join; [exact Hvalid | lia]. }
    rewrite get_filenames_undercounts.
    + rewrite Htok, Hmap. f_equal. cbn [length]. lia.
    + cbn [join]. apply strstr_append.
    + rewrite Htok. split; [simpl; lia | exact Hmax].
Qed.

(** Three names. *)
Lemma get_filenames_join_witness :
  join ["in.txt"; "b"; "c"] = "in.txt|b|c" /\
  get_filenames "in.txt|b|c" [] = (2, ["in.txt"; "b"; "c"]).
Proof.
  split; [reflexivity|].
  apply (get_filenames_join ["in.txt"; "b"; "c"]).
  - repeat constructor.
  - repeat constructor; apply Nat.ltb_lt; vm_compute; reflexivity.
  - split; apply Nat.leb_le; vm_compute; reflexivity.
Defined.

(** ** More tokens than the table has rows *)

Lemma strstr_many (n : nat) : (0 < n)%nat -> strstr (many n) DELIMITER <> None.
Proof.
  destruct n as [|n]; [lia|]. intros _. destruct n; simpl; discriminate.
Qed.

Lemma tokens_upto_many (n : nat) :
  forall m, (n <= m)%nat -> length (tokens_upto n (many m)) = n.
Proof.
  induction n as [|n IH]; intros m Hle; [reflexivity|].
  destruct m as [|m]; [lia|].
  change (tokens_upto (S n) (many (S m))) with ("a" :: tokens_upto n (many m)).
  simpl. rewrite IH by lia. reflexivity.
Qed.

(** X5. When the argument has [FILES_MAX] tokens or more, the loop of
    [get_filenames] runs to its bound without ever assigning [numf],
    and the function returns 0: the run then copies nothing. *)
Theorem get_filenames_too_many (farg : string) :
  strstr farg DELIMITER <> None ->
  length (tokens farg) = FILES_MAX ->
  fst (get_filenames farg []) = 0.
Proof.
  unfold get_filenames, tokens. intros Hdelim Hfull.
  destruct (0 <? strlen farg)%nat; [|reflexivity].
  destruct (strstr farg DELIMITER) as [found|]; [|congruence].
  pose proof (token_loop_full FILES_MAX farg []) as Hloop.
  cbn [length app] in Hloop. rewrite Hloop, Hfull, Nat.ltb_irrefl. reflexivity.
Qed.

(** The argument with [FILES_MAX] entries ["a"]. *)
Lemma get_filenames_too_many_witness :
  fst (get_filenames (many FILES_MAX) []) = 0.
Proof.
  apply get_filenames_too_many.
  - apply strstr_many. apply Nat.ltb_lt. vm_compute. reflexivity.
  - unfold tokens. apply tokens_upto_many. apply Nat.le_refl.
Defined.

(** ** What a worker writes *)

Lemma fwrite_appends (buf : list byte) (f f' : wfile) (n : nat) :
  fwrite buf f = (n, f') ->
  (n <= length buf)%nat /\ w_data f' = w_data f ++ firstn n buf.
Proof.
  unfold fwrite. destruct (w_room f) as [k|].
  - destruct (Nat.leb_spec (length buf) k); intros Hw; inversion Hw; subst; simpl.
    + rewrite firstn_all. split; [lia | reflexivity].
    + split; [lia | reflexivity].
  - intros Hw; inversion Hw; subst; simpl. rewrite firstn_all. split; [lia | reflexivity].
Qed.

(** The output stream only ever receives a prefix of the input. *)
Lemma copy_loop_prefix (fuel : nat) :
  forall (infile : rfile) (outfile : wfile) (calls : nat),
  exists p q,
    r_data infile = p ++ q /\
    w_data (snd (fst (copy_loop fuel infile outfile calls))) = w_data outfile ++ p.
Proof.
  induction fuel as [|fuel IH]; intros infile outfile calls; cbn [copy_loop].
  - exists [], (r_data infile). simpl. now rewrite app_nil_r.
  - destruct (feof infile).
    { exists [], (r_data infile). simpl. now rewrite app_nil_r. }
    destruct (fread BLOCKSIZE infile) as [ibuffer infile'] eqn:Hrd.
    pose proof (fread_split _ _ _ _ Hrd) as Hsplit.
    destruct (Z.of_nat (length ibuffer) <=? 0).
    { exists [], (r_data infile).
      destruct (feof infile'); simpl; now rewrite app_nil_r. }
    destruct (fwrite ibuffer outfile) as [n outfile'] eqn:Hwr.
    destruct (fwrite_appends _ _ _ _ Hwr) as [Hn Hout].
    destruct (Z.eqb_spec (Z.of_nat n) (Z.of_nat (length ibuffer))) as [Heq | Hne];
      cbn [negb].
    + apply Nat2Z.inj in Heq. subst n. rewrite firstn_all in Hout.
      destruct (IH infile' outfile' (S calls)) as [p [q [Hpq Hw]]].
      exists (ibuffer ++ p), q. split.
      * rewrite Hsplit, Hpq. now rewrite app_assoc.
      * rewrite Hw, Hout. now rewrite app_assoc.
    + exists (firstn n ibuffer), (skipn n ibuffer ++ r_data infile'). split.
      * rewrite Hsplit, app_assoc, firstn_skipn. reflexivity.
      * exact Hout.
Qed.

(** The input and output side of a worker that has both files open. *)
Lemma copyFile_io (e : worker_env) (fdata : filedata) (isrc : source) (osnk : sink) :
  open_in e = Some isrc ->
  open_out e = Some osnk ->
  written (copyFile e fdata) =
    w_data (snd (fst (copy_loop (loop_bound isrc) (fopen_r isrc) (fopen_w osnk) O))) /\
  fwrite_calls (copyFile e fdata) =
    snd (copy_loop (loop_bound isrc) (fopen_r isrc) (fopen_w osnk) O).
Proof.
  intros Hin Hout. unfold copyFile. rewrite Hin, Hout.
  destruct (copy_loop (loop_bound isrc) (fopen_r isrc) (fopen_w osnk) O)
    as [[[| r |] outfile'] calls]; cbn [fst snd]; try (split; reflexivity).
  destruct (verify fdata); [|split; reflexivity].
  destruct (reopen_in e) as [vsrc|]; [|split; reflexivity].
  destruct (reopen_out e) as [vout|]; [|split; reflexivity].
  destruct (verify_loop (loop_bound vsrc) (fopen_r vsrc) (fopen_r vout));
    split; reflexivity.
Qed.

(** X6. Whatever happens to a worker, the bytes its output stream
    accepted are a prefix of the content of its input file; a worker
    that cannot open its input file writes nothing. *)
Theorem written_is_prefix_of_input (e : worker_env) (fdata : filedata) :
  match open_in e with
  | Some isrc => exists rest, src_data isrc = written (copyFile e fdata) ++ rest
  | None => written (copyFile e fdata) = []
  end.
Proof.
  destruct (open_in e) as [isrc|] eqn:Hin.
  - destruct (open_out e) as [osnk|] eqn:Hout.
    + destruct (copyFile_io e fdata isrc osnk Hin Hout) as [Hw _]. rewrite Hw.
      destruct (copy_loop_prefix (loop_bound isrc) (fopen_r isrc) (fopen_w osnk) O)
        as [p [q [Hpq Hp]]].
      exists q. rewrite Hp. exact Hpq.
    + exists (src_data isrc). unfold copyFile. rewrite Hin, Hout. reflexivity.
  - unfold copyFile. rewrite Hin. reflexivity.
Qed.

Lemma wfile_eta (f : wfile) (room : option nat) :
  w_room f = room -> f = {| w_data := w_data f ++ []; w_room := room |}.
Proof. destruct f; simpl. intros ->. now rewrite app_nil_r. Qed.

(** A file that ends regularly goes to a device without limit as it
    is. *)
Lemma copy_loop_copies (fuel : nat) :
  forall (infile : rfile) (outfile : wfile) (calls : nat),
    r_end infile = AtEOF ->
    feof infile = false ->
    w_room outfile = None ->
    (length (r_data infile) + 2 <= fuel)%nat ->
    exists calls',
      copy_loop fuel infile outfile calls =
        (LoopEnd, {| w_data := w_data outfile ++ r_data infile; w_room := None |}, calls').
Proof.
  induction fuel as [|fuel IH]; intros infile outfile calls Hend Heof Hroom Hlen; [lia|].
  cbn [copy_loop]. rewrite Heof. unfold fread at 1.
  destruct (Nat.leb_spec BLOCKSIZE (length (r_data infile))) as [Hfull | Hlast].
  - rewrite length_firstn, Nat.min_l by exact Hfull.
    destruct (Z.leb_spec (Z.of_nat BLOCKSIZE) 0); [pose proof BLOCKSIZE_pos; lia|].
    unfold fwrite. rewrite Hroom, length_firstn, Nat.min_l, Z.eqb_refl by exact Hfull.
    cbn [negb].
    edestruct IH as [calls' Hloop]; [| | | | rewrite Hloop];
      cbn [r_end r_eof feof r_data w_room w_data]; try assumption; try reflexivity.
    + rewrite length_skipn. pose proof BLOCKSIZE_pos. lia.
    + exists calls'. now rewrite <- app_assoc, firstn_skipn.
  - rewrite Hend.
    destruct (Z.leb_spec (Z.of_nat (length (r_data infile))) 0) as [Hzero | Hpos].
    + cbn [feof r_eof]. exists calls.
      assert (Hnil : r_data infile = []) by (destruct (r_data infile); [reflexivity | simpl in Hzero; lia]).
      rewrite Hnil. now rewrite <- (wfile_eta outfile None Hroom).
    + unfold fwrite. rewrite Hroom, Z.eqb_refl. cbn [negb].
      destruct fuel as [|fuel]; [lia|]. cbn [copy_loop feof r_eof].
      exists (S calls). reflexivity.
Qed.

Lemma worker_status_done (e : worker_env) (fdata : filedata) :
  status (worker_final e fdata) = TS_DONE.
Proof.
  unfold worker_final.
  destruct (copyFile_writes e fdata) as [[r [_ Hw]] | Hw]; rewrite Hw; reflexivity.
Qed.

Lemma copy_writes_all (e : worker_env) (fdata : filedata) (data : list byte) :
  open_in e = Some (file_of data) ->
  open_out e = Some no_limit ->
  written (copyFile e fdata) = data /\
  (verify fdata = false -> result (worker_final e fdata) = EXIT_OK).
Proof.
  intros Hin Hout.
  destruct (copy_loop_copies (loop_bound (file_of data)) (fopen_r (file_of data))
              (fopen_w no_limit) O eq_refl eq_refl eq_refl) as [calls Hloop].
  { unfold loop_bound. simpl. lia. }
  split.
  - destruct (copyFile_io e fdata _ _ Hin Hout) as [Hw _]. rewrite Hw, Hloop. reflexivity.
  - intros Hv. unfold worker_final, copyFile. rewrite Hin, Hout, Hloop, Hv. reflexivity.
Qed.

(** X7. A worker that reads a file ending regularly and writes to a
    device without limit writes exactly the content of the file, and
    without verification it ends with [TS_DONE] and [EXIT_OK]. *)
Theorem copy_is_exact (e : worker_env) (fdata : filedata) (data : list byte) :
  open_in e = Some (file_of data) ->
  open_out e = Some no_limit ->
  written (copyFile e fdata) = data /\
  (verify fdata = false ->
   status (worker_final e fdata) = TS_DONE /\
   result (worker_final e fdata) = EXIT_OK).
Proof.
  intros Hin Hout. destruct (copy_writes_all e fdata data Hin Hout) as [Hw Hres].
  split; [exact Hw|]. intros Hv. split; [apply worker_status_done | exact (Hres Hv)].
Qed.

(** The copy of "a". *)
Lemma copy_is_exact_witness :
  written (copyFile env_copy (fdata_ab false)) = [x61] /\
  status (worker_final env_copy (fdata_ab false)) = TS_DONE /\
  result (worker_final env_copy (fdata_ab false)) = EXIT_OK.
Proof.
  destruct (copy_is_exact env_copy (fdata_ab false) [x61] eq_refl eq_refl) as [Hw Hres].
  split; [exact Hw | exact (Hres eq_refl)].
Defined.

(** X8. With verification on, a worker that copies a file ending
    regularly to a device without limit, and then reads back the same
    input and exactly what it wrote, ends with [EXIT_OK]. *)
Theorem copy_then_verify_succeeds (e : worker_env) (fdata : filedata)
    (data : list byte) :
  verify fdata = true ->
  open_in e = Some (file_of data) ->
  open_out e = Some no_limit ->
  reopen_in e = Some (file_of data) ->
  reopen_out e = Some (file_of (written (copyFile e fdata))) ->
  status (worker_final e fdata) = TS_DONE /\
  result (worker_final e fdata) = EXIT_OK.
Proof.
  intros Hv Hin Hout Hvin Hvout.
  destruct (copy_writes_all e fdata data Hin Hout) as [Hw _].
  rewrite Hw in Hvout.
  split; [apply worker_status_done|].
  apply (longer_output_passes e fdata data []); try assumption.
  now rewrite app_nil_r.
Qed.

(** The copy of "ab" with verification. *)
Lemma copy_then_verify_succeeds_witness :
  status (worker_final env_quiet (fdata_ab true)) = TS_DONE /\
  result (worker_final env_quiet (fdata_ab true)) = EXIT_OK.
Proof.
  apply (copy_then_verify_succeeds env_quiet (fdata_ab true) [x61; x62]);
    reflexivity.
Defined.

(** ** Failures of the copy *)

(** An input whose reads fail after its content. *)
Lemma copy_loop_read_fault (fuel : nat) :
  forall (infile : rfile) (outfile : wfile) (calls : nat),
    r_end infile = AtFault ->
    feof infile = false ->
    w_room outfile = None ->
    (length (r_data infile) + 2 <= fuel)%nat ->
    exists calls',
      copy_loop fuel infile outfile calls =
        (LoopFail READ_ERROR,
         {| w_data := w_data outfile ++ r_data infile; w_room := None |}, calls').
Proof.
  induction fuel as [|fuel IH]; intros infile outfile calls Hend Heof Hroom Hlen; [lia|].
  cbn [copy_loop]. rewrite Heof. unfold fread at 1.
  destruct (Nat.leb_spec BLOCKSIZE (length (r_data infile))) as [Hfull | Hlast].
  - rewrite length_firstn, Nat.min_l by exact Hfull.
    destruct (Z.leb_spec (Z.of_nat BLOCKSIZE) 0); [pose proof BLOCKSIZE_pos; lia|].
    unfold fwrite. rewrite Hroom, length_firstn, Nat.min_l, Z.eqb_refl by exact Hfull.
    cbn [negb].
    edestruct IH as [calls' Hloop]; [| | | | rewrite Hloop];
      cbn [r_end r_eof feof r_data w_room w_data]; try assumption; try reflexivity.
    + rewrite length_skipn. pose proof BLOCKSIZE_pos. lia.
    + exists calls'. now rewrite <- app_assoc, firstn_skipn.
  - rewrite Hend.
    destruct (Z.leb_spec (Z.of_nat (length (r_data infile))) 0) as [Hzero | Hpos].
    + cbn [feof r_eof]. unfold feof in Heof. rewrite Heof. exists calls.
      assert (Hnil : r_data infile = [])
        by (destruct (r_data infile); [reflexivity | simpl in Hzero; lia]).
      rewrite Hnil. now rewrite <- (wfile_eta outfile None Hroom).
    + unfold fwrite. rewrite Hroom, Z.eqb_refl. cbn [negb].
      edestruct IH as [calls' Hloop]; [| | | | rewrite Hloop];
        cbn [r_end r_eof feof r_data w_room w_data];
        try assumption; try reflexivity; try (simpl; lia).
      exists calls'. now rewrite app_nil_r.
Qed.

(** X10. A worker whose reads of the input fail after some content ends
    with [READ_ERROR]; what was read before the failure has been
    written. *)
Theorem read_fault_is_read_error (e : worker_env) (fdata : filedata)
    (data : list byte) :
  open_in e = Some (faulty_file data) ->
  open_out e = Some no_limit ->
  status (worker_final e fdata) = TS_DONE /\
  result (worker_final e fdata) = READ_ERROR /\
  written (copyFile e fdata) = data.
Proof.
  intros Hin Hout.
  destruct (copy_loop_read_fault (loop_bound (faulty_file data))
              (fopen_r (faulty_file data)) (fopen_w no_limit) O
              eq_refl eq_refl eq_refl) as [calls Hloop].
  { unfold loop_bound. simpl. lia. }
  split; [apply worker_status_done|]. split.
  - unfold worker_final, copyFile. rewrite Hin, Hout, Hloop. reflexivity.
  - destruct (copyFile_io e fdata _ _ Hin Hout) as [Hw _]. rewrite Hw, Hloop. reflexivity.
Qed.

(** An input that fails after "ab". *)
Lemma read_fault_is_read_error_witness :
  status (worker_final env_read_fault (fdata_ab false)) = TS_DONE /\
  result (worker_final env_read_fault (fdata_ab false)) = READ_ERROR /\
  written (copyFile env_read_fault (fdata_ab false)) = [x61; x62].
Proof.
  apply (read_fault_is_read_error env_read_fault (fdata_ab false) [x61; x62]);
    reflexivity.
Defined.

(** ** The results a worker can have *)

Lemma copyFile_results (e : worker_env) (fdata : filedata) :
  (exists r,
      writes (copyFile e fdata) = reset_time ++ exit_with r /\
      (r = READ_ERROR \/ r = WRITE_ERROR \/ (r = VERIFY_ERROR /\ verify fdata = true))) \/
  writes (copyFile e fdata) = reset_time ++ exit_ok (clock_t1 e) (clock_t2 e).
Proof.
  unfold copyFile.
  destruct (open_in e) as [isrc|]; [|left; eexists; split; [reflexivity | auto]].
  destruct (open_out e) as [osnk|]; [|left; eexists; split; [reflexivity | auto]].
  pose proof (copy_loop_ends (loop_bound isrc) (fopen_r isrc) (fopen_w osnk) O) as Hends.
  pose proof (copy_loop_fails (loop_bound isrc) (fopen_r isrc) (fopen_w osnk) O) as Hfails.
  destruct (copy_loop (loop_bound isrc) (fopen_r isrc) (fopen_w osnk) O)
    as [[[| r |] outfile'] calls]; simpl in Hends, Hfails.
  - destruct (verify fdata) eqn:Hv; [|right; reflexivity].
    destruct (reopen_in e) as [vsrc|]; [|left; eexists; split; [reflexivity | auto]].
    destruct (reopen_out e) as [vout|]; [|left; eexists; split; [reflexivity | auto]].
    pose proof (verify_loop_ends (loop_bound vsrc) (fopen_r vsrc) (fopen_r vout)) as Hvends.
    pose proof (verify_loop_fails (loop_bound vsrc) (fopen_r vsrc) (fopen_r vout)) as Hvfails.
    destruct (verify_loop (loop_bound vsrc) (fopen_r vsrc) (fopen_r vout)) as [| r |].
    + right; reflexivity.
    + left; exists r; split; [reflexivity|].
      destruct (Hvfails r eq_refl); subst; auto.
    + exfalso. apply Hvends; [|reflexivity]. unfold loop_bound, fopen_r; simpl; lia.
  - left; exists r; split; [reflexivity|].
    destruct (Hfails r eq_refl); subst; auto.
  - exfalso. apply Hends; [|reflexivity]. unfold loop_bound, fopen_r; simpl; lia.
Qed.

(** X11. The result of a worker is one of [EXIT_OK], [READ_ERROR],
    [WRITE_ERROR], [VERIFY_ERROR], never [ARG_ERROR] or another value;
    and without verification it is never [VERIFY_ERROR]. *)
Theorem worker_result_codes (e : worker_env) (fdata : filedata) :
  (result (worker_final e fdata) = EXIT_OK \/
   result (worker_final e fdata) = READ_ERROR \/
   result (worker_final e fdata) = WRITE_ERROR \/
   result (worker_final e fdata) = VERIFY_ERROR) /\
  (verify fdata = false -> result (worker_final e fdata) <> VERIFY_ERROR).
Proof.
  unfold worker_final.
  destruct (copyFile_results e fdata) as [[r [Hw Hr]] | Hw]; rewrite Hw; simpl.
  - split.
    + destruct Hr as [-> | [-> | [-> _]]]; auto.
    + intros Hv. destruct Hr as [-> | [-> | [_ Hcontra]]]; try discriminate.
      congruence.
  - split; [auto|]. intros _. discriminate.
Qed.

(** ** What the verification establishes *)

Lemma buffers_equal (a : list byte) :
  forall b, length a = length b -> buffers_differ a b = false -> a = b.
Proof.
  induction a as [|x a IH]; intros [|y b] Hlen Hsame; simpl in *;
    try reflexivity; try discriminate.
  destruct (Byte.eqb x y) eqn:Hxy; [|discriminate].
  apply Byte.byte_dec_bl in Hxy. subst y. f_equal. apply IH; [lia | exact Hsame].
Qed.

(** A stream whose end-of-file indicator is set has nothing left; a
    read keeps it that way. *)
Lemma fread_eof_inv (n : nat) (f f' : rfile) (buf : list byte) :
  fread n f = (buf, f') ->
  (feof f = true -> r_data f = []) ->
  feof f' = true -> r_data f' = [].
Proof.
  unfold fread, feof. destruct (Nat.leb_spec n (length (r_data f))) as [Hfull | Hlast];
    intros Hrd Hinv; inversion Hrd; subst; cbn [r_eof r_data].
  - intros Heof. rewrite (Hinv Heof). now rewrite skipn_nil.
  - reflexivity.
Qed.

Lemma fopen_r_fresh (s : source) :
  feof (fopen_r s) = true -> r_data (fopen_r s) = [].
Proof. discriminate. Qed.

(** When the verification loop runs to its end, the output stream
    begins with all that was left of the input stream. *)
Lemma verify_loop_sound (fuel : nat) :
  forall (infile outfile : rfile),
    (feof infile = true -> r_data infile = []) ->
    verify_loop fuel infile outfile = LoopEnd ->
    exists extra, r_data outfile = r_data infile ++ extra.
Proof.
  induction fuel as [|fuel IH]; intros infile outfile Hinv; cbn [verify_loop];
    [discriminate|].
  destruct (feof infile) eqn:Heof.
  { intros _. exists (r_data outfile). now rewrite (Hinv eq_refl). }
  destruct (fread BLOCKSIZE infile) as [ibuffer infile'] eqn:Hrd.
  pose proof (fread_split _ _ _ _ Hrd) as Hsplit.
  assert (Hinv' : feof infile' = true -> r_data infile' = []).
  { apply (fread_eof_inv _ _ _ _ Hrd). rewrite Heof. discriminate. }
  destruct (Z.leb_spec (Z.of_nat (length ibuffer)) 0) as [Hzero | Hpos].
  - destruct (feof infile') eqn:Heof'; [|discriminate].
    intros _. exists (r_data outfile). rewrite Hsplit, (Hinv' eq_refl).
    destruct ibuffer; [reflexivity | simpl in Hzero; lia].
  - destruct (fread (length ibuffer) outfile) as [obuffer outfile'] eqn:Hord.
    pose proof (fread_split _ _ _ _ Hord) as Hosplit.
    destruct (Nat.eqb_spec (length obuffer) (length ibuffer)) as [Hlen | Hlen];
      cbn [negb]; [|discriminate].
    destruct (buffers_differ ibuffer obuffer) eqn:Hdiff; [discriminate|].
    intros Hloop. destruct (IH infile' outfile' Hinv' Hloop) as [extra Hextra].
    exists extra. rewrite Hosplit, Hsplit, Hextra, <- app_assoc.
    f_equal. symmetry. apply buffers_equal; [lia | exact Hdiff].
Qed.

(** With an input that ends regularly and an output that is not
    shorter, the verification loop does not end in a read error. *)
Lemma verify_loop_reads (fuel : nat) :
  forall (infile outfile : rfile),
    r_end infile = AtEOF ->
    (length (r_data infile) <= length (r_data outfile))%nat ->
    verify_loop fuel infile outfile <> LoopFail READ_ERROR.
Proof.
  induction fuel as [|fuel IH]; intros infile outfile Hend Hlen; cbn [verify_loop];
    [discriminate|].
  destruct (feof infile); [discriminate|].
  destruct (fread BLOCKSIZE infile) as [ibuffer infile'] eqn:Hrd.
  pose proof (fread_split _ _ _ _ Hrd) as Hsplit.
  pose proof (fread_keeps_end _ _ _ _ Hrd) as Hend'.
  destruct (Z.leb_spec (Z.of_nat (length ibuffer)) 0) as [Hzero | Hpos].
  - destruct (fread_short _ _ _ _ Hrd) as [Hfull | [_ [_ [Heof _]]]].
    + pose proof BLOCKSIZE_pos. lia.
    + rewrite (Heof Hend). discriminate.
  - rewrite Hsplit, length_app in Hlen.
    unfold fread at 1.
    destruct (Nat.leb_spec (length ibuffer) (length (r_data outfile))); [|lia].
    rewrite length_firstn, Nat.min_l, Nat.eqb_refl by lia. cbn [negb].
    destruct (buffers_differ ibuffer (firstn (length ibuffer) (r_data outfile)));
      [discriminate|].
    apply IH; cbn [r_data]; [congruence|]. rewrite length_skipn. lia.
Qed.

(** The two loops of a worker that ends with [EXIT_OK]. *)
Lemma copyFile_ok_inv (e : worker_env) (fdata : filedata) :
  result (worker_final e fdata) = EXIT_OK ->
  exists isrc osnk,
    open_in e = Some isrc /\ open_out e = Some osnk /\
    fst (fst (copy_loop (loop_bound isrc) (fopen_r isrc) (fopen_w osnk) O)) = LoopEnd /\
    (verify fdata = true ->
     exists vsrc vout,
       reopen_in e = Some vsrc /\ reopen_out e = Some vout /\
       verify_loop (loop_bound vsrc) (fopen_r vsrc) (fopen_r vout) = LoopEnd).
Proof.
  unfold worker_final, copyFile.
  destruct (open_in e) as [isrc|]; [|discriminate].
  destruct (open_out e) as [osnk|]; [|discriminate].
  pose proof (copy_loop_ends (loop_bound isrc) (fopen_r isrc) (fopen_w osnk) O) as Hends.
  pose proof (copy_loop_fails (loop_bound isrc) (fopen_r isrc) (fopen_w osnk) O) as Hfails.
  destruct (copy_loop (loop_bound isrc) (fopen_r isrc) (fopen_w osnk) O)
    as [[[| r |] outfile'] calls] eqn:Hloop; simpl in Hends, Hfails.
  - intros Hres. exists isrc, osnk.
    split; [reflexivity|]. split; [reflexivity|]. split; [now rewrite Hloop|].
    intros Hv. rewrite Hv in Hres.
    destruct (reopen_in e) as [vsrc|]; [|discriminate].
    destruct (reopen_out e) as [vout|]; [|discriminate].
    exists vsrc, vout. split; [reflexivity|]. split; [reflexivity|].
    pose proof (verify_loop_fails (loop_bound vsrc) (fopen_r vsrc) (fopen_r vout)) as Hvfails.
    pose proof (verify_loop_ends (loop_bound vsrc) (fopen_r vsrc) (fopen_r vout)) as Hvends.
    destruct (verify_loop (loop_bound vsrc) (fopen_r vsrc) (fopen_r vout)) as [| r |];
      [reflexivity | | ].
    + simpl in Hres. destruct (Hvfails r eq_refl); subst; discriminate.
    + exfalso. apply Hvends; [|reflexivity]. unfold loop_bound, fopen_r; simpl; lia.
  - simpl. intros Hres. destruct (Hfails r eq_refl); subst; discriminate.
  - exfalso. apply Hends; [|reflexivity]. unfold loop_bound, fopen_r; simpl; lia.
Qed.

(** X12. With verification on, a worker ends with [EXIT_OK] only if the
    output file, as the verification read it, begins with the whole
    content of the input file as the verification read it. *)
Theorem verified_output_starts_with_input (e : worker_env) (fdata : filedata)
    (vsrc vout : source) :
  verify fdata = true ->
  reopen_in e = Some vsrc ->
  reopen_out e = Some vout ->
  result (worker_final e fdata) = EXIT_OK ->
  exists extra, src_data vout = src_data vsrc ++ extra.
Proof.
  intros Hv Hvin Hvout Hres.
  destruct (copyFile_ok_inv e fdata Hres) as [isrc [osnk [_ [_ [_ Hver]]]]].
  destruct (Hver Hv) as [vsrc' [vout' [Hvin' [Hvout' Hloop]]]].
  rewrite Hvin in Hvin'. rewrite Hvout in Hvout'.
  inversion Hvin'; inversion Hvout'; subst.
  apply (verify_loop_sound _ _ _ (fopen_r_fresh _) Hloop).
Qed.

(** The verified copy of "ab". *)
Lemma verified_output_starts_with_input_witness :
  exists extra, [x61; x62] = [x61; x62] ++ extra.
Proof.
  apply (verified_output_starts_with_input env_quiet (fdata_ab true)
           (file_of [x61; x62]) (file_of [x61; x62])); reflexivity.
Defined.

(** X13. With verification on, after a copy that succeeded, a worker
    that reads back an input ending regularly and an output that is not
    shorter but does not begin with that input ends with
    [VERIFY_ERROR]. *)
Theorem difference_is_verify_error (e : worker_env) (fdata : filedata)
    (data vdata : list byte) (vout : source) :
  verify fdata = true ->
  open_in e = Some (file_of data) ->
  open_out e = Some no_limit ->
  reopen_in e = Some (file_of vdata) ->
  reopen_out e = Some vout ->
  (length vdata <= length (src_data vout))%nat ->
  firstn (length vdata) (src_data vout) <> vdata ->
  status (worker_final e fdata) = TS_DONE /\
  result (worker_final e fdata) = VERIFY_ERROR.
Proof.
  intros Hv Hin Hout Hvin Hvout Hlen Hdiff.
  split; [apply worker_status_done|].
  pose proof (copy_loop_succeeds (loop_bound (file_of data))
                (fopen_r (file_of data)) (fopen_w no_limit) O eq_refl eq_refl) as Hcopy.
  pose proof (verify_loop_fails (loop_bound (file_of vdata))
                (fopen_r (file_of vdata)) (fopen_r vout)) as Hfails.
  pose proof (verify_loop_ends (loop_bound (file_of vdata))
                (fopen_r (file_of vdata)) (fopen_r vout)) as Hends.
  pose proof (verify_loop_reads (loop_bound (file_of vdata))
                (fopen_r (file_of vdata)) (fopen_r vout) eq_refl Hlen) as Hreads.
  pose proof (verify_loop_sound (loop_bound (file_of vdata))
                (fopen_r (file_of vdata)) (fopen_r vout) (fopen_r_fresh _)) as Hsound.
  unfold worker_final, copyFile. rewrite Hin, Hout, Hv, Hvin, Hvout.
  destruct (copy_loop (loop_bound (file_of data)) (fopen_r (file_of data))
              (fopen_w no_limit) O) as [[x outfile'] calls].
  simpl in Hcopy. rewrite Hcopy by (unfold loop_bound; simpl; lia).
  destruct (verify_loop (loop_bound (file_of vdata)) (fopen_r (file_of vdata))
              (fopen_r vout)) as [| r |].
  - exfalso. destruct (Hsound eq_refl) as [extra Hextra]. apply Hdiff.
    cbn [fopen_r r_data file_of src_data] in Hextra.
    rewrite Hextra. apply firstn_prefix.
  - destruct (Hfails r eq_refl) as [-> | ->]; [congruence | reflexivity].
  - exfalso. apply Hends; [|reflexivity]. unfold loop_bound, fopen_r; simpl; lia.
Qed.

(** "ab" against "ax". *)
Lemma difference_is_verify_error_witness :
  status (worker_final env_differs (fdata_ab true)) = TS_DONE /\
  result (worker_final env_differs (fdata_ab true)) = VERIFY_ERROR.
Proof.
  apply (difference_is_verify_error env_differs (fdata_ab true)
           [x61; x62] [x61; x62] (file_of [x61; x78])); try reflexivity.
  discriminate.
Defined.

(** X14. With verification on, after a copy that succeeded, a worker
    that finds the output file to be a proper prefix of the input file
    ends with [READ_ERROR]. *)
Theorem shorter_output_is_read_error (e : worker_env) (fdata : filedata)
    (data : list byte) (vsrc vout : source) (missing : list byte) :
  verify fdata = true ->
  open_in e = Some (file_of data) ->
  open_out e = Some no_limit ->
  reopen_in e = Some vsrc ->
  reopen_out e = Some vout ->
  src_data vsrc = src_data vout ++ missing ->
  missing <> [] ->
  status (worker_final e fdata) = TS_DONE /\
  result (worker_final e fdata) = READ_ERROR.
Proof.
  intros Hv Hin Hout Hvin Hvout Hdata Hmiss.
  split; [apply worker_status_done|].
  pose proof (copy_loop_succeeds (loop_bound (file_of data))
                (fopen_r (file_of data)) (fopen_w no_limit) O eq_refl eq_refl) as Hcopy.
  unfold worker_final, copyFile. rewrite Hin, Hout, Hv, Hvin, Hvout.
  destruct (copy_loop (loop_bound (file_of data)) (fopen_r (file_of data))
              (fopen_w no_limit) O) as [[x outfile'] calls].
  simpl in Hcopy. rewrite Hcopy by (unfold loop_bound; simpl; lia).
  rewrite (verify_loop_short_output (loop_bound vsrc) (fopen_r vsrc) (fopen_r vout)
             missing eq_refl Hmiss Hdata); [reflexivity|].
  unfold loop_bound; simpl; lia.
Qed.

(** "ab" against "a". *)
Lemma shorter_output_is_read_error_witness :
  status (worker_final env_shorter_output (fdata_ab true)) = TS_DONE /\
  result (worker_final env_shorter_output (fdata_ab true)) = READ_ERROR.
Proof.
  apply (shorter_output_is_read_error env_shorter_output (fdata_ab true)
           [x61; x62] (file_of [x61; x62]) (file_of [x61]) [x62]); try reflexivity.
  discriminate.
Defined.

(** X15. With verification on, after a copy that succeeded, a worker
    that finds the output file to begin with the content of the input
    file ends with [EXIT_OK], whatever follows in the output file. *)
Theorem output_tail_is_ignored (e : worker_env) (fdata : filedata)
    (data extra : list byte) :
  verify fdata = true ->
  open_in e = Some (file_of data) ->
  open_out e = Some no_limit ->
  reopen_in e = Some (file_of data) ->
  reopen_out e = Some (file_of (data ++ extra)) ->
  status (worker_final e fdata) = TS_DONE /\
  result (worker_final e fdata) = EXIT_OK.
Proof.
  intros Hv Hin Hout Hvin Hvout.
  split; [apply worker_status_done|].
  exact (longer_output_passes e fdata data extra Hv Hin Hout Hvin Hvout).
Qed.

(** "a" against "ab". *)
Lemma output_tail_is_ignored_witness :
  status (worker_final env_longer_output (fdata_ab true)) = TS_DONE /\
  result (worker_final env_longer_output (fdata_ab true)) = EXIT_OK.
Proof.
  apply (output_tail_is_ignored env_longer_output (fdata_ab true) [x61] [x62]);
    reflexivity.
Defined.

(** ** The command line *)

Lemma getopt_loop_unknown (os : list opt) :
  forall fl, In Opt_unknown os -> getopt_loop os fl = None.
Proof.
  induction os as [|o os IH]; intros fl Hin; [destruct Hin|].
  destruct Hin as [-> | Hin]; [reflexivity|].
  cbn [getopt_loop]. destruct (set_opt fl o); [apply IH; exact Hin | reflexivity].
Qed.

Lemma getopt_loop_known (os : list opt) :
  forall fl, ~ In Opt_unknown os -> exists fl', getopt_loop os fl = Some fl'.
Proof.
  induction os as [|o os IH]; intros fl Hnot; [eexists; reflexivity|].
  assert (Hos : ~ In Opt_unknown os) by (intros H; apply Hnot; right; exact H).
  destruct o; cbn [getopt_loop set_opt]; try (apply IH; exact Hos).
  exfalso. apply Hnot. left; reflexivity.
Qed.

(** X16. A command line with an option that [getopt] rejects, or
    without any argument, ends with [ARG_ERROR] before anything is
    done, whatever else it holds. *)
Theorem bad_command_line_rejected (inv : invocation) (env : environment) :
  In Opt_unknown (options inv) \/ argc inv = 1 ->
  outcome_of (main inv env) = Exit ARG_ERROR /\ trace (main inv env) = [].
Proof.
  unfold main, startup. intros [Hbad | Hone].
  - rewrite (getopt_loop_unknown _ flags_init Hbad). split; reflexivity.
  - destruct (getopt_loop (options inv) flags_init); [|split; reflexivity].
    rewrite Hone. split; reflexivity.
Qed.

(** An unknown option between [-i] and [-o]. *)
Lemma bad_command_line_rejected_witness :
  outcome_of (main inv_unknown env_b_missing) = Exit ARG_ERROR /\
  trace (main inv_unknown env_b_missing) = [].
Proof.
  apply (bad_command_line_rejected inv_unknown env_b_missing).
  left. right. left. reflexivity.
Defined.

(** X17. A command line with valid options among which is [-h] ends
    with [EXIT_OK] before anything is done: no list is tokenized, no
    file probed, no worker created, whatever [-i] and [-o] say. *)
Theorem help_exits_ok (inv : invocation) (env : environment) :
  ~ In Opt_unknown (options inv) ->
  argc inv <> 1 ->
  help_requested inv = true ->
  outcome_of (main inv env) = Exit EXIT_OK /\ trace (main inv env) = [].
Proof.
  unfold help_requested. intros Hknown Hargs Hhelp. unfold main, startup.
  destruct (getopt_loop_known (options inv) flags_init Hknown) as [fl Hopt].
  rewrite Hopt. destruct (getopt_loop_flags _ _ _ Hopt) as [Hh _].
  rewrite Hhelp, orb_true_r in Hh. rewrite Hh.
  apply Z.eqb_neq in Hargs. rewrite Hargs. split; reflexivity.
Qed.

(** [-h -i a -o a]. *)
Lemma help_exits_ok_witness :
  outcome_of (main inv_help env_b_missing) = Exit EXIT_OK /\
  trace (main inv_help env_b_missing) = [].
Proof.
  apply (help_exits_ok inv_help env_b_missing).
  - intros [H | [H | [H | []]]]; discriminate.
  - discriminate.
  - reflexivity.
Defined.

(** ** Valid pairs *)

Lemma startup_tables (inv : invocation) (fl : flags) (n : Z)
    (ifiles ofiles : table) (tr : list event) :
  startup inv = Proceed fl n ifiles ofiles tr ->
  get_filenames (ivalue fl) [] = (n, ifiles) /\
  get_filenames (ovalue fl) [] = (n, ofiles).
Proof.
  unfold startup.
  destruct (getopt_loop (options inv) flags_init) as [fl'|]; [|discriminate].
  destruct (argc inv =? 1); [discriminate|].
  destruct (hflag fl'); [discriminate|].
  destruct (strcmp (ivalue fl') (ovalue fl') =? 0); [discriminate|].
  destruct (get_filenames (ivalue fl') []) as [inumf ifiles'] eqn:Hi.
  destruct (get_filenames (ovalue fl') []) as [onumf ofiles'] eqn:Ho.
  destruct (Z.eqb_spec inumf onumf) as [Heq | Hne]; simpl; [|discriminate].
  intros H; inversion H; subst. split; [exact Hi | exact Ho].
Qed.

Lemma valid_name_nonempty (s : string) : valid_name s = true -> is_empty s = false.
Proof.
  unfold valid_name. intros H. apply andb_true_iff in H as [H _].
  now apply negb_true_iff in H.
Qed.

(** The rows below the count are not empty when [main] starts on them. *)
Lemma startup_rows (inv : invocation) (fl : flags) (n : Z)
    (ifiles ofiles : table) (tr : list event) (i : nat) :
  startup inv = Proceed fl n ifiles ofiles tr ->
  (i < Z.to_nat n)%nat ->
  is_empty (row ifiles i) = false /\ is_empty (row ofiles i) = false.
Proof.
  intros Hstart Hi. destruct (startup_tables _ _ _ _ _ _ Hstart) as [Hin Hout].
  split; apply valid_name_nonempty.
  - pose proof (get_filenames_rows (ivalue fl) i) as H. rewrite Hin in H.
    apply H. simpl. lia.
  - pose proof (get_filenames_rows (ovalue fl) i) as H. rewrite Hout in H.
    apply H. simpl. lia.
Qed.

(** The validation leaves alone the rows whose input file opens. *)
Lemma validate_keeps (n : nat) :
  forall (i : nat) (probe : string -> option source) (ifiles ofiles : table)
         (sfiles : list Z) ifiles' ofiles' sfiles' tr,
    validate n i probe ifiles ofiles sfiles = (ifiles', ofiles', sfiles', tr) ->
    forall j, probe (row ifiles j) <> None ->
              row ifiles' j = row ifiles j /\ row ofiles' j = row ofiles j.
Proof.
  induction n as [|n IH]; intros i probe ifiles ofiles sfiles ifiles' ofiles' sfiles' tr H.
  - simpl in H. inversion H; subst. auto.
  - simpl in H. destruct (probe (row ifiles i)) as [infile|] eqn:Hprobe.
    + destruct (validate n (S i) probe ifiles ofiles
                  (store 0 sfiles i (check_file_size (fopen_r infile))))
        as [[[a b] c] d] eqn:Hrest.
      inversion H; subst. exact (IH _ _ _ _ _ _ _ _ _ Hrest).
    + destruct (validate n (S i) probe (store_row ifiles i EmptyString)
                  (store_row ofiles i EmptyString) (store 0 sfiles i 0))
        as [[[a b] c] d] eqn:Hrest.
      inversion H; subst. intros j Hj.
      assert (Hne : i <> j) by (intros ->; congruence).
      destruct (IH _ _ _ _ _ _ _ _ _ Hrest j) as [Hi Ho].
      * rewrite row_store_other by exact Hne. exact Hj.
      * rewrite Hi, Ho, !row_store_other by exact Hne. split; reflexivity.
Qed.

(** The dispatch calls [pthread_create] for every row of its range that
    is not cleared. *)
Lemma dispatch_creates (n : nat) :
  forall (i : nat) env ifiles ofiles sfiles v bnumf cells bnumf' tr,
    dispatch n i env ifiles ofiles sfiles v bnumf = (cells, bnumf', tr) ->
    forall j, (i <= j < i + n)%nat -> is_empty (row ifiles j) = false ->
              In (Created j (create env j)) tr.
Proof.
  induction n as [|n IH]; intros i env ifiles ofiles sfiles v bnumf cells bnumf' tr H j Hj Hrow;
    [lia|].
  simpl in H.
  destruct (Nat.eq_dec j i) as [-> | Hne].
  - rewrite Hrow in H. destruct (negb (create env i =? 0)).
    + destruct (dispatch n (S i) env ifiles ofiles sfiles v (bnumf + 1))
        as [[rest b] tr'].
      inversion H; subst. left; reflexivity.
    + destruct (dispatch n (S i) env ifiles ofiles sfiles v bnumf) as [[rest b] tr'].
      inversion H; subst. left; reflexivity.
  - assert (Hj' : (S i <= j < S i + n)%nat) by lia.
    destruct (is_empty (row ifiles i)).
    + destruct (dispatch n (S i) env ifiles ofiles sfiles v (bnumf + 1))
        as [[rest b] tr'] eqn:Hrest.
      inversion H; subst. exact (IH _ _ _ _ _ _ _ _ _ _ Hrest j Hj' Hrow).
    + destruct (negb (create env i =? 0)).
      * destruct (dispatch n (S i) env ifiles ofiles sfiles v (bnumf + 1))
          as [[rest b] tr'] eqn:Hrest.
        inversion H; subst. right. exact (IH _ _ _ _ _ _ _ _ _ _ Hrest j Hj' Hrow).
      * destruct (dispatch n (S i) env ifiles ofiles sfiles v bnumf)
          as [[rest b] tr'] eqn:Hrest.
        inversion H; subst. right. exact (IH _ _ _ _ _ _ _ _ _ _ Hrest j Hj' Hrow).
Qed.

(** X18. In a run that gets past the sanity checks, a pair whose input
    file opens at the validation keeps both its names, and, when the
    descriptor limit can be reached, [pthread_create] is called for it,
    whatever happened to the pairs before it. *)
Theorem valid_pair_dispatched (inv : invocation) (env : environment) (fl : flags)
    (n : Z) (ifiles ofiles : table) (tr : list event) (i : nat) :
  startup inv = Proceed fl n ifiles ofiles tr ->
  (i < Z.to_nat n)%nat ->
  probe env (row ifiles i) <> None ->
  row (ifiles_of (main inv env)) i = row ifiles i /\
  row (ofiles_of (main inv env)) i = row ofiles i /\
  (limit_reachable env n = true ->
   In (Created i (create env i)) (trace (main inv env))).
Proof.
  intros Hstart Hi Hprobe.
  destruct (main_proceeds inv env _ _ _ _ _ Hstart) as [_ [Htr [Hif Hof]]].
  rewrite Htr, Hif, Hof.
  destruct (startup_rows _ _ _ _ _ _ i Hstart Hi) as [Hrow _].
  destruct (process_cases fl n ifiles ofiles env)
    as [ifiles1 [ofiles1 [sfiles [tr1 [Hval Hcases]]]]].
  destruct (validate_keeps _ _ _ _ _ _ _ _ _ _ Hval i Hprobe) as [Hki Hko].
  destruct Hcases as [[Hno Hproc] | [_ Hrun]].
  - rewrite Hproc. cbn [ifiles_of ofiles_of]. repeat (split; [assumption|]). congruence.
  - destruct Hrun as [fdata [bnumf [tr3 [o [fdata' [tr4 [tr2 Hrun]]]]]]].
    destruct Hrun as [Hdisp [_ [_ [_ Hproc]]]].
    rewrite Hproc. cbn [ifiles_of ofiles_of trace]. repeat (split; [assumption|]).
    intros _. right. right. cbn [app].
    apply in_or_app; right. apply in_or_app; right. apply in_or_app; left.
    apply (dispatch_creates _ _ _ _ _ _ _ _ _ _ _ Hdisp); [lia|].
    rewrite Hki. exact Hrow.
Qed.

(** The first pair of ["a|b|c"], ["x|y|z"] when "b" is missing. *)
Lemma valid_pair_dispatched_witness :
  row (ifiles_of (main inv_three env_b_missing)) 0 = "a" /\
  row (ofiles_of (main inv_three env_b_missing)) 0 = "x" /\
  In (Created 0 0) (trace (main inv_three env_b_missing)).
Proof.
  destruct (valid_pair_dispatched inv_three env_b_missing
              (copy_flags "a|b|c" "x|y|z") 2 ["a"; "b"; "c"] ["x"; "y"; "z"]
              [Tokenized 2; Tokenized 2] 0%nat) as [H1 [H2 H3]].
  - vm_compute. reflexivity.
  - apply Nat.ltb_lt. reflexivity.
  - discriminate.
  - split; [exact H1|]. split; [exact H2|]. exact (H3 eq_refl).
Defined.

(** ** The descriptor limit *)

Lemma validate_probed (n : nat) :
  forall (i : nat) (probe : string -> option source) (ifiles ofiles : table)
         (sfiles : list Z) ifiles' ofiles' sfiles' tr,
    validate n i probe ifiles ofiles sfiles = (ifiles', ofiles', sfiles', tr) ->
    forall v, ~ In (Setrlimit v) tr.
Proof.
  induction n as [|n IH]; intros i probe ifiles ofiles sfiles ifiles' ofiles' sfiles' tr H.
  - simpl in H. inversion H; subst. intros v [].
  - simpl in H. destruct (probe (row ifiles i)) as [infile|].
    + destruct (validate n (S i) probe ifiles ofiles
                  (store 0 sfiles i (check_file_size (fopen_r infile))))
        as [[[a b] c] d] eqn:Hrest.
      inversion H; subst. intros v [Heq | Hin]; [discriminate|].
      exact (IH _ _ _ _ _ _ _ _ _ Hrest v Hin).
    + destruct (validate n (S i) probe (store_row ifiles i EmptyString)
                  (store_row ofiles i EmptyString) (store 0 sfiles i 0))
        as [[[a b] c] d] eqn:Hrest.
      inversion H; subst. intros v [Heq | Hin]; [discriminate|].
      exact (IH _ _ _ _ _ _ _ _ _ Hrest v Hin).
Qed.

Lemma dispatch_no_setrlimit (n : nat) :
  forall (i : nat) env ifiles ofiles sfiles v bnumf cells bnumf' tr,
    dispatch n i env ifiles ofiles sfiles v bnumf = (cells, bnumf', tr) ->
    forall x, ~ In (Setrlimit x) tr.
Proof.
  induction n as [|n IH]; intros i env ifiles ofiles sfiles v bnumf cells bnumf' tr H.
  - simpl in H. inversion H; subst. intros x [].
  - simpl in H. destruct (is_empty (row ifiles i)).
    + destruct (dispatch n (S i) env ifiles ofiles sfiles v (bnumf + 1))
        as [[rest b] tr'] eqn:Hrest.
      inversion H; subst. exact (IH _ _ _ _ _ _ _ _ _ _ Hrest).
    + destruct (negb (create env i =? 0)).
      * destruct (dispatch n (S i) env ifiles ofiles sfiles v (bnumf + 1))
          as [[rest b] tr'] eqn:Hrest.
        inversion H; subst. intros x [Heq | Hin]; [discriminate|].
        exact (IH _ _ _ _ _ _ _ _ _ _ Hrest x Hin).
      * destruct (dispatch n (S i) env ifiles ofiles sfiles v bnumf)
          as [[rest b] tr'] eqn:Hrest.
        inversion H; subst. intros x [Heq | Hin]; [discriminate|].
        exact (IH _ _ _ _ _ _ _ _ _ _ Hrest x Hin).
Qed.

(** X19. A run that gets past the sanity checks with the count [n]
    calls [setrlimit] exactly when the soft limit is below [2 n] and the
    hard limit is not, and then with the value [2 n]: the limit is only
    ever raised, and never above the hard limit. *)
Theorem limit_raised_when_needed (inv : invocation) (env : environment) (fl : flags)
    (n : Z) (ifiles ofiles : table) (tr : list event) (v : Z) :
  startup inv = Proceed fl n ifiles ofiles tr ->
  (In (Setrlimit v) (trace (main inv env)) <->
   v = 2 * n /\ rlim_cur env < v <= rlim_max env).
Proof.
  intros Hstart.
  destruct (main_proceeds inv env _ _ _ _ _ Hstart) as [_ [Htr _]]. rewrite Htr.
  unfold process.
  destruct (validate (Z.to_nat n) O (probe env) ifiles ofiles [])
    as [[[ifiles1 ofiles1] sfiles] tr1] eqn:Hval.
  pose proof (validate_probed _ _ _ _ _ _ _ _ _ _ Hval) as Hno1.
  destruct (Z.ltb_spec (rlim_cur env) (n + n)) as [Hlow | Hhigh];
    destruct (Z.gtb_spec (n + n) (rlim_max env)) as [Hover | Hfits];
    cbn [andb].
  - cbn [trace]. split; [|lia].
    intros [H | [H | H]]; try discriminate. destruct (Hno1 v H).
  - destruct (dispatch (Z.to_nat n) O env ifiles1 ofiles1 sfiles (vflag fl) 0)
      as [[fdata bnumf] tr3] eqn:Hdisp.
    destruct (poll (polls env) ifiles1 fdata 0) as [[o fdata'] tr4] eqn:Hpoll.
    cbn [trace]. split.
    + intros [H | [H | H]]; try discriminate. cbn [app] in H.
      apply in_app_or in H as [H | H]; [destruct (Hno1 v H)|].
      destruct H as [H | H]; [inversion H; lia|]. cbn [app] in H.
      apply in_app_or in H as [H | H].
      * destruct (dispatch_no_setrlimit _ _ _ _ _ _ _ _ _ _ _ Hdisp v H).
      * destruct (poll_events _ _ _ _ _ _ _ Hpoll _ H) as [j [r [c [Heq _]]]].
        discriminate.
    + intros [-> _]. right. right. cbn [app]. apply in_or_app; right.
      left. f_equal. lia.
  - destruct (dispatch (Z.to_nat n) O env ifiles1 ofiles1 sfiles (vflag fl) 0)
      as [[fdata bnumf] tr3] eqn:Hdisp.
    destruct (poll (polls env) ifiles1 fdata 0) as [[o fdata'] tr4] eqn:Hpoll.
    cbn [trace]. split; [|lia].
    intros [H | [H | H]]; try discriminate. cbn [app] in H.
    apply in_app_or in H as [H | H]; [destruct (Hno1 v H)|].
    apply in_app_or in H as [H | H].
    * destruct (dispatch_no_setrlimit _ _ _ _ _ _ _ _ _ _ _ Hdisp v H).
    * destruct (poll_events _ _ _ _ _ _ _ Hpoll _ H) as [j [r [c [Heq _]]]].
      discriminate.
  - destruct (dispatch (Z.to_nat n) O env ifiles1 ofiles1 sfiles (vflag fl) 0)
      as [[fdata bnumf] tr3] eqn:Hdisp.
    destruct (poll (polls env) ifiles1 fdata 0) as [[o fdata'] tr4] eqn:Hpoll.
    cbn [trace]. split; [|lia].
    intros [H | [H | H]]; try discriminate. cbn [app] in H.
    apply in_app_or in H as [H | H]; [destruct (Hno1 v H)|].
    apply in_app_or in H as [H | H].
    * destruct (dispatch_no_setrlimit _ _ _ _ _ _ _ _ _ _ _ Hdisp v H).
    * destruct (poll_events _ _ _ _ _ _ _ Hpoll _ H) as [j [r [c [Heq _]]]].
      discriminate.
Qed.

(** Two tasks with a soft limit of three descriptors. *)
Lemma limit_raised_when_needed_witness :
  In (Setrlimit 4) (trace (main inv_three env_raise)).
Proof.
  apply (limit_raised_when_needed inv_three env_raise
           (copy_flags "a|b|c" "x|y|z") 2 ["a"; "b"; "c"] ["x"; "y"; "z"]
           [Tokenized 2; Tokenized 2] 4).
  - vm_compute. reflexivity.
  - split; [reflexivity|]. split; [reflexivity | discriminate].
Defined.

(** ** Where an exit code comes from *)

Lemma results_in_writes (P : Z -> Prop) (ws : list write) :
  forall fdata : filedata,
    P (result fdata) ->
    (forall r, In (WResult r) ws -> P r) ->
    P (result (apply_writes fdata ws)).
Proof.
  induction ws as [|w ws IH]; intros fdata Hres Hws; [exact Hres|].
  simpl. apply IH.
  - destruct w; simpl; try exact Hres. apply Hws. left; reflexivity.
  - intros r Hr. apply Hws. right; exact Hr.
Qed.

Lemma results_in_advance (P : Z -> Prop) (k : nat) (c : cell) :
  results_in P c -> results_in P (advance k c).
Proof.
  intros [Hres Hpend]. split; simpl.
  - apply results_in_writes; [exact Hres|].
    intros r Hr. apply Hpend. eapply in_firstn; exact Hr.
  - intros r Hr. apply Hpend. eapply in_skipn; exact Hr.
Qed.

Lemma results_in_set_status (P : Z -> Prop) (c : cell) (s : Z) :
  results_in P c -> results_in P (set_status c s).
Proof. intros [Hres Hpend]. split; assumption. Qed.

Lemma results_in_finish (P : Z -> Prop) (c : cell) :
  results_in P c -> results_in P (finish c).
Proof.
  intros [Hres Hpend]. split; simpl.
  - apply results_in_writes; assumption.
  - intros r [].
Qed.

Lemma dispatch_results (P : Z -> Prop) (n : nat) :
  forall (i : nat) env ifiles ofiles sfiles v bnumf cells bnumf' tr,
    dispatch n i env ifiles ofiles sfiles v bnumf = (cells, bnumf', tr) ->
    P EXIT_OK ->
    (forall j r,
        In (Created j 0) tr ->
        In (WResult r)
           (writes (copyFile (worker env j) (task_record ifiles ofiles sfiles v j))) ->
        P r) ->
    Forall (results_in P) cells.
Proof.
  induction n as [|n IH];
    intros i env ifiles ofiles sfiles v bnumf cells bnumf' tr H Hzero Hok.
  - simpl in H. inversion H; subst. constructor.
  - simpl in H. destruct (is_empty (row ifiles i)).
    + destruct (dispatch n (S i) env ifiles ofiles sfiles v (bnumf + 1))
        as [[rest b] tr'] eqn:Hrest.
      inversion H; subst. constructor.
      * split; [exact Hzero | intros r []].
      * exact (IH _ _ _ _ _ _ _ _ _ _ Hrest Hzero Hok).
    + destruct (Z.eqb_spec (create env i) 0) as [Hcr | Hnz]; cbn [negb] in H.
      * destruct (dispatch n (S i) env ifiles ofiles sfiles v bnumf)
          as [[rest b] tr'] eqn:Hrest.
        inversion H; subst. rewrite Hcr in Hok. constructor.
        -- apply results_in_set_status, results_in_advance. split; [exact Hzero|].
           intros r Hr. apply (Hok i r); [left; reflexivity | exact Hr].
        -- apply (IH _ _ _ _ _ _ _ _ _ _ Hrest Hzero).
           intros j r Hj. apply Hok. right; exact Hj.
      * destruct (dispatch n (S i) env ifiles ofiles sfiles v (bnumf + 1))
          as [[rest b] tr'] eqn:Hrest.
        inversion H; subst. constructor.
        -- split; [exact Hzero | intros r []].
        -- apply (IH _ _ _ _ _ _ _ _ _ _ Hrest Hzero).
           intros j r Hj. apply Hok. right; exact Hj.
Qed.

Lemma scan_results (P : Z -> Prop) (fdata : list cell) :
  forall d ifiles i t cmd fdata' t' cmd' tr,
    scan d ifiles i fdata t cmd = (fdata', t', cmd', tr) ->
    Forall (results_in P) fdata -> P cmd ->
    Forall (results_in P) fdata' /\ P cmd'.
Proof.
  induction fdata as [|c rest IH]; intros d ifiles i t cmd fdata' t' cmd' tr H Hall Hcmd.
  - simpl in H. inversion H; subst. split; [constructor | exact Hcmd].
  - inversion Hall as [|c0 rest0 Hc Hrest0]; subst.
    scan_step H Hrun Hrow Hdone Hrest;
      try (destruct (IH _ _ _ _ _ _ _ _ _ Hrest Hrest0 Hcmd) as [Hcl Hcmd'];
           split; [constructor; [apply results_in_advance; exact Hc | exact Hcl]
                  | exact Hcmd']).
    assert (Hc2 : results_in P (advance (snd (d i)) (advance (fst (d i)) c)))
      by (apply results_in_advance, results_in_advance; exact Hc).
    assert (Hcmd2 : P (if result (fd (advance (snd (d i)) (advance (fst (d i)) c)))
                            =? EXIT_OK
                       then cmd
                       else result (fd (advance (snd (d i)) (advance (fst (d i)) c))))).
    { destruct (result (fd (advance (snd (d i)) (advance (fst (d i)) c))) =? EXIT_OK);
        [exact Hcmd | exact (proj1 Hc2)]. }
    destruct (IH _ _ _ _ _ _ _ _ _ Hrest Hrest0 Hcmd2) as [Hcl Hcmd'].
    split; [constructor; [apply results_in_set_status; exact Hc2 | exact Hcl]
           | exact Hcmd'].
Qed.

Lemma poll_results (P : Z -> Prop) (ps : list (nat -> nat * nat)) :
  forall ifiles fdata cmd o fdata' tr,
    poll ps ifiles fdata cmd = (o, fdata', tr) ->
    Forall (results_in P) fdata -> P cmd ->
    forall c, o = Exit c -> P c.
Proof.
  induction ps as [|d ps IH]; intros ifiles fdata cmd o fdata' tr H Hall Hcmd;
    cbn [poll] in H.
  - destruct (scan (fun _ => (O, O)) ifiles O (map finish fdata) 0 cmd)
      as [[[f1 t1] c1] tr1] eqn:Hscan.
    assert (Hfin : Forall (results_in P) (map finish fdata)).
    { apply Forall_map. eapply Forall_impl; [|exact Hall].
      intros c Hc. apply results_in_finish; exact Hc. }
    destruct (scan_results P _ _ _ _ _ _ _ _ _ _ Hscan Hfin Hcmd) as [_ Hc1].
    destruct (t1 =? 0); inversion H; subst; intros c Hc; inversion Hc; subst; exact Hc1.
  - destruct (scan d ifiles O fdata 0 cmd) as [[[f1 t1] c1] tr1] eqn:Hscan.
    destruct (scan_results P _ _ _ _ _ _ _ _ _ _ Hscan Hall Hcmd) as [Hcl Hc1].
    destruct (t1 =? 0).
    + inversion H; subst. intros c Hc; inversion Hc; subst; exact Hc1.
    + destruct (poll ps ifiles f1 c1) as [[o2 f2] tr2] eqn:Hpoll.
      inversion H; subst. exact (IH _ _ _ _ _ _ Hpoll Hcl Hc1).
Qed.

(** The code of a run that reaches the polling loop satisfies whatever
    holds of [EXIT_OK] and of every result a created worker stores. *)
Lemma run_results (P : Z -> Prop) (inv : invocation) (env : environment) (fl : flags)
    (n : Z) (ifiles ofiles : table) (tr : list event) :
  startup inv = Proceed fl n ifiles ofiles tr ->
  limit_reachable env n = true ->
  P EXIT_OK ->
  (forall j fdata r,
      In (Created j 0) (trace (main inv env)) ->
      verify fdata = vflag fl ->
      In (WResult r) (writes (copyFile (worker env j) fdata)) ->
      P r) ->
  forall c, outcome_of (main inv env) = Exit c -> P c.
Proof.
  intros Hstart Hlim Hzero Hok c Hc.
  destruct (main_proceeds inv env _ _ _ _ _ Hstart) as [Hout [Htr _]].
  rewrite Hout in Hc. rewrite Htr in Hok. clear Hout Htr.
  destruct (process_cases fl n ifiles ofiles env)
    as [ifiles1 [ofiles1 [sfiles [tr1 [Hval [[Hno _] | [_ Hrun]]]]]]]; [congruence|].
  destruct Hrun as [fdata [bnumf [tr3 [o [fdata' [tr4 [tr2 Hrun]]]]]]].
  destruct Hrun as [Hdisp [Hpoll [_ [_ Hproc]]]].
  rewrite Hproc in Hc, Hok. cbn [outcome_of trace] in Hc, Hok.
  apply (poll_results P _ _ _ _ _ _ _ Hpoll); [|exact Hzero|exact Hc].
  apply (dispatch_results P _ _ _ _ _ _ _ _ _ _ _ Hdisp Hzero).
  intros j r Hj. apply Hok; [|reflexivity].
  apply in_or_app; right. apply in_or_app; right. apply in_or_app; right.
  apply in_or_app; left. exact Hj.
Qed.

Lemma startup_stop_codes (inv : invocation) (code : Z) (tr : list event) :
  startup inv = Stop code tr -> code = EXIT_OK \/ code = ARG_ERROR.
Proof.
  unfold startup.
  destruct (getopt_loop (options inv) flags_init) as [fl|];
    [|intros H; inversion H; auto].
  destruct (argc inv =? 1); [intros H; inversion H; auto|].
  destruct (hflag fl); [intros H; inversion H; auto|].
  destruct (strcmp (ivalue fl) (ovalue fl) =? 0); [intros H; inversion H; auto|].
  destruct (get_filenames (ivalue fl) []) as [inumf ifiles].
  destruct (get_filenames (ovalue fl) []) as [onumf ofiles].
  destruct (negb (inumf =? onumf)); intros H; inversion H; auto.
Qed.

(** The result a worker stores is the one its record ends with. *)
Lemma worker_result_written (e : worker_env) (fdata : filedata) (r : Z) :
  In (WResult r) (writes (copyFile e fdata)) -> r = result (worker_final e fdata).
Proof.
  unfold worker_final.
  destruct (copyFile_writes e fdata) as [[r0 [_ Hw]] | Hw]; rewrite Hw; simpl.
  - intros [H | [H | [H | [H | []]]]]; inversion H; reflexivity.
  - intros [H | [H | [H | [H | [H | [H | []]]]]]]; inversion H; reflexivity.
Qed.

Lemma worker_result_is_code (e : worker_env) (fdata : filedata) (r : Z) :
  In (WResult r) (writes (copyFile e fdata)) ->
  r = EXIT_OK \/ r = READ_ERROR \/ r = WRITE_ERROR \/ r = VERIFY_ERROR.
Proof.
  destruct (copyFile_results e fdata) as [[r0 [Hw Hr0]] | Hw]; rewrite Hw; simpl.
  - intros [H | [H | [H | [H | []]]]]; inversion H; subst. tauto.
  - intros [H | [H | [H | [H | [H | [H | []]]]]]]; inversion H; auto.
Qed.

(** X20. Whatever the command line, the files and the schedule, a run
    that ends does so with one of the five codes [EXIT_OK], [READ_ERROR],
    [WRITE_ERROR], [VERIFY_ERROR] and [ARG_ERROR]; the code is
    [ARG_ERROR] only when the run stops at the sanity checks, before any
    file is probed. *)
Theorem exit_code_range (inv : invocation) (env : environment) (c : Z) :
  outcome_of (main inv env) = Exit c ->
  is_exit_code c /\
  (c = ARG_ERROR -> forall ev, In ev (trace (main inv env)) -> exists k, ev = Tokenized k).
Proof.
  intros Hc. destruct (startup inv) as [code tr | fl n ifiles ofiles tr] eqn:Hstart.
  - assert (Hcode : c = code) by (unfold main in Hc; rewrite Hstart in Hc;
                                  inversion Hc; reflexivity).
    subst c. split.
    + destruct (startup_stop_codes _ _ _ Hstart) as [-> | ->]; unfold is_exit_code; auto.
    + intros _ ev Hev. unfold main in Hev. rewrite Hstart in Hev. cbn [trace] in Hev.
      revert Hstart ev Hev. unfold startup.
      destruct (getopt_loop (options inv) flags_init) as [fl|];
        [|intros H; inversion H; intros ev []].
      destruct (argc inv =? 1); [intros H; inversion H; intros ev []|].
      destruct (hflag fl); [intros H; inversion H; intros ev []|].
      destruct (strcmp (ivalue fl) (ovalue fl) =? 0);
        [intros H; inversion H; intros ev []|].
      destruct (get_filenames (ivalue fl) []) as [inumf ifiles].
      destruct (get_filenames (ovalue fl) []) as [onumf ofiles].
      destruct (negb (inumf =? onumf)); intros H; inversion H.
      intros ev [<- | [<- | []]]; eexists; reflexivity.
  - assert (Hcodes : c = EXIT_OK \/ c = READ_ERROR \/ c = WRITE_ERROR \/ c = VERIFY_ERROR).
    { destruct (limit_reachable env n) eqn:Hlim.
      - apply (run_results
                 (fun c => c = EXIT_OK \/ c = READ_ERROR \/ c = WRITE_ERROR \/
                           c = VERIFY_ERROR)
                 inv env _ _ _ _ _ Hstart Hlim); [auto | | exact Hc].
        intros j fdata r _ _. apply worker_result_is_code.
      - destruct (main_proceeds inv env _ _ _ _ _ Hstart) as [Hout _].
        rewrite Hout in Hc.
        destruct (process_cases fl n ifiles ofiles env)
          as [ifiles1 [ofiles1 [sfiles [tr1 [Hval [[_ Hproc] | [Hyes _]]]]]]];
          [|congruence].
        rewrite Hproc in Hc. inversion Hc. auto. }
    split.
    + unfold is_exit_code. tauto.
    + intros ->. exfalso. destruct Hcodes as [H | [H | [H | H]]]; discriminate.
Qed.

(** The run of [-i "a|b|c|d" -o "x|y|z"], which ends with 4 at the
    comparison of the counts. *)
Lemma exit_code_range_witness :
  is_exit_code ARG_ERROR /\
  (forall ev, In ev (trace (main inv_uneven env_b_missing)) -> exists k, ev = Tokenized k).
Proof.
  destruct (exit_code_range inv_uneven env_b_missing ARG_ERROR) as [H1 H2].
  - vm_compute. reflexivity.
  - split; [exact H1 | exact (H2 eq_refl)].
Defined.

(** X21. A run that reaches the polling loop and ends with a code other
    than [EXIT_OK] ends with the result of a worker that was created:
    tasks that were skipped or whose thread could not be created never
    contribute to the code, and with [-v] absent the code is never
    [VERIFY_ERROR]. *)
Theorem failure_comes_from_worker (inv : invocation) (env : environment)
    (fl : flags) (n : Z) (ifiles ofiles : table) (tr : list event) (c : Z) :
  startup inv = Proceed fl n ifiles ofiles tr ->
  limit_reachable env n = true ->
  outcome_of (main inv env) = Exit c ->
  c <> EXIT_OK ->
  (exists j fdata,
      In (Created j 0) (trace (main inv env)) /\
      verify fdata = vflag fl /\
      c = result (worker_final (worker env j) fdata)) /\
  (vflag fl = false -> c <> VERIFY_ERROR).
Proof.
  intros Hstart Hlim Hc Hne.
  assert (Hfrom : c = EXIT_OK \/
                  exists j fdata,
                    In (Created j 0) (trace (main inv env)) /\
                    verify fdata = vflag fl /\
                    c = result (worker_final (worker env j) fdata)).
  { apply (run_results
             (fun c => c = EXIT_OK \/
                       exists j fdata,
                         In (Created j 0) (trace (main inv env)) /\
                         verify fdata = vflag fl /\
                         c = result (worker_final (worker env j) fdata))
             inv env _ _ _ _ _ Hstart Hlim); [auto | | exact Hc].
    intros j fdata r Hj Hv Hr. right. exists j, fdata.
    split; [exact Hj|]. split; [exact Hv|]. apply worker_result_written; exact Hr. }
  destruct Hfrom as [Hok | [j [fdata [Hj [Hv Hres]]]]]; [contradiction|].
  split; [exists j, fdata; auto|].
  intros Hoff Hver. rewrite Hoff in Hv.
  destruct (copyFile_results (worker env j) fdata) as [[r0 [Hw Hr0]] | Hw];
    unfold worker_final in Hres; rewrite Hw in Hres; simpl in Hres.
  - destruct Hr0 as [-> | [-> | [_ Hon]]]; [subst; discriminate | subst; discriminate|].
    congruence.
  - subst. discriminate.
Qed.

(** Task 1 of ["a|b|c"], ["x|y|z"] cannot create its output file. *)
Lemma failure_comes_from_worker_witness :
  (exists j fdata,
      In (Created j 0) (trace (main inv_three env_second_fails)) /\
      verify fdata = false /\
      WRITE_ERROR = result (worker_final (worker env_second_fails j) fdata)) /\
  WRITE_ERROR <> VERIFY_ERROR.
Proof.
  destruct (failure_comes_from_worker inv_three env_second_fails
              (copy_flags "a|b|c" "x|y|z") 2 ["a"; "b"; "c"] ["x"; "y"; "z"]
              [Tokenized 2; Tokenized 2] WRITE_ERROR) as [H1 H2].
  - vm_compute. reflexivity.
  - reflexivity.
  - vm_compute. reflexivity.
  - discriminate.
  - split; [exact H1 | exact (H2 eq_refl)].
Defined.

(** ** The bookkeeping of the polling loop *)

Lemma count_reaped_app (j : nat) (tr1 tr2 : list event) :
  count_reaped j (tr1 ++ tr2) = (count_reaped j tr1 + count_reaped j tr2)%nat.
Proof.
  induction tr1 as [|ev tr1 IH]; [reflexivity|].
  destruct ev; cbn [app count_reaped]; rewrite IH; lia.
Qed.

Lemma count_reaped_silent (j : nat) (tr : list event) :
  reaped tr = [] -> count_reaped j tr = O.
Proof.
  induction tr as [|ev tr IH]; [reflexivity|].
  destruct ev; cbn [reaped count_reaped]; try exact IH. discriminate.
Qed.

Lemma advance_zero (c : cell) : advance 0 c = c.
Proof. destruct c; reflexivity. Qed.

Lemma advance_inert (k : nat) (c : cell) : inert c -> advance k c = c.
Proof.
  destruct c as [f ws]. intros [_ Hws]. cbn [pend] in Hws. subst ws.
  unfold advance. cbn [fd pend]. rewrite firstn_nil, skipn_nil. reflexivity.
Qed.

Lemma finish_advance (c : cell) : finish c = advance (length (pend c)) c.
Proof. unfold finish, advance. rewrite firstn_all, skipn_all. reflexivity. Qed.

Lemma status_stores_skipn (ws : list write) :
  forall k, (status_stores (skipn k ws) <= status_stores ws)%nat.
Proof.
  unfold status_stores.
  induction ws as [|w ws IH]; intros [|k]; cbn [skipn]; try lia.
  specialize (IH k). cbn [filter]. destruct (stores_status w); cbn [length]; lia.
Qed.

(** The worker of a live entry moves on. *)
Lemma live_advance (k : nat) (c : cell) :
  live c ->
  live (advance k c) /\
  (status (fd (advance k c)) = status (fd c) \/
   (status (fd c) = TS_RUNNING /\ status (fd (advance k c)) = TS_DONE)).
Proof.
  destruct c as [f ws]. revert f k.
  induction ws as [|w ws IH]; intros f k Hlive.
  - unfold advance. cbn [fd pend]. rewrite firstn_nil, skipn_nil.
    split; [exact Hlive | left; reflexivity].
  - destruct k as [|k]; [split; [exact Hlive | left; reflexivity]|].
    change (advance (S k) {| fd := f; pend := w :: ws |})
      with (advance k {| fd := apply_write f w; pend := ws |}).
    destruct Hlive as [Hall Hst]. cbn [fd pend] in Hall, Hst.
    assert (Hall' : forall s, In (WStatus s) ws -> s = TS_DONE)
      by (intros s Hs; apply Hall; right; exact Hs).
    unfold status_stores in Hst.
    destruct w as [q | q | s | r]; cbn [filter stores_status length] in Hst.
    + destruct (IH (apply_write f (WTimeUsec q)) k) as [Hl Hs];
        [split; [exact Hall' | exact Hst] | split; [exact Hl | exact Hs]].
    + destruct (IH (apply_write f (WTimeSec q)) k) as [Hl Hs];
        [split; [exact Hall' | exact Hst] | split; [exact Hl | exact Hs]].
    + assert (Hs : s = TS_DONE) by (apply Hall; left; reflexivity). subst s.
      destruct Hst as [[Hrun Hcount] | [_ Hcount]]; [|discriminate].
      assert (Hzero : status_stores ws = O) by (unfold status_stores; lia).
      destruct (IH (apply_write f (WStatus TS_DONE)) k) as [Hl Hs].
      { split; [exact Hall'|]. right. split; [left; reflexivity | exact Hzero]. }
      split; [exact Hl|]. right. split; [exact Hrun|].
      cbn [fd] in Hs |- *. destruct Hs as [Hs | [Hs _]]; [exact Hs | discriminate].
    + destruct (IH (apply_write f (WResult r)) k) as [Hl Hs];
        [split; [exact Hall' | exact Hst] | split; [exact Hl | exact Hs]].
Qed.

Lemma live_checked_advance (k : nat) (c : cell) :
  live c -> checked (advance k c) = checked c.
Proof.
  intros Hlive. unfold checked.
  destruct (live_advance k c Hlive) as [_ [-> | [-> ->]]]; reflexivity.
Qed.

(** The [TS_DONE] branch of the polling loop, taken on a live entry. *)
Lemma live_reap (k : nat) (c : cell) :
  live c -> status (fd c) = TS_DONE -> live (set_status (advance k c) TS_CHECKED).
Proof.
  intros [Hall Hst] Hdone. split; cbn [set_status advance fd pend].
  - intros s Hs. apply Hall. eapply in_skipn; exact Hs.
  - right. split; [right; reflexivity|].
    destruct Hst as [[Hrun _] | [_ Hzero]]; [rewrite Hdone in Hrun; discriminate|].
    pose proof (status_stores_skipn (pend c) k). lia.
Qed.

(** One pass at a live entry: the entry is [TS_CHECKED] afterwards
    exactly when it was before or the pass took the [TS_DONE] branch. *)
Lemma pass_live (d : nat -> nat * nat) (ifiles : table) (j : nat) (c : cell) :
  live c ->
  live (pass_cell d ifiles j c) /\
  ((if reaps ifiles j (advance (fst (d j)) c) then 1 else 0) +
   (if checked c then 1 else 0) =
   (if checked (pass_cell d ifiles j c) then 1 else 0))%nat /\
  (status (fd (advance (fst (d j)) c)) <> TS_RUNNING ->
   is_empty (row ifiles j) = false ->
   checked (pass_cell d ifiles j c) = true).
Proof.
  intros Hlive.
  destruct (live_advance (fst (d j)) c Hlive) as [Hl1 _].
  rewrite <- (live_checked_advance (fst (d j)) c Hlive).
  unfold pass_cell. cbv zeta.
  set (c1 := advance (fst (d j)) c) in *.
  unfold reaps. destruct (is_empty (row ifiles j)) eqn:Hrow; cbn [negb andb].
  - split; [exact Hl1|]. split; [reflexivity|]. intros _ H; discriminate.
  - destruct (Z.eqb_spec (status (fd c1)) TS_DONE) as [Hd | Hnd].
    + split; [apply live_reap; assumption|].
      split; [|intros _ _; reflexivity].
      unfold checked at 1. rewrite Hd. reflexivity.
    + split; [exact Hl1|]. split; [reflexivity|]. intros Hnr _.
      destruct Hl1 as [_ [[Hr _] | [[Hdn | Hc] _]]]; try contradiction.
      unfold checked. rewrite Hc. reflexivity.
Qed.

(** One pass at an entry without a worker changes nothing. *)
Lemma pass_inert (d : nat -> nat * nat) (ifiles : table) (j : nat) (c : cell) :
  inert c ->
  pass_cell d ifiles j c = c /\ reaps ifiles j (advance (fst (d j)) c) = false.
Proof.
  intros Hin. unfold pass_cell. cbv zeta. rewrite (advance_inert _ _ Hin).
  assert (Hr : reaps ifiles j c = false).
  { unfold reaps. destruct Hin as [-> _]. apply andb_false_r. }
  rewrite Hr. split; reflexivity.
Qed.

(** What one pass of the polling loop does, entry by entry. *)
Lemma scan_pointwise (fdata : list cell) :
  forall d ifiles i t cmd fdata' t' cmd' tr,
    scan d ifiles i fdata t cmd = (fdata', t', cmd', tr) ->
    length fdata' = length fdata /\
    (forall k, (k < length fdata)%nat ->
       entry fdata' k = pass_cell d ifiles (i + k)%nat (entry fdata k) /\
       count_reaped (i + k)%nat tr =
         (if reaps ifiles (i + k)%nat (advance (fst (d (i + k)%nat)) (entry fdata k))
          then 1 else 0)%nat /\
       (t' = t ->
        status (fd (advance (fst (d (i + k)%nat)) (entry fdata k))) <> TS_RUNNING)) /\
    (forall j, (j < i \/ i + length fdata <= j)%nat -> count_reaped j tr = O) /\
    t <= t'.
Proof.
  induction fdata as [|c rest IH]; intros d ifiles i t cmd fdata' t' cmd' tr H.
  - simpl in H. inversion H; subst. split; [reflexivity|].
    split; [intros k Hk; simpl in Hk; lia|]. split; [reflexivity | lia].
  - scan_step H Hrun Hrow Hdone Hrest;
      destruct (IH _ _ _ _ _ _ _ _ _ Hrest) as [Hlen [Hpt [Hout Hle]]];
      (split; [cbn [length]; f_equal; exact Hlen|]);
      (split; [|split; [|lia]]).
    + intros [|k] Hk.
      * rewrite Nat.add_0_r. unfold entry, pass_cell, reaps. cbn [nth]. cbv zeta.
        apply Z.eqb_eq in Hrun. rewrite Hrun. rewrite andb_false_r.
        split; [reflexivity|]. split; [apply Hout; lia | lia].
      * cbn [length] in Hk. replace (i + S k)%nat with (S i + k)%nat by lia.
        destruct (Hpt k) as [He [Hc Ht]]; [lia|].
        split; [exact He|]. split; [exact Hc | lia].
    + intros j Hj. cbn [length] in Hj. apply Hout. lia.
    + intros [|k] Hk.
      * rewrite Nat.add_0_r. unfold entry, pass_cell, reaps. cbn [nth]. cbv zeta.
        rewrite Hrow. cbn [negb andb].
        split; [reflexivity|]. split; [apply Hout; lia|].
        intros _. apply Z.eqb_neq. exact Hrun.
      * cbn [length] in Hk. replace (i + S k)%nat with (S i + k)%nat by lia.
        destruct (Hpt k) as [He [Hc Ht]]; [lia|].
        split; [exact He|]. split; [exact Hc | exact Ht].
    + intros j Hj. cbn [length] in Hj. apply Hout. lia.
    + intros [|k] Hk.
      * rewrite Nat.add_0_r. unfold entry, pass_cell, reaps. cbn [nth]. cbv zeta.
        rewrite Hrow, Hdone. cbn [negb andb].
        split; [reflexivity|]. split.
        -- cbn [count_reaped]. rewrite Nat.eqb_refl. rewrite Hout by lia. reflexivity.
        -- intros _. apply Z.eqb_neq. exact Hrun.
      * cbn [length] in Hk. replace (i + S k)%nat with (S i + k)%nat by lia.
        destruct (Hpt k) as [He [Hc Ht]]; [lia|].
        split; [exact He|]. split; [|exact Ht].
        cbn [count_reaped]. destruct (Nat.eqb_spec i (S i + k)); [lia|]. exact Hc.
    + intros j Hj. cbn [length] in Hj. cbn [count_reaped].
      destruct (Nat.eqb_spec i j); [lia|]. apply Hout. lia.
    + intros [|k] Hk.
      * rewrite Nat.add_0_r. unfold entry, pass_cell, reaps. cbn [nth]. cbv zeta.
        rewrite Hrow, Hdone. cbn [negb andb].
        split; [reflexivity|]. split; [apply Hout; lia|].
        intros _. apply Z.eqb_neq. exact Hrun.
      * cbn [length] in Hk. replace (i + S k)%nat with (S i + k)%nat by lia.
        destruct (Hpt k) as [He [Hc Ht]]; [lia|].
        split; [exact He|]. split; [exact Hc | exact Ht].
    + intros j Hj. cbn [length] in Hj. apply Hout. lia.
Qed.

(** One pass from the first entry on, for a live entry and for one
    without a worker. *)
Lemma scan_entry (d : nat -> nat * nat) (ifiles : table) (fdata : list cell)
    (cmd : Z) (fdata' : list cell) (t' cmd' : Z) (tr : list event) (k : nat) :
  scan d ifiles O fdata 0 cmd = (fdata', t', cmd', tr) ->
  (k < length fdata)%nat ->
  (live (entry fdata k) ->
   live (entry fdata' k) /\
   (count_reaped k tr + (if checked (entry fdata k) then 1 else 0) =
    (if checked (entry fdata' k) then 1 else 0))%nat /\
   (t' = 0 -> is_empty (row ifiles k) = false -> checked (entry fdata' k) = true)) /\
  (inert (entry fdata k) -> inert (entry fdata' k) /\ count_reaped k tr = O).
Proof.
  intros Hscan Hk.
  destruct (scan_pointwise _ _ _ _ _ _ _ _ _ _ Hscan) as [_ [Hpt _]].
  destruct (Hpt k Hk) as [He [Hc Ht]]. cbn [Nat.add] in He, Hc, Ht.
  rewrite He, Hc. split.
  - intros Hlive. destruct (pass_live d ifiles k _ Hlive) as [Hl [Hcount Hexit]].
    split; [exact Hl|]. split; [exact Hcount|].
    intros Hzero Hrow. apply Hexit; [apply Ht; exact Hzero | exact Hrow].
  - intros Hin. destruct (pass_inert d ifiles k _ Hin) as [-> ->].
    split; [exact Hin | reflexivity].
Qed.

Lemma entry_finish (fdata : list cell) (k : nat) :
  entry (map finish fdata) k = finish (entry fdata k).
Proof.
  unfold entry. change no_cell with (finish no_cell) at 1. apply map_nth.
Qed.

(** The polling loop, entry by entry. *)
Lemma poll_entries (ps : list (nat -> nat * nat)) :
  forall ifiles fdata cmd o fdata' tr,
    poll ps ifiles fdata cmd = (o, fdata', tr) ->
    (forall k, (length fdata <= k)%nat -> count_reaped k tr = O) /\
    (forall k, (k < length fdata)%nat ->
       (live (entry fdata k) ->
        live (entry fdata' k) /\
        (count_reaped k tr + (if checked (entry fdata k) then 1 else 0) =
         (if checked (entry fdata' k) then 1 else 0))%nat /\
        (forall c, o = Exit c -> is_empty (row ifiles k) = false ->
                   checked (entry fdata' k) = true)) /\
       (inert (entry fdata k) -> inert (entry fdata' k) /\ count_reaped k tr = O)).
Proof.
  induction ps as [|d ps IH]; intros ifiles fdata cmd o fdata' tr H; cbn [poll] in H.
  - destruct (scan (fun _ => (O, O)) ifiles O (map finish fdata) 0 cmd)
      as [[[f1 t1] c1] tr1] eqn:Hscan.
    assert (Hres : fdata' = f1 /\ tr = tr1 /\ (forall c, o = Exit c -> t1 = 0)).
    { destruct (Z.eqb_spec t1 0); inversion H; subst;
        (split; [reflexivity|]; split; [reflexivity|]); intros c Hc;
        [first [reflexivity | assumption] | discriminate]. }
    destruct Hres as [-> [-> Hexit]]. clear H.
    destruct (scan_pointwise _ _ _ _ _ _ _ _ _ _ Hscan) as [_ [_ [Hout _]]].
    rewrite length_map in Hout.
    split; [intros k Hk; apply Hout; lia|].
    intros k Hk.
    assert (Hk' : (k < length (map finish fdata))%nat) by (rewrite length_map; exact Hk).
    destruct (scan_entry _ _ _ _ _ _ _ _ k Hscan Hk') as [Hlive Hinert].
    rewrite entry_finish, finish_advance in Hlive, Hinert.
    split.
    + intros Hl. destruct (live_advance (length (pend (entry fdata k))) _ Hl) as [Hl' _].
      destruct (Hlive Hl') as [Hl1 [Hcount Hdone]].
      rewrite (live_checked_advance _ _ Hl) in Hcount.
      split; [exact Hl1|]. split; [exact Hcount|].
      intros c Hc. apply Hdone. exact (Hexit c Hc).
    + intros Hi. apply Hinert. rewrite (advance_inert _ _ Hi). exact Hi.
  - destruct (scan d ifiles O fdata 0 cmd) as [[[f1 t1] c1] tr1] eqn:Hscan.
    destruct (scan_pointwise _ _ _ _ _ _ _ _ _ _ Hscan) as [Hlen [_ [Hout _]]].
    destruct (Z.eqb_spec t1 0) as [Hzero | Hnz].
    + inversion H; subst. clear H.
      split; [intros k Hk; apply Hout; lia|].
      intros k Hk. destruct (scan_entry _ _ _ _ _ _ _ _ k Hscan Hk) as [Hlive Hinert].
      split; [|exact Hinert].
      intros Hl. destruct (Hlive Hl) as [Hl1 [Hcount Hdone]].
      split; [exact Hl1|]. split; [exact Hcount|].
      intros c _. apply Hdone. reflexivity.
    + destruct (poll ps ifiles f1 c1) as [[o2 f2] tr2] eqn:Hpoll.
      inversion H; subst. clear H.
      destruct (IH _ _ _ _ _ _ Hpoll) as [Hout2 Hpt2]. rewrite Hlen in Hout2, Hpt2.
      split.
      { intros k Hk. rewrite count_reaped_app, Hout2 by exact Hk.
        rewrite Hout by lia. reflexivity. }
      intros k Hk. destruct (scan_entry _ _ _ _ _ _ _ _ k Hscan Hk) as [Hlive Hinert].
      destruct (Hpt2 k Hk) as [Hlive2 Hinert2].
      split.
      * intros Hl. destruct (Hlive Hl) as [Hl1 [Hcount1 _]].
        destruct (Hlive2 Hl1) as [Hl2 [Hcount2 Hdone]].
        split; [exact Hl2|]. split; [rewrite count_reaped_app; lia | exact Hdone].
      * intros Hi. destruct (Hinert Hi) as [Hi1 Hc1].
        destruct (Hinert2 Hi1) as [Hi2 Hc2].
        split; [exact Hi2 | rewrite count_reaped_app; lia].
Qed.

(** The entry of a task whose worker was created. *)
Lemma started_live (e : worker_env) (fdata : filedata) (k : nat) :
  live (set_status (advance k {| fd := fdata; pend := writes (copyFile e fdata) |})
          TS_RUNNING).
Proof.
  assert (Hw : (forall s, In (WStatus s) (writes (copyFile e fdata)) -> s = TS_DONE) /\
               status_stores (writes (copyFile e fdata)) = 1%nat).
  { destruct (copyFile_writes e fdata) as [[r [_ Hw]] | Hw]; rewrite Hw;
      (split; [|reflexivity]); intros s; simpl.
    - intros [H | [H | [H | [H | []]]]]; inversion H; reflexivity.
    - intros [H | [H | [H | [H | [H | [H | []]]]]]]; inversion H; reflexivity. }
  destruct Hw as [Hall Hone]. split; cbn [set_status advance fd pend].
  - intros s Hs. apply Hall. eapply in_skipn; exact Hs.
  - left. split; [reflexivity|].
    pose proof (status_stores_skipn (writes (copyFile e fdata)) k). lia.
Qed.

(** The entries after the dispatch, and the calls of [pthread_create]
    that returned 0. *)
Lemma dispatch_entries (n : nat) :
  forall (i : nat) env ifiles ofiles sfiles v bnumf cells bnumf' tr,
    dispatch n i env ifiles ofiles sfiles v bnumf = (cells, bnumf', tr) ->
    length cells = n /\
    (forall k, (k < n)%nat ->
       (started env ifiles (i + k)%nat = true ->
        live (entry cells k) /\ checked (entry cells k) = false) /\
       (started env ifiles (i + k)%nat = false -> inert (entry cells k))) /\
    (forall j, In (Created j 0) tr <->
               (i <= j < i + n)%nat /\ started env ifiles j = true).
Proof.
  induction n as [|n IH]; intros i env ifiles ofiles sfiles v bnumf cells bnumf' tr H.
  - simpl in H. inversion H; subst. split; [reflexivity|].
    split; [intros k Hk; lia|]. intros j. split; [intros [] | intros [Hj _]; lia].
  - cbn [dispatch] in H. unfold started in *.
    destruct (is_empty (row ifiles i)) eqn:Hrow;
      [|cbv zeta in H; destruct (Z.eqb_spec (create env i) 0) as [Hcr | Hnz];
        cbn [negb] in H];
      match type of H with
      | context [dispatch n (S i) env ifiles ofiles sfiles v ?b] =>
          destruct (dispatch n (S i) env ifiles ofiles sfiles v b)
            as [[rest b'] tr'] eqn:Hrest
      end;
      inversion H; subst; clear H;
      destruct (IH _ _ _ _ _ _ _ _ _ _ Hrest) as [Hlen [Hpt Hev]];
      (split; [cbn [length]; f_equal; exact Hlen|]).
    + split.
      * intros [|k] Hk.
        -- rewrite Nat.add_0_r, Hrow. cbn [negb andb]. split; [discriminate|].
           intros _. split; reflexivity.
        -- replace (i + S k)%nat with (S i + k)%nat by lia. apply Hpt. lia.
      * intros j. rewrite Hev. split.
        -- intros [Hj Hs]. split; [lia | exact Hs].
        -- intros [Hj Hs]. split; [|exact Hs].
           destruct (Nat.eq_dec j i) as [-> | Hne]; [|lia].
           rewrite Hrow in Hs. discriminate.
    + split.
      * intros [|k] Hk.
        -- rewrite Nat.add_0_r, Hrow, Hcr. cbn [negb andb Z.eqb].
           split; [|discriminate]. intros _. unfold entry. cbn [nth].
           split; [apply started_live | reflexivity].
        -- replace (i + S k)%nat with (S i + k)%nat by lia. apply Hpt. lia.
      * intros j. split.
        -- intros [Hj | Hj].
           ++ inversion Hj; subst. rewrite Hrow, Hcr. split; [lia | reflexivity].
           ++ apply Hev in Hj as [Hj Hs]. split; [lia | exact Hs].
        -- intros [Hj Hs]. destruct (Nat.eq_dec j i) as [-> | Hne].
           ++ left. rewrite Hcr. reflexivity.
           ++ right. apply Hev. split; [lia | exact Hs].
    + assert (Hoff : (create env i =? 0) = false) by (apply Z.eqb_neq; exact Hnz).
      split.
      * intros [|k] Hk.
        -- rewrite Nat.add_0_r, Hrow, Hoff. cbn [negb andb]. split; [discriminate|].
           intros _. split; reflexivity.
        -- replace (i + S k)%nat with (S i + k)%nat by lia. apply Hpt. lia.
      * intros j. split.
        -- intros [Hj | Hj].
           ++ inversion Hj; subst. congruence.
           ++ apply Hev in Hj as [Hj Hs]. split; [lia | exact Hs].
        -- intros [Hj Hs]. destruct (Nat.eq_dec j i) as [-> | Hne].
           ++ rewrite Hoff, andb_false_r in Hs. discriminate.
           ++ right. apply Hev. split; [lia | exact Hs].
Qed.

Lemma main_entries (inv : invocation) (env : environment) (fl : flags) (n : Z)
    (ifiles ofiles : table) (tr : list event) :
  startup inv = Proceed fl n ifiles ofiles tr ->
  fdata_of (main inv env) = fdata_of (process fl n ifiles ofiles env).
Proof. intros Hstart. unfold main. rewrite Hstart. reflexivity. Qed.

(** The bookkeeping of a whole run, for every index [j]. *)
Lemma run_reaping (inv : invocation) (env : environment) (fl : flags) (n : Z)
    (ifiles ofiles : table) (tr : list event) (j : nat) :
  startup inv = Proceed fl n ifiles ofiles tr ->
  (count_reaped j (trace (main inv env)) <= 1)%nat /\
  (~ In (Created j 0) (trace (main inv env)) ->
   count_reaped j (trace (main inv env)) = O) /\
  (In (Created j 0) (trace (main inv env)) ->
   forall c, outcome_of (main inv env) = Exit c ->
             count_reaped j (trace (main inv env)) = 1%nat /\
             status (fd (entry (fdata_of (main inv env)) j)) = TS_CHECKED).
Proof.
  intros Hstart.
  destruct (main_proceeds inv env _ _ _ _ _ Hstart) as [Hout [Htr _]].
  rewrite Hout, Htr, (main_entries inv env _ _ _ _ _ Hstart). clear Hout Htr.
  destruct (process_cases fl n ifiles ofiles env)
    as [ifiles1 [ofiles1 [sfiles [tr1 [Hval Hcases]]]]].
  destruct (validate_events _ _ _ _ _ _ _ _ _ _ Hval) as [Hsil1 Hnc1].
  destruct Hcases as [[_ Hproc] | [_ Hrun]].
  - rewrite Hproc. cbn [trace outcome_of fdata_of app count_reaped].
    rewrite (count_reaped_silent j tr1 Hsil1).
    split; [lia|]. split; [reflexivity|].
    intros [H | [H | H]]; try discriminate. destruct (Hnc1 _ _ H).
  - destruct Hrun as [fdata [bnumf [tr3 [o [fdata' [tr4 [tr2 Hrun]]]]]]].
    destruct Hrun as [Hdisp [Hpoll [Hsil2 [Hnc2 Hproc]]]].
    rewrite Hproc. cbn [trace outcome_of fdata_of app count_reaped]. clear Hproc.
    destruct (dispatch_events _ _ _ _ _ _ _ _ _ _ _ Hdisp) as [Hsil3 Hrows].
    destruct (dispatch_entries _ _ _ _ _ _ _ _ _ _ _ Hdisp) as [Hlen [Hpt Hev]].
    destruct (poll_entries _ _ _ _ _ _ _ Hpoll) as [Hout Hentries].
    rewrite Hlen in Hout, Hentries.
    rewrite !count_reaped_app, (count_reaped_silent j tr1 Hsil1),
      (count_reaped_silent j tr2 Hsil2), (count_reaped_silent j tr3 Hsil3).
    cbn [Nat.add].
    assert (Hin : In (Created j 0) (tr1 ++ tr2 ++ tr3 ++ tr4) <-> In (Created j 0) tr3).
    { split.
      - intros H. apply in_app_or in H as [H | H]; [destruct (Hnc1 _ _ H)|].
        apply in_app_or in H as [H | H]; [destruct (Hnc2 _ _ H)|].
        apply in_app_or in H as [H | H]; [exact H|].
        destruct (poll_events _ _ _ _ _ _ _ Hpoll _ H) as [a [r [c [Heq _]]]].
        discriminate.
      - intros H. apply in_or_app; right. apply in_or_app; right.
        apply in_or_app; left. exact H. }
    assert (Hcr : In (Created j 0)
                    (Tokenized n :: Tokenized n :: tr1 ++ tr2 ++ tr3 ++ tr4) <->
                  (j < Z.to_nat n)%nat /\ started env ifiles1 j = true).
    { specialize (Hev j). cbn [Nat.add] in Hev. rewrite <- Hin in Hev.
      split.
      - intros [H | [H | H]]; try discriminate.
        apply Hev in H as [Hj Hs]. split; [lia | exact Hs].
      - intros [Hj Hs]. right. right. apply Hev. split; [lia | exact Hs]. }
    rewrite Hcr. clear Hcr Hin Hev.
    destruct (Nat.lt_ge_cases j (Z.to_nat n)) as [Hj | Hj].
    + destruct (Hpt j Hj) as [Hyes Hno]. cbn [Nat.add] in Hyes, Hno.
      destruct (Hentries j Hj) as [Hlive Hinert].
      destruct (started env ifiles1 j) eqn:Hs.
      * destruct (Hyes eq_refl) as [Hl Hun]. rewrite Hun in Hlive.
        destruct (Hlive Hl) as [_ [Hcount Hdone]].
        split; [destruct (checked (entry fdata' j)); lia|].
        split; [intros Hnot; exfalso; apply Hnot; split; [exact Hj | reflexivity]|].
        intros _ c Hc.
        assert (Hrow : is_empty (row ifiles1 j) = false).
        { unfold started in Hs. apply andb_true_iff in Hs as [Hs _].
          now apply negb_true_iff in Hs. }
        pose proof (Hdone c Hc Hrow) as Hch. rewrite Hch in Hcount.
        split; [lia|]. unfold checked in Hch. apply Z.eqb_eq. exact Hch.
      * destruct (Hinert (Hno eq_refl)) as [_ Hzero]. rewrite Hzero.
        split; [lia|]. split; [reflexivity|]. intros [_ H]; discriminate.
    + rewrite (Hout j Hj). split; [lia|]. split; [reflexivity|]. intros [H _]; lia.
Qed.

(** X22. In a run that ends, the polling loop goes through its
    [TS_DONE] branch exactly once for every task whose worker was
    created, and leaves the entry of the task [TS_CHECKED], whatever the
    schedule of the workers. *)
Theorem started_task_reaped_once (inv : invocation) (env : environment)
    (fl : flags) (n : Z) (ifiles ofiles : table) (tr : list event) (j : nat) (c : Z) :
  startup inv = Proceed fl n ifiles ofiles tr ->
  outcome_of (main inv env) = Exit c ->
  In (Created j 0) (trace (main inv env)) ->
  count_reaped j (trace (main inv env)) = 1%nat /\
  status (fd (entry (fdata_of (main inv env)) j)) = TS_CHECKED.
Proof.
  intros Hstart Hc Hj.
  destruct (run_reaping inv env _ _ _ _ _ j Hstart) as [_ [_ Hdone]].
  exact (Hdone Hj c Hc).
Qed.

(** Task 1 of ["a|b|c"], ["x|y|z"], whose worker fails. *)
Lemma started_task_reaped_once_witness :
  count_reaped 1 (trace (main inv_three env_second_fails)) = 1%nat /\
  status (fd (entry (fdata_of (main inv_three env_second_fails)) 1)) = TS_CHECKED.
Proof.
  apply (started_task_reaped_once inv_three env_second_fails
           (copy_flags "a|b|c" "x|y|z") 2 ["a"; "b"; "c"] ["x"; "y"; "z"]
           [Tokenized 2; Tokenized 2] 1%nat WRITE_ERROR).
  - vm_compute. reflexivity.
  - vm_compute. reflexivity.
  - vm_compute. right. right. right. right. right. left. reflexivity.
Defined.

(** X23. Whether the run ends or hangs, the polling loop never goes
    through its [TS_DONE] branch twice for the same task, and never for
    a task without a worker: one that was skipped, or one for which
    [pthread_create] failed. *)
Theorem no_task_reaped_twice (inv : invocation) (env : environment)
    (fl : flags) (n : Z) (ifiles ofiles : table) (tr : list event) (j : nat) :
  startup inv = Proceed fl n ifiles ofiles tr ->
  (count_reaped j (trace (main inv env)) <= 1)%nat /\
  (~ In (Created j 0) (trace (main inv env)) ->
   count_reaped j (trace (main inv env)) = O).
Proof.
  intros Hstart.
  destruct (run_reaping inv env _ _ _ _ _ j Hstart) as [Hle [Hnone _]].
  split; [exact Hle | exact Hnone].
Qed.

(** Task 0 when [pthread_create] returns [EAGAIN] for it. *)
Lemma no_task_reaped_twice_witness :
  In (Created 0 11) (trace (main inv_three env_no_thread)) /\
  count_reaped 0 (trace (main inv_three env_no_thread)) = O.
Proof.
  split; [vm_compute; right; right; right; right; left; reflexivity|].
  apply (no_task_reaped_twice inv_three env_no_thread
           (copy_flags "a|b|c" "x|y|z") 2 ["a"; "b"; "c"] ["x"; "y"; "z"]
           [Tokenized 2; Tokenized 2] 0%nat).
  - vm_compute. reflexivity.
  - vm_compute. intros H.
    repeat (destruct H as [H | H]; [discriminate|]). exact H.
Defined.

(** ** The records of the tasks *)

Lemma task_fields_writes (ws : list write) :
  forall f, task_fields (apply_writes f ws) = task_fields f.
Proof.
  induction ws as [|w ws IH]; intros f; [reflexivity|].
  cbn [apply_writes fold_left]. fold (apply_writes (apply_write f w) ws).
  rewrite IH. destruct w; reflexivity.
Qed.

Lemma task_fields_advance (k : nat) (c : cell) :
  task_fields (fd (advance k c)) = task_fields (fd c).
Proof. apply task_fields_writes. Qed.

Lemma task_fields_pass (d : nat -> nat * nat) (ifiles : table) (j : nat) (c : cell) :
  task_fields (fd (pass_cell d ifiles j c)) = task_fields (fd c).
Proof.
  unfold pass_cell. cbv zeta.
  destruct (reaps ifiles j (advance (fst (d j)) c)).
  - change (task_fields (fd (set_status (advance (snd (d j)) (advance (fst (d j)) c))
                               TS_CHECKED)))
      with (task_fields (fd (advance (snd (d j)) (advance (fst (d j)) c)))).
    now rewrite !task_fields_advance.
  - apply task_fields_advance.
Qed.

Lemma scan_fields (d : nat -> nat * nat) (ifiles : table) (i : nat)
    (fdata : list cell) (t cmd : Z) (fdata' : list cell) (t' cmd' : Z)
    (tr : list event) (k : nat) :
  scan d ifiles i fdata t cmd = (fdata', t', cmd', tr) ->
  length fdata' = length fdata /\
  task_fields (fd (entry fdata' k)) = task_fields (fd (entry fdata k)).
Proof.
  intros Hscan.
  destruct (scan_pointwise _ _ _ _ _ _ _ _ _ _ Hscan) as [Hlen [Hpt _]].
  split; [exact Hlen|].
  destruct (Nat.lt_ge_cases k (length fdata)) as [Hk | Hk].
  - destruct (Hpt k Hk) as [-> _]. apply task_fields_pass.
  - unfold entry. rewrite !nth_overflow by lia. reflexivity.
Qed.

Lemma poll_fields (ps : list (nat -> nat * nat)) :
  forall ifiles fdata cmd o fdata' tr k,
    poll ps ifiles fdata cmd = (o, fdata', tr) ->
    task_fields (fd (entry fdata' k)) = task_fields (fd (entry fdata k)).
Proof.
  induction ps as [|d ps IH]; intros ifiles fdata cmd o fdata' tr k H; cbn [poll] in H.
  - destruct (scan (fun _ => (O, O)) ifiles O (map finish fdata) 0 cmd)
      as [[[f1 t1] c1] tr1] eqn:Hscan.
    destruct (scan_fields _ _ _ _ _ _ _ _ _ _ k Hscan) as [_ Hf].
    rewrite entry_finish, finish_advance, task_fields_advance in Hf.
    destruct (t1 =? 0); inversion H; subst; exact Hf.
  - destruct (scan d ifiles O fdata 0 cmd) as [[[f1 t1] c1] tr1] eqn:Hscan.
    destruct (scan_fields _ _ _ _ _ _ _ _ _ _ k Hscan) as [_ Hf].
    destruct (t1 =? 0).
    + inversion H; subst. exact Hf.
    + destruct (poll ps ifiles f1 c1) as [[o2 f2] tr2] eqn:Hpoll.
      inversion H; subst. rewrite (IH _ _ _ _ _ _ k Hpoll). exact Hf.
Qed.

Lemma dispatch_fields (n : nat) :
  forall (i : nat) env ifiles ofiles sfiles v bnumf cells bnumf' tr,
    dispatch n i env ifiles ofiles sfiles v bnumf = (cells, bnumf', tr) ->
    forall k, (k < n)%nat ->
      started env ifiles (i + k)%nat = true ->
      task_fields (fd (entry cells k)) =
      task_fields (task_record ifiles ofiles sfiles v (i + k)%nat).
Proof.
  induction n as [|n IH]; intros i env ifiles ofiles sfiles v bnumf cells bnumf' tr H k Hk;
    [lia|].
  cbn [dispatch] in H. unfold started in *.
  destruct (is_empty (row ifiles i)) eqn:Hrow;
    [|cbv zeta in H; destruct (Z.eqb_spec (create env i) 0) as [Hcr | Hnz];
      cbn [negb] in H];
    match type of H with
    | context [dispatch n (S i) env ifiles ofiles sfiles v ?b] =>
        destruct (dispatch n (S i) env ifiles ofiles sfiles v b)
          as [[rest b'] tr'] eqn:Hrest
    end;
    inversion H; subst; clear H;
    (destruct k as [|k];
     [rewrite Nat.add_0_r
     |replace (i + S k)%nat with (S i + k)%nat by lia;
      apply (IH _ _ _ _ _ _ _ _ _ _ Hrest); lia]).
  - rewrite Hrow. discriminate.
  - intros _. unfold entry. cbn [nth].
    change (task_fields
              (fd (set_status
                     (advance (early env i)
                        {| fd := task_record ifiles ofiles sfiles v i;
                           pend := writes (copyFile (worker env i)
                                             (task_record ifiles ofiles sfiles v i)) |})
                     TS_RUNNING)))
      with (task_fields
              (fd (advance (early env i)
                     {| fd := task_record ifiles ofiles sfiles v i;
                        pend := writes (copyFile (worker env i)
                                          (task_record ifiles ofiles sfiles v i)) |}))).
    apply task_fields_advance.
  - apply Z.eqb_neq in Hnz. rewrite Hnz, andb_false_r. discriminate.
Qed.

(** X24. In a run that reaches the polling loop, the record of a task
    whose input file opened at the validation and whose thread was
    created holds, at the end of the run, the two names of the pair cut
    to [PATH_MAX] characters and the verify flag: neither the worker nor
    the polling loop changes what [main] filled in. *)
Theorem task_record_filled (inv : invocation) (env : environment) (fl : flags)
    (n : Z) (ifiles ofiles : table) (tr : list event) (j : nat) :
  startup inv = Proceed fl n ifiles ofiles tr ->
  limit_reachable env n = true ->
  (j < Z.to_nat n)%nat ->
  probe env (row ifiles j) <> None ->
  create env j = 0 ->
  task_fields (fd (entry (fdata_of (main inv env)) j)) =
  (strncpy (row ifiles j) PATH_MAX, strncpy (row ofiles j) PATH_MAX, vflag fl).
Proof.
  intros Hstart Hlim Hj Hprobe Hcreate.
  rewrite (main_entries inv env _ _ _ _ _ Hstart).
  destruct (startup_rows _ _ _ _ _ _ j Hstart Hj) as [Hrow _].
  destruct (process_cases fl n ifiles ofiles env)
    as [ifiles1 [ofiles1 [sfiles [tr1 [Hval [[Hno _] | [_ Hrun]]]]]]]; [congruence|].
  destruct Hrun as [fdata [bnumf [tr3 [o [fdata' [tr4 [tr2 Hrun]]]]]]].
  destruct Hrun as [Hdisp [Hpoll [_ [_ Hproc]]]].
  rewrite Hproc. cbn [fdata_of].
  destruct (validate_keeps _ _ _ _ _ _ _ _ _ _ Hval j Hprobe) as [Hki Hko].
  rewrite (poll_fields _ _ _ _ _ _ _ j Hpoll).
  rewrite (dispatch_fields _ _ _ _ _ _ _ _ _ _ _ Hdisp j Hj).
  - unfold task_fields, task_record. cbn [input_name output_name verify Nat.add].
    rewrite Hki, Hko. reflexivity.
  - unfold started. cbn [Nat.add]. rewrite Hki, Hrow, Hcreate. reflexivity.
Qed.

(** Task 1 of ["a|b|c"], ["x|y|z"]. *)
Lemma task_record_filled_witness :
  task_fields (fd (entry (fdata_of (main inv_three env_second_fails)) 1)) =
  ("b", "y", false).
Proof.
  apply (task_record_filled inv_three env_second_fails
           (copy_flags "a|b|c" "x|y|z") 2 ["a"; "b"; "c"] ["x"; "y"; "z"]
           [Tokenized 2; Tokenized 2] 1%nat).
  - vm_compute. reflexivity.
  - reflexivity.
  - apply Nat.ltb_lt. reflexivity.
  - discriminate.
  - reflexivity.
Defined.

(** ** The blocks of a copy *)

Lemma copy_loop_calls (fuel : nat) :
  forall (infile : rfile) (outfile : wfile) (calls : nat),
    r_end infile = AtEOF ->
    feof infile = false ->
    w_room outfile = None ->
    (length (r_data infile) + 2 <= fuel)%nat ->
    exists c,
      snd (copy_loop fuel infile outfile calls) = (calls + c)%nat /\
      (length (r_data infile) <= c * BLOCKSIZE)%nat /\
      (c * BLOCKSIZE < length (r_data infile) + BLOCKSIZE)%nat.
Proof.
  pose proof BLOCKSIZE_pos as Hpos.
  induction fuel as [|fuel IH]; intros infile outfile calls Hend Heof Hroom Hlen; [lia|].
  cbn [copy_loop]. rewrite Heof. unfold fread at 1.
  destruct (Nat.leb_spec BLOCKSIZE (length (r_data infile))) as [Hfull | Hlast].
  - rewrite length_firstn, Nat.min_l by exact Hfull.
    destruct (Z.leb_spec (Z.of_nat BLOCKSIZE) 0); [lia|].
    unfold fwrite. rewrite Hroom, length_firstn, Nat.min_l, Z.eqb_refl by exact Hfull.
    cbn [negb].
    edestruct IH as [c [Hcalls [Hlow Hhigh]]]; [| | | | rewrite Hcalls];
      cbn [r_end r_eof feof r_data w_room w_data]; try assumption; try reflexivity.
    + rewrite length_skipn. lia.
    + cbn [r_data] in Hlow, Hhigh. rewrite length_skipn in Hlow, Hhigh.
      exists (S c). rewrite Nat.mul_succ_l. split; [lia|]. split; lia.
  - rewrite Hend.
    destruct (Z.leb_spec (Z.of_nat (length (r_data infile))) 0) as [Hzero | Hsome].
    + cbn [feof r_eof snd]. exists O. rewrite Nat.mul_0_l. split; [lia|]. split; lia.
    + unfold fwrite. rewrite Hroom, Z.eqb_refl. cbn [negb].
      destruct fuel as [|fuel]; [lia|]. cbn [copy_loop feof r_eof snd].
      exists 1%nat. rewrite Nat.mul_1_l. split; [lia|]. split; lia.
Qed.

(** X25. A worker that copies a file ending regularly to a device
    without limit calls [fwrite] once for every block of [BLOCKSIZE]
    bytes, the last one possibly shorter: the number of calls is the
    length of the file divided by [BLOCKSIZE], rounded up, and none for
    an empty file. *)
Theorem one_fwrite_per_block (e : worker_env) (fdata : filedata) (data : list byte) :
  open_in e = Some (file_of data) ->
  open_out e = Some no_limit ->
  (length data <= fwrite_calls (copyFile e fdata) * BLOCKSIZE)%nat /\
  (fwrite_calls (copyFile e fdata) * BLOCKSIZE < length data + BLOCKSIZE)%nat.
Proof.
  intros Hin Hout.
  destruct (copyFile_io e fdata _ _ Hin Hout) as [_ Hcalls]. rewrite Hcalls.
  destruct (copy_loop_calls (loop_bound (file_of data)) (fopen_r (file_of data))
              (fopen_w no_limit) O eq_refl eq_refl eq_refl) as [c [Hc Hbounds]].
  { unfold loop_bound. cbn [fopen_r r_data file_of src_data]. lia. }
  rewrite Hc. exact Hbounds.
Qed.

(** The copy of the one byte "a". *)
Lemma one_fwrite_per_block_witness :
  (length [x61] <= fwrite_calls (copyFile env_copy (fdata_ab false)) * BLOCKSIZE)%nat /\
  (fwrite_calls (copyFile env_copy (fdata_ab false)) * BLOCKSIZE
   < length [x61] + BLOCKSIZE)%nat.
Proof.
  apply (one_fwrite_per_block env_copy (fdata_ab false) [x61]); reflexivity.
Defined.

(** ** The options *)

Lemma getopt_loop_vflag (os : list opt) :
  forall fl fl',
    getopt_loop os fl = Some fl' ->
    (vflag fl' = true <-> vflag fl = true \/ In Opt_v os).
Proof.
  induction os as [|o os IH]; intros fl fl' H; cbn [getopt_loop] in H.
  - inversion H; subst. cbn [In]. tauto.
  - destruct o; cbn [set_opt] in H; try discriminate;
      rewrite (IH _ _ H); cbn [vflag In]; split;
      try (intros [Hv | Hv]; [left; exact Hv | right; right; exact Hv]);
      try (intros [Hv | [Hv | Hv]];
           [left; exact Hv | discriminate | right; exact Hv]).
    + intros _. right. left. reflexivity.
    + intros _. left. reflexivity.
Qed.

Lemma getopt_loop_no_lists (os : list opt) :
  forall fl fl',
    getopt_loop os fl = Some fl' ->
    (forall a, ~ In (Opt_i a) os) ->
    (forall a, ~ In (Opt_o a) os) ->
    iflag fl' = iflag fl /\ oflag fl' = oflag fl /\
    ivalue fl' = ivalue fl /\ ovalue fl' = ovalue fl.
Proof.
  induction os as [|o os IH]; intros fl fl' H Hi Ho; cbn [getopt_loop] in H.
  - inversion H; subst. repeat split.
  - assert (Hi' : forall a, ~ In (Opt_i a) os) by (intros a Ha; apply (Hi a); right; exact Ha).
    assert (Ho' : forall a, ~ In (Opt_o a) os) by (intros a Ha; apply (Ho a); right; exact Ha).
    destruct o; cbn [set_opt] in H; try discriminate;
      try exact (IH _ _ H Hi' Ho').
    + exfalso. apply (Hi optarg). left; reflexivity.
    + exfalso. apply (Ho optarg). left; reflexivity.
Qed.

(** X26. A run that gets past the sanity checks works on the lists
    given with the last [-i] and the last [-o] of the command line,
    earlier ones being dropped, and verifies exactly when [-v] is among
    the options. *)
Theorem last_arguments_used (inv : invocation) (fl : flags) (n : Z)
    (ifiles ofiles : table) (tr : list event) :
  startup inv = Proceed fl n ifiles ofiles tr ->
  get_filenames (i_argument inv) [] = (n, ifiles) /\
  get_filenames (o_argument inv) [] = (n, ofiles) /\
  (vflag fl = true <-> In Opt_v (options inv)).
Proof.
  intros Hstart. destruct (startup_tables _ _ _ _ _ _ Hstart) as [Hi Ho].
  revert Hstart. unfold startup, i_argument, o_argument.
  destruct (getopt_loop (options inv) flags_init) as [fl'|] eqn:Hopt; [|discriminate].
  destruct (argc inv =? 1); [discriminate|].
  destruct (hflag fl'); [discriminate|].
  destruct (strcmp (ivalue fl') (ovalue fl') =? 0); [discriminate|].
  destruct (get_filenames (ivalue fl') []) as [inumf ifiles'].
  destruct (get_filenames (ovalue fl') []) as [onumf ofiles'].
  destruct (negb (inumf =? onumf)); [discriminate|].
  intros H; inversion H; subst.
  destruct (getopt_loop_flags _ _ _ Hopt) as [_ [Hiv Hov]].
  cbn [ivalue ovalue flags_init] in Hiv, Hov. rewrite <- Hiv, <- Hov.
  split; [exact Hi|]. split; [exact Ho|].
  rewrite (getopt_loop_vflag _ _ _ Hopt). cbn [vflag flags_init].
  split; [intros [Hv | Hv]; [discriminate | exact Hv] | intros Hv; right; exact Hv].
Qed.

(** [-i a -o x -v -i "b|c" -o "y|z"]: the lists are ["b|c"] and
    ["y|z"]. *)
Lemma last_arguments_used_witness :
  get_filenames "b|c" [] = (1, ["b"; "c"]) /\
  get_filenames "y|z" [] = (1, ["y"; "z"]) /\
  In Opt_v (options inv_twice).
Proof.
  destruct (last_arguments_used inv_twice
              {| dflag := false; hflag := false; iflag := true; oflag := true;
                 qflag := false; vflag := true; ivalue := "b|c"; ovalue := "y|z" |}
              1 ["b"; "c"] ["y"; "z"] [Tokenized 1; Tokenized 1]) as [H1 [H2 H3]].
  - vm_compute. reflexivity.
  - split; [exact H1|]. split; [exact H2|]. apply H3. reflexivity.
Defined.

(** X27. [iflag] and [oflag] are set and never read: a command line
    with valid options, none of them [-h], [-i] or [-o], is not
    rejected; it gets past the sanity checks with the initial values of
    [ivalue] and [ovalue] as its lists, the one pair of the files "i"
    and "o". *)
Theorem lists_not_required (inv : invocation) :
  ~ In Opt_unknown (options inv) ->
  argc inv <> 1 ->
  help_requested inv = false ->
  (forall a, ~ In (Opt_i a) (options inv)) ->
  (forall a, ~ In (Opt_o a) (options inv)) ->
  exists fl,
    startup inv = Proceed fl 1 ["i"] ["o"] [Tokenized 1; Tokenized 1] /\
    iflag fl = false /\ oflag fl = false.
Proof.
  unfold help_requested. intros Hknown Hargs Hhelp Hi Ho.
  destruct (getopt_loop_known (options inv) flags_init Hknown) as [fl Hopt].
  destruct (getopt_loop_flags _ _ _ Hopt) as [Hh _].
  destruct (getopt_loop_no_lists _ _ _ Hopt Hi Ho) as [Hif [Hof [Hiv Hov]]].
  rewrite Hhelp in Hh. cbn [hflag flags_init orb] in Hh.
  cbn [iflag oflag ivalue ovalue flags_init] in Hif, Hof, Hiv, Hov.
  exists fl. split; [|split; assumption].
  unfold startup. rewrite Hopt, Hh, Hiv, Hov.
  apply Z.eqb_neq in Hargs. rewrite Hargs.
  vm_compute. reflexivity.
Qed.

(** [threadcopy -v]. *)
Lemma lists_not_required_witness :
  exists fl,
    startup inv_only_v = Proceed fl 1 ["i"] ["o"] [Tokenized 1; Tokenized 1] /\
    iflag fl = false /\ oflag fl = false.
Proof.
  apply (lists_not_required inv_only_v).
  - intros [H | []]; discriminate.
  - discriminate.
  - reflexivity.
  - intros a [H | []]; discriminate.
  - intros a [H | []]; discriminate.
Defined.
